(** * datasift/streamconsumer_http.py: the HTTP stream consumer

    A shallow embedding of [StreamConsumer_HTTP] (the supervisor that owns the
    list of hashes and hot-swaps its worker thread) and of
    [StreamConsumer_HTTP_Thread] (the worker: connect, classify the response,
    decode frames from the raw socket, back off and retry).

    - Python 2 byte strings are [string]; integers are [Z].
    - The worker is a state-and-exception monad over the record [thread];
      every unbounded [while] loop takes a fuel argument that bounds the
      number of iterations, and [Diverge] is "fuel exhausted".
    - What the worker cannot decide by itself (the outcome of [urlopen], what
      the socket delivers, what the consumer answers to [_is_running], when
      the supervisor's [stop()] lands, whether the data callback raises, what
      [json.loads] returns) comes from a [world].
    - Calls on the consumer's callbacks and [sleep] are recorded in a trace.
      Logging is not modelled. *)

From Stdlib Require Import String Ascii ZArith List Lia Bool DecimalString.
Import ListNotations.

Set Warnings "-register-all".

Open Scope string_scope.
Open Scope Z_scope.

(* ------------------------------------------------------------------ *)
(** ** Python values and string operations used by the module         *)
(* ------------------------------------------------------------------ *)

Module Py.

Definition LF : ascii := "010"%char.
Definition CR : ascii := "013"%char.
Definition DQ : ascii := "034"%char.

(** [len(s)] *)
Definition len (s : string) : Z := Z.of_nat (String.length s).

(** [s.find(c)] for a one-character needle: index of the first occurrence,
    [-1] when there is none. *)
Fixpoint find_char (c : ascii) (s : string) : Z :=
  match s with
  | EmptyString => -1
  | String a r =>
      if Ascii.eqb a c then 0
      else let k := find_char c r in if k <? 0 then -1 else k + 1
  end.

Fixpoint take (n : nat) (s : string) : string :=
  match n, s with
  | O, _ => EmptyString
  | S _, EmptyString => EmptyString
  | S m, String a r => String a (take m r)
  end.

Fixpoint drop (n : nat) (s : string) : string :=
  match n, s with
  | O, _ => s
  | S _, EmptyString => EmptyString
  | S m, String _ r => drop m r
  end.

(** How a slice bound is resolved: negative bounds count from the end, and
    the result is clamped to [0 .. len s]. *)
Definition clamp (s : string) (i : Z) : nat :=
  if i <? 0 then Z.to_nat (Z.max 0 (i + len s))
  else Z.to_nat (Z.min i (len s)).

(** [s[lo:hi]] *)
Definition slice (s : string) (lo hi : Z) : string :=
  let a := clamp s lo in
  let b := clamp s hi in
  take (b - a) (drop a s).

(** [s[lo:]] *)
Definition slice_from (s : string) (lo : Z) : string :=
  drop (clamp s lo) s.

(** [s.replace('\r', '')] *)
Fixpoint strip_cr (s : string) : string :=
  match s with
  | EmptyString => EmptyString
  | String a r => if Ascii.eqb a CR then strip_cr r else String a (strip_cr r)
  end.

(** [s.find(sub) != -1], which is also [sub in s] for strings. *)
Fixpoint contains (sub s : string) : bool :=
  if String.prefix sub s then true
  else match s with
       | EmptyString => false
       | String _ r => contains sub r
       end.

(** ['%s' % n] and ['%d' % n] for an integer. *)
Definition str_of_int (z : Z) : string := NilZero.string_of_int (Z.to_int z).

(** *** [int(s, 16)]
    Surrounding whitespace is dropped, then an optional sign, an optional
    [0x] prefix and at least one hexadecimal digit are read; anything else
    is a [ValueError] ([None]). *)
Definition is_space (c : ascii) : bool :=
  let n := nat_of_ascii c in
  (Nat.eqb n 32 || (Nat.leb 9 n && Nat.leb n 13))%bool.

Fixpoint lstrip (s : string) : string :=
  match s with
  | String a r => if is_space a then lstrip r else s
  | EmptyString => EmptyString
  end.

Fixpoint rstrip (s : string) : string :=
  match s with
  | EmptyString => EmptyString
  | String a r =>
      match rstrip r with
      | EmptyString => if is_space a then EmptyString else String a EmptyString
      | r' => String a r'
      end
  end.

Definition hex_digit (c : ascii) : option Z :=
  let n := Z.of_nat (nat_of_ascii c) in
  if (48 <=? n) && (n <=? 57) then Some (n - 48)
  else if (97 <=? n) && (n <=? 102) then Some (n - 87)
  else if (65 <=? n) && (n <=? 70) then Some (n - 55)
  else None.

Fixpoint hex_digits (acc : Z) (s : string) : option Z :=
  match s with
  | EmptyString => Some acc
  | String c r =>
      match hex_digit c with
      | Some d => hex_digits (16 * acc + d) r
      | None => None
      end
  end.

Definition strip_0x (s : string) : string :=
  match s with
  | String "0" (String "x" r) => r
  | String "0" (String "X" r) => r
  | _ => s
  end.

Definition int16 (s : string) : option Z :=
  let body := rstrip (lstrip s) in
  let '(neg, digits) :=
    match body with
    | String "-" r => (true, r)
    | String "+" r => (false, r)
    | _ => (false, body)
    end in
  match strip_0x digits with
  | EmptyString => None
  | ds => option_map (fun v => if neg then - v else v) (hex_digits 0 ds)
  end.

(** *** [repr(s)] of a byte string (Python 2)
    Single quotes, unless the string holds a single quote and no double
    quote; the quote in use and the backslash are escaped with a
    backslash, tab, newline and carriage return are written [\t], [\n],
    [\r], and every other byte below 32 or from 127 up is written [\xNN]
    with two lower-case hexadecimal digits. *)
Definition SQ : ascii := "039"%char.
Definition BS : ascii := "092"%char.
Definition TAB : ascii := "009"%char.
Definition NUL : ascii := "000"%char.

Fixpoint has_char (c : ascii) (s : string) : bool :=
  match s with
  | EmptyString => false
  | String a r => Ascii.eqb a c || has_char c r
  end.

Definition hex_char (k : nat) : ascii :=
  ascii_of_nat (if Nat.ltb k 10 then 48 + k else 87 + k).

Definition escaped (quote c : ascii) : string :=
  let n := nat_of_ascii c in
  if Ascii.eqb c quote || Ascii.eqb c BS then String BS (String c "")
  else if Ascii.eqb c TAB then String BS "t"
  else if Ascii.eqb c LF then String BS "n"
  else if Ascii.eqb c CR then String BS "r"
  else if Nat.ltb n 32 || Nat.leb 127 n
       then String BS (String "x"
              (String (hex_char (Nat.div n 16))
                 (String (hex_char (Nat.modulo n 16)) "")))
  else String c "".

Fixpoint escape_all (quote : ascii) (s : string) : string :=
  match s with
  | EmptyString => EmptyString
  | String c r => escaped quote c ++ escape_all quote r
  end.

Definition repr (s : string) : string :=
  let quote := if has_char SQ s && negb (has_char DQ s) then DQ else SQ in
  String quote (escape_all quote s ++ String quote "").



(** [str(e)] of the [ValueError] of [int(s, 16)].  The literal is shown
    by [repr]; the interpreter shows it from its first character that is
    not whitespace and cuts it after 200 characters, except for a string
    that holds a NUL byte, which is refused before it is parsed and shown
    whole. *)
Definition int16_error (s : string) : string :=
  "invalid literal for int() with base 16: "
  ++ repr (if has_char NUL s then s else take 200 (lstrip s)).

(** *** What [json.loads] can return.  Of a number the code only ever
    observes whether it is zero, and its type when ['message' in data]
    fails on it.  A JSON string is decoded to a [unicode] object. *)
Inductive num_type : Type := PyInt | PyLong | PyFloat.

Inductive pyval : Type :=
| PNone
| PBool (b : bool)
| PNum (ty : num_type) (nonzero : bool)
| PStr (s : string)
| PList (l : list pyval)
| PDict (kv : list (string * pyval)).

(** [type(v).__name__] *)
Definition type_name (v : pyval) : string :=
  match v with
  | PNone => "NoneType"
  | PBool _ => "bool"
  | PNum PyInt _ => "int"
  | PNum PyLong _ => "long"
  | PNum PyFloat _ => "float"
  | PStr _ => "unicode"
  | PList _ => "list"
  | PDict _ => "dict"
  end.

(** Truth value, as tested by [data and ...]. *)
Definition truthy (v : pyval) : bool :=
  match v with
  | PNone => false
  | PBool b => b
  | PNum _ nz => nz
  | PStr s => negb (String.eqb s "")
  | PList l => match l with [] => false | _ => true end
  | PDict kv => match kv with [] => false | _ => true end
  end.

Fixpoint lookup (k : string) (kv : list (string * pyval)) : option pyval :=
  match kv with
  | [] => None
  | (k', v) :: r => if String.eqb k' k then Some v else lookup k r
  end.

Definition is_str (k : string) (v : pyval) : bool :=
  match v with PStr s => String.eqb s k | _ => false end.

(** [k in v]: [None] is the [TypeError] raised for a value that is not a
    container. *)
Definition has_key (k : string) (v : pyval) : option bool :=
  match v with
  | PDict kv => Some (match lookup k kv with Some _ => true | None => false end)
  | PList l => Some (existsb (is_str k) l)
  | PStr s => Some (contains k s)
  | PNone | PBool _ | PNum _ _ => None
  end.

(** [v[k]] for a string key: only a dict can be indexed by a string. *)
Definition get_item (k : string) (v : pyval) : option pyval :=
  match v with
  | PDict kv => lookup k kv
  | _ => None
  end.

(** [str(e)] of the [TypeError] of [k in v] ... *)
Definition not_iterable_error (v : pyval) : string :=
  "argument of type '" ++ type_name v ++ "' is not iterable".

(** ... and of the exception of [v[k]] for a string key: the [KeyError]
    of a dict, the [TypeError] of a list, of a [unicode] string and of
    the values that cannot be indexed at all. *)
Definition get_item_error (k : string) (v : pyval) : string :=
  match v with
  | PDict _ => repr k
  | PList _ => "list indices must be integers, not str"
  | PStr _ => "string indices must be integers"
  | PNone | PBool _ | PNum _ _ =>
      "'" ++ type_name v ++ "' object has no attribute '__getitem__'"
  end.

End Py.

(* ------------------------------------------------------------------ *)
(** ** The worker: [StreamConsumer_HTTP_Thread]                        *)
(* ------------------------------------------------------------------ *)

Module Worker.
Import Py.

(** Exceptions, by the class that decides which [except] clause of [run]
    catches them; the argument is [str(e)]. *)
Inductive exn : Type :=
| ExponentialBackoffError (msg : string)
| LinearBackoffError (msg : string)
| StdException (msg : string)   (* any other subclass of Exception *)
| NonException (msg : string).  (* BaseException outside Exception, e.g.
                                   KeyboardInterrupt, SystemExit *)

Definition str (e : exn) : string :=
  match e with
  | ExponentialBackoffError m | LinearBackoffError m
  | StdException m | NonException m => m
  end.

(** What one call of [_raw_read] meets on the socket. *)
Inductive sock_event : Type :=
| SelError                 (* select reports the socket in its error list *)
| SelTimeout               (* nothing to read within the one-second wait *)
| Recv (data : string)     (* readable, recv returns data *)
| RecvError (msg : string) (* readable, recv raises socket.error or SSLError *).

(** A socket is what it will still deliver; once that is used up it stays
    idle ([select] times out). *)
Definition socket : Type := list sock_event.

(** Outcome of [urllib2.urlopen].  An [HTTPError] is used by the code as
    the response itself, so it is a [Response] too. *)
Inductive open_result : Type :=
| Response (code : Z) (transfer_encoding : option string) (raw : socket)
| URLError (msg : string)
| OpenRaises (msg : string). (* another exception, e.g. socket.timeout *)

Record world : Type := {
  (** [_consumer._is_running(allow_starting)] at the k-th evaluation of a
      loop condition *)
  is_running : bool -> nat -> bool;
  (** whether the supervisor has called [stop()] on this thread by then *)
  stop_signal : nat -> bool;
  (** the k-th call of [urlopen] *)
  urlopen : nat -> open_result;
  (** [_consumer._on_data(frame)]: [Some e] when it raises [e] *)
  on_data : string -> option exn;
  (** [json.loads]: [None] when it raises *)
  json_loads : string -> option pyval
}.

(** Observable calls, in order.  The callbacks other than [_on_data]
    ([_on_connect], [_on_warning], [_on_error], [_on_disconnect]) are
    taken to return normally. *)
Inductive event : Type :=
| EvConnecting
| EvSleep (seconds : Z)
| EvOnConnect
| EvOnData (frame : string)
| EvOnWarning (msg : string)
| EvOnError (msg : pyval)
| EvOnDisconnect
| EvSockClose.

Record thread : Type := {
  _auto_reconnect : bool;
  _buffer : string;
  _sock : option socket;
  _chunked : bool;
  _has_connected : bool;
  _stop_requested : bool;
  (** locals of [run] *)
  connection_delay : Z;
  first_connection : bool;
  (** how much of the world has been consumed, and what was done *)
  opens : nat;
  polls : nat;
  trace : list event
}.

(** [StreamConsumer_HTTP_Thread.__init__] *)
Definition __init__ (auto_reconnect : bool) : thread :=
  {| _auto_reconnect := auto_reconnect;
     _buffer := "";
     _sock := None;
     _chunked := false;
     _has_connected := false;
     _stop_requested := false;
     connection_delay := 0;
     first_connection := true;
     opens := 0;
     polls := 0;
     trace := [] |}.

Definition set_buffer (b : string) (t : thread) : thread :=
  {| _auto_reconnect := _auto_reconnect t; _buffer := b; _sock := _sock t;
     _chunked := _chunked t; _has_connected := _has_connected t;
     _stop_requested := _stop_requested t;
     connection_delay := connection_delay t;
     first_connection := first_connection t;
     opens := opens t; polls := polls t; trace := trace t |}.

Definition set_sock (s : option socket) (t : thread) : thread :=
  {| _auto_reconnect := _auto_reconnect t; _buffer := _buffer t; _sock := s;
     _chunked := _chunked t; _has_connected := _has_connected t;
     _stop_requested := _stop_requested t;
     connection_delay := connection_delay t;
     first_connection := first_connection t;
     opens := opens t; polls := polls t; trace := trace t |}.

Definition set_chunked (b : bool) (t : thread) : thread :=
  {| _auto_reconnect := _auto_reconnect t; _buffer := _buffer t;
     _sock := _sock t; _chunked := b; _has_connected := _has_connected t;
     _stop_requested := _stop_requested t;
     connection_delay := connection_delay t;
     first_connection := first_connection t;
     opens := opens t; polls := polls t; trace := trace t |}.

Definition set_has_connected (b : bool) (t : thread) : thread :=
  {| _auto_reconnect := _auto_reconnect t; _buffer := _buffer t;
     _sock := _sock t; _chunked := _chunked t; _has_connected := b;
     _stop_requested := _stop_requested t;
     connection_delay := connection_delay t;
     first_connection := first_connection t;
     opens := opens t; polls := polls t; trace := trace t |}.

Definition set_delay (d : Z) (t : thread) : thread :=
  {| _auto_reconnect := _auto_reconnect t; _buffer := _buffer t;
     _sock := _sock t; _chunked := _chunked t;
     _has_connected := _has_connected t;
     _stop_requested := _stop_requested t;
     connection_delay := d;
     first_connection := first_connection t;
     opens := opens t; polls := polls t; trace := trace t |}.

Definition set_first (b : bool) (t : thread) : thread :=
  {| _auto_reconnect := _auto_reconnect t; _buffer := _buffer t;
     _sock := _sock t; _chunked := _chunked t;
     _has_connected := _has_connected t;
     _stop_requested := _stop_requested t;
     connection_delay := connection_delay t;
     first_connection := b;
     opens := opens t; polls := polls t; trace := trace t |}.

Definition next_open (t : thread) : thread :=
  {| _auto_reconnect := _auto_reconnect t; _buffer := _buffer t;
     _sock := _sock t; _chunked := _chunked t;
     _has_connected := _has_connected t;
     _stop_requested := _stop_requested t;
     connection_delay := connection_delay t;
     first_connection := first_connection t;
     opens := S (opens t); polls := polls t; trace := trace t |}.

(** One look at the outside: the poll counter advances and a stop request
    that has landed is now in [_stop_requested], where it stays. *)
Definition observe (stop : bool) (t : thread) : thread :=
  {| _auto_reconnect := _auto_reconnect t; _buffer := _buffer t;
     _sock := _sock t; _chunked := _chunked t;
     _has_connected := _has_connected t;
     _stop_requested := _stop_requested t || stop;
     connection_delay := connection_delay t;
     first_connection := first_connection t;
     opens := opens t; polls := S (polls t); trace := trace t |}.

Definition log_event (ev : event) (t : thread) : thread :=
  {| _auto_reconnect := _auto_reconnect t; _buffer := _buffer t;
     _sock := _sock t; _chunked := _chunked t;
     _has_connected := _has_connected t;
     _stop_requested := _stop_requested t;
     connection_delay := connection_delay t;
     first_connection := first_connection t;
     opens := opens t; polls := polls t; trace := trace t ++ [ev] |}.

(** *** The monad: state, exceptions, fuel *)
Inductive outcome (A : Type) : Type :=
| Ret (a : A)
| Raise (e : exn)
| Diverge.
Arguments Ret {A} a.
Arguments Raise {A} e.
Arguments Diverge {A}.

Definition M (A : Type) : Type := thread -> outcome A * thread.

Definition ret {A} (a : A) : M A := fun t => (Ret a, t).
Definition raise {A} (e : exn) : M A := fun t => (Raise e, t).
Definition diverge {A} : M A := fun t => (Diverge, t).
Definition bind {A B} (m : M A) (k : A -> M B) : M B :=
  fun t =>
    match m t with
    | (Ret a, t') => k a t'
    | (Raise e, t') => (Raise e, t')
    | (Diverge, t') => (Diverge, t')
    end.
Definition modify (f : thread -> thread) : M unit := fun t => (Ret tt, f t).
Definition emit (ev : event) : M unit := modify (log_event ev).
(** [try: m  except ..., e: h e] *)
Definition catch {A} (m : M A) (h : exn -> M A) : M A :=
  fun t =>
    match m t with
    | (Raise e, t') => h e t'
    | r => r
    end.

Notation "x <- m ;; k" := (bind m (fun x => k))
  (at level 61, m at next level, right associativity).
Notation "m ;; k" := (bind m (fun _ => k))
  (at level 61, right associativity).

Definition gets {A} (f : thread -> A) : M A := fun t => (Ret (f t), t).

(** How an iteration of [run]'s loop ends: fall through to the loop
    condition, or [break]. *)
Inductive ctl : Type := Next | Break.

Section Code.
Variable w : world.

(** *** [_raw_read]
    With no socket ([self._sock] is [None]) [select.select] raises a
    [TypeError]. *)
Definition _raw_read : M unit :=
  fun t =>
    match _sock t with
    | None =>
        (Raise (StdException
                  "argument must be an int, or have a fileno() method."), t)
    | Some [] => (Ret tt, t)
    | Some (SelError :: s) =>
        (Raise (StdException "Something went wrong with the socket"),
         set_sock (Some s) t)
    | Some (SelTimeout :: s) => (Ret tt, set_sock (Some s) t)
    | Some (Recv data :: s) =>
        let t' := set_sock (Some s) t in
        (Ret tt,
         if 0 <? len data
         then set_buffer (_buffer t ++ strip_cr data) t'
         else t')
    | Some (RecvError msg :: s) =>
        (Raise (LinearBackoffError msg), set_sock (Some s) t)
    end.

(** *** [_raw_read_chunk] *)
(** the condition of its [while] *)
Definition need_more (length : Z) (buffer : string) : bool :=
  ((length =? 0) && (find_char LF buffer =? -1))
  || ((0 <? length) && (len buffer <? length)).

Fixpoint _raw_read_chunk_while (fuel : nat) (length : Z) : M unit :=
  fun t =>
    if need_more length (_buffer t) then
      match fuel with
      | O => (Diverge, t)
      | S f => (_raw_read ;; _raw_read_chunk_while f length) t
      end
    else (Ret tt, t).

Definition _raw_read_chunk (fuel : nat) (length : Z) : M string :=
  _raw_read_chunk_while fuel length ;;
  fun t =>
    let pos := if length =? 0 then find_char LF (_buffer t) else length in
    let retval := slice (_buffer t) 0 pos in
    (Ret retval, set_buffer (slice_from (_buffer t) (pos + 1)) t).

(** *** [_read_chunk] *)
Fixpoint _read_chunk_while (fuel : nat) (length : string) : M string :=
  if len length =? 0 then
    match fuel with
    | O => diverge
    | S f => l <- _raw_read_chunk f 0 ;; _read_chunk_while f l
    end
  else ret length.

Definition _read_chunk (fuel : nat) : M string :=
  length <- _read_chunk_while fuel "" ;;
  chunked <- gets _chunked ;;
  if negb chunked then ret length
  else
    match int16 length with
    | None => raise (StdException (int16_error length))
    | Some n => _raw_read_chunk fuel n
    end.

(** *** [_read_stream] *)
Definition stream_guard : M bool :=
  fun t =>
    let k := polls t in
    let t' := observe (stop_signal w k) t in
    (Ret (is_running w false k && negb (_stop_requested t')), t').

(** [self._consumer._on_data(frame)] *)
Definition deliver (frame : string) : M unit :=
  emit (EvOnData frame) ;;
  match on_data w frame with
  | Some e => raise e
  | None => ret tt
  end.

Fixpoint _read_stream (fuel : nat) : M unit :=
  go <- stream_guard ;;
  if go : bool then
    match fuel with
    | O => diverge
    | S f => frame <- _read_chunk f ;; deliver frame ;; _read_stream f
    end
  else ret tt.

(** *** [run] *)
Definition run_guard : M bool :=
  fun t =>
    if first_connection t || _auto_reconnect t then
      let k := polls t in
      let t' := observe (stop_signal w k) t in
      (Ret (is_running w true k && negb (_stop_requested t')), t')
    else (Ret false, t).

(** [while json_data and len(json_data) <= 4: json_data = self._read_chunk()] *)
Fixpoint error_payload (fuel : nat) (json_data : string) : M string :=
  if negb (String.eqb json_data "") && (len json_data <=? 4) then
    match fuel with
    | O => diverge
    | S f => d <- _read_chunk f ;; error_payload f d
    end
  else ret json_data.

(** the [try: json.loads ... except: ... else: ...] of the 4xx branch;
    the [else] part is outside the inner [try], so a [TypeError] raised
    by ['message' in data] or [data['message']] leaves it *)
Definition report_error_payload (resp_code : Z) (json_data : string)
  : M unit :=
  match json_loads w json_data with
  | None =>
      emit (EvOnError
              (PStr ("Connection failed: " ++ str_of_int resp_code
                       ++ " [no error message]")))
  | Some data =>
      present <-
        (if truthy data then
           match has_key "message" data with
           | Some b => ret b
           | None => raise (StdException (not_iterable_error data))
           end
         else ret false) ;;
      if present : bool then
        match get_item "message" data with
        | Some v => emit (EvOnError v)
        | None =>
            raise (StdException (get_item_error "message" data))
        end
      else emit (EvOnError (PStr "Hash not found"))
  end.

Definition is_chunked (te : option string) : bool :=
  match te with
  | Some v => contains "chunked" v
  | None => false
  end.

(** the body of the outer [try] *)
Definition attempt (fuel : nat) : M ctl :=
  k <- gets opens ;;
  modify next_open ;;
  emit EvConnecting ;;
  match urlopen w k with
  | URLError msg =>
      emit (EvOnError (PStr ("Connection failed: " ++ msg))) ;;
      ret Break
  | OpenRaises msg => raise (StdException msg)
  | Response resp_code te raw =>
      (if is_chunked te then modify (set_chunked true) else ret tt) ;;
      (if resp_code =? 200 then modify (set_sock (Some raw)) else ret tt) ;;
      if resp_code =? 200 then
        modify (set_delay 0) ;;
        emit EvOnConnect ;;
        modify (set_has_connected true) ;;
        _read_stream fuel ;;
        ret Next
      else if (400 <=? resp_code) && (resp_code <? 500)
              && negb (resp_code =? 420) then
        json_data <- error_payload fuel "init" ;;
        report_error_payload resp_code json_data ;;
        ret Break
      else
        raise (ExponentialBackoffError
                 ("Received " ++ str_of_int resp_code ++ " response"))
  end.

(** [except ExponentialBackoffError, e:] *)
Definition on_exponential (e : exn) : M ctl :=
  d <- gets connection_delay ;;
  if d =? 0 then
    modify (set_delay 10) ;;
    emit (EvOnWarning (str e ++ ", retrying in " ++ str_of_int 10
                         ++ " seconds")) ;;
    ret Next
  else if d <? 320 then
    modify (set_delay (d * 2)) ;;
    emit (EvOnWarning (str e ++ ", retrying in " ++ str_of_int (d * 2)
                         ++ " seconds")) ;;
    ret Next
  else
    emit (EvOnError (PStr (str e ++ ", no more retries"))) ;;
    ret Break.

(** [except Exception, e:] *)
Definition on_exception (e : exn) : M ctl :=
  d <- gets connection_delay ;;
  if d <? 16 then
    modify (set_delay (d + 1)) ;;
    emit (EvOnWarning ("Connection failed (" ++ str e ++ "), retrying in "
                         ++ str_of_int (d + 1) ++ " seconds")) ;;
    ret Next
  else
    emit (EvOnError (PStr ("Connection failed (" ++ str e
                             ++ "), no more retries"))) ;;
    ret Break.

(** the two [except] clauses, tried in order *)
Definition handler (e : exn) : M ctl :=
  match e with
  | ExponentialBackoffError _ => on_exponential e
  | LinearBackoffError _ | StdException _ => on_exception e
  | NonException _ => raise e
  end.

(** one pass through the body of [run]'s [while] *)
Definition iteration (fuel : nat) : M ctl :=
  modify (set_first false) ;;
  d <- gets connection_delay ;;
  (if 0 <? d then emit (EvSleep d) else ret tt) ;;
  catch (attempt fuel) handler.

Fixpoint run_while (fuel : nat) : M unit :=
  go <- run_guard ;;
  if go : bool then
    match fuel with
    | O => diverge
    | S f =>
        c <- iteration f ;;
        match c with
        | Next => run_while f
        | Break => ret tt
        end
    end
  else ret tt.

(** what follows the loop: close the socket, report the disconnect *)
Definition run_exit : M unit :=
  s <- gets _sock ;;
  (match s with
   | Some _ => emit EvSockClose
   | None => ret tt
   end) ;;
  k <- gets polls ;;
  modify (observe (stop_signal w k)) ;;
  stop <- gets _stop_requested ;;
  if stop : bool then ret tt else emit EvOnDisconnect.

Definition run (fuel : nat) : M unit :=
  modify (set_delay 0) ;;
  modify (set_first true) ;;
  run_while fuel ;;
  run_exit.

End Code.

(** The frames handed to the data callback, in order. *)
Definition frames (tr : list event) : list string :=
  flat_map (fun ev => match ev with EvOnData f => [f] | _ => [] end) tr.

(** The arguments of the error callback, in order. *)
Definition errors (tr : list event) : list pyval :=
  flat_map (fun ev => match ev with EvOnError m => [m] | _ => [] end) tr.

(** Number of connection attempts. *)
Definition attempts (tr : list event) : nat :=
  List.length (filter (fun ev => match ev with EvConnecting => true | _ => false end) tr).

End Worker.

(* ------------------------------------------------------------------ *)
(** ** The supervisor: [StreamConsumer_HTTP]                           *)
(* ------------------------------------------------------------------ *)

Module Supervisor.

(** A worker thread object, named by the order of its creation. *)
Definition tid : Type := nat.

(** What the supervisor does to its workers, in order. *)
Inductive event : Type :=
| Spawn (t : tid)                     (* StreamConsumer_HTTP_Thread(self), start() *)
| Observe (t : tid) (connected : bool) (* one read of t._has_connected *)
| Sleep (seconds : Z)
| Stop (t : tid).                     (* t.stop(), i.e. t._stop_requested = True *)

(** The supervisor does not write a worker's [_has_connected]; the worker
    does, while the supervisor polls.  [has_connected t k] is the value
    seen by the k-th read made by the supervisor. *)
Record world : Type := {
  has_connected : tid -> nat -> bool
}.

Record consumer : Type := {
  _hashes : list string;
  _thread : option tid;
  stop_requested : bool;
  (** thread objects created so far, reads of a flag so far, actions *)
  spawned : nat;
  reads : nat;
  trace : list event
}.

(** [StreamConsumer_HTTP.__init__], with the hashes the base class derives
    from the definition. *)
Definition __init__ (hashes : list string) : consumer :=
  {| _hashes := hashes; _thread := None; stop_requested := false;
     spawned := 0; reads := 0; trace := [] |}.

Definition set_hashes (h : list string) (c : consumer) : consumer :=
  {| _hashes := h; _thread := _thread c; stop_requested := stop_requested c;
     spawned := spawned c; reads := reads c; trace := trace c |}.

Definition set_thread (t : option tid) (c : consumer) : consumer :=
  {| _hashes := _hashes c; _thread := t; stop_requested := stop_requested c;
     spawned := spawned c; reads := reads c; trace := trace c |}.

Definition set_stop_requested (b : bool) (c : consumer) : consumer :=
  {| _hashes := _hashes c; _thread := _thread c; stop_requested := b;
     spawned := spawned c; reads := reads c; trace := trace c |}.

Definition log_event (ev : event) (c : consumer) : consumer :=
  {| _hashes := _hashes c; _thread := _thread c;
     stop_requested := stop_requested c;
     spawned := spawned c; reads := reads c; trace := trace c ++ [ev] |}.

(** create and start a thread object *)
Definition spawn (c : consumer) : tid * consumer :=
  (spawned c,
   {| _hashes := _hashes c; _thread := _thread c;
      stop_requested := stop_requested c;
      spawned := S (spawned c); reads := reads c;
      trace := trace c ++ [Spawn (spawned c)] |}).

Definition next_read (c : consumer) : consumer :=
  {| _hashes := _hashes c; _thread := _thread c;
     stop_requested := stop_requested c;
     spawned := spawned c; reads := S (reads c); trace := trace c |}.

Inductive outcome (A : Type) : Type :=
| Ret (a : A)
| Raise (msg : string)
| Diverge.
Arguments Ret {A} a.
Arguments Raise {A} msg.
Arguments Diverge {A}.

(** [hash in self._hashes] *)
Definition mem (hash : string) (l : list string) : bool :=
  existsb (String.eqb hash) l.

(** [l.remove(hash)]: the first occurrence goes; [None] is the
    [ValueError] for an absent element. *)
Fixpoint remove (hash : string) (l : list string) : option (list string) :=
  match l with
  | [] => None
  | x :: r =>
      if String.eqb x hash then Some r
      else option_map (cons x) (remove hash r)
  end.

Section Code.
Variable w : world.

(** [on_start] *)
Definition on_start (c : consumer) : consumer :=
  let '(t, c1) := spawn (set_stop_requested false c) in
  set_thread (Some t) c1.

(** [stop] *)
Definition stop (c : consumer) : consumer := set_stop_requested true c.

(** [while not new_thread._has_connected: time.sleep(1)] *)
Fixpoint restart_thread_while (fuel : nat) (new_thread : tid)
         (c : consumer) : outcome unit * consumer :=
  let seen := has_connected w new_thread (reads c) in
  let c1 := log_event (Observe new_thread seen) (next_read c) in
  if seen then (Ret tt, c1)
  else
    match fuel with
    | O => (Diverge, c1)
    | S f => restart_thread_while f new_thread (log_event (Sleep 1) c1)
    end.

(** [restart_thread] *)
Definition restart_thread (fuel : nat) (c : consumer)
  : outcome unit * consumer :=
  let '(new_thread, c1) := spawn c in
  match restart_thread_while fuel new_thread c1 with
  | (Ret _, c2) =>
      match _thread c2 with
      | None =>
          (Raise "'NoneType' object has no attribute 'stop'", c2)
      | Some old =>
          (Ret tt, set_thread (Some new_thread) (log_event (Stop old) c2))
      end
  | r => r
  end.

(** [add_or_remove_hash] *)
Definition add_or_remove_hash (fuel : nat) (hash : string)
           (is_add force_restart : bool) (c : consumer)
  : outcome bool * consumer :=
  if mem hash (_hashes c) && is_add then (Ret false, c)
  else if negb (mem hash (_hashes c)) && negb is_add then (Ret false, c)
  else
    match (if is_add then Some (_hashes c ++ [hash])%list
           else remove hash (_hashes c)) with
    | None => (Ret false, c)
    | Some h =>
        let c1 := set_hashes h c in
        if force_restart then
          match restart_thread fuel c1 with
          | (Ret _, c2) => (Ret true, c2)
          | (Raise m, c2) => (Raise m, c2)
          | (Diverge, c2) => (Diverge, c2)
          end
        else (Ret true, c1)
    end.

(** [add_hash] and [remove_hash] call [add_or_remove_hash] and drop what
    it returns: they return [None] (here [tt]) whatever happened. *)
Definition add_hash (fuel : nat) (hash : string) (force_restart : bool)
           (c : consumer) : outcome unit * consumer :=
  match add_or_remove_hash fuel hash true force_restart c with
  | (Ret _, c') => (Ret tt, c')
  | (Raise m, c') => (Raise m, c')
  | (Diverge, c') => (Diverge, c')
  end.

Definition remove_hash (fuel : nat) (hash : string) (force_restart : bool)
           (c : consumer) : outcome unit * consumer :=
  match add_or_remove_hash fuel hash false force_restart c with
  | (Ret _, c') => (Ret tt, c')
  | (Raise m, c') => (Raise m, c')
  | (Diverge, c') => (Diverge, c')
  end.

End Code.

End Supervisor.

(* ------------------------------------------------------------------ *)
(** ** Concrete inputs used by the examples below                      *)
(* ------------------------------------------------------------------ *)

Module Scenarios.
Import Py Worker.

Definition nl : string := String LF "".
Definition crlf : string := String CR (String LF "").
Definition dq : string := String DQ "".

(** ["5\r\nHELLO\r\n0\r\n\r\n"] *)
Definition hello_chunked : string :=
  "5" ++ crlf ++ "HELLO" ++ crlf ++ "0" ++ crlf ++ crlf.

(** the error document [{"message":"Unknown hash"}] *)
Definition unknown_hash_body : string :=
  "{" ++ dq ++ "message" ++ dq ++ ":" ++ dq ++ "Unknown hash" ++ dq ++ "}".

(** A [json.loads] that knows the one document above. *)
Definition loads_unknown_hash (s : string) : option pyval :=
  if String.eqb s unknown_hash_body
  then Some (PDict [("message", PStr "Unknown hash")])
  else None.

(** A consumer that keeps running, is never stopped, whose data callback
    returns normally, and whose every connection gets the same answer. *)
Definition steady (answer : open_result) : world :=
  {| is_running := fun _ _ => true;
     stop_signal := fun _ => false;
     urlopen := fun _ => answer;
     on_data := fun _ => None;
     json_loads := loads_unknown_hash |}.

(** First a connection attempt that times out, then 503 answers; the
    consumer is running for the first two checks and then not any more. *)
Definition timeout_then_503 : world :=
  {| is_running := fun _ k => Nat.ltb k 2;
     stop_signal := fun _ => false;
     urlopen := fun k => match k with
                         | O => OpenRaises "timed out"
                         | S _ => Response 503 None []
                         end;
     on_data := fun _ => None;
     json_loads := loads_unknown_hash |}.

(** Two lines arrive on a 200 connection, and the data callback raises on
    the second. *)
Definition callback_raises_on_B : world :=
  {| is_running := fun _ _ => true;
     stop_signal := fun _ => false;
     urlopen := fun _ => Response 200 None [Recv ("A" ++ nl ++ "B" ++ nl)];
     on_data := fun frame => if String.eqb frame "B"
                             then Some (StdException "boom") else None;
     json_loads := loads_unknown_hash |}.

(** A 200 connection delivers two lines and the data callback raises on
    the first, so the second stays in the buffer; every later attempt is
    answered 404. *)
Definition leftover_then_404 (second_line : string) : world :=
  {| is_running := fun _ _ => true;
     stop_signal := fun _ => false;
     urlopen := fun k =>
                  match k with
                  | O => Response 200 None
                           [Recv ("first" ++ nl ++ second_line ++ nl)]
                  | S _ => Response 404 None []
                  end;
     on_data := fun frame => if String.eqb frame "first"
                             then Some (StdException "boom") else None;
     json_loads := loads_unknown_hash |}.

(** A first connection breaks in the middle of a line; the second
    delivers the rest of it; the consumer stops after that. *)
Definition broken_line_resumed : world :=
  {| is_running := fun _ k => Nat.ltb k 4;
     stop_signal := fun _ => false;
     urlopen := fun k =>
                  match k with
                  | O => Response 200 None
                           [Recv "par"; RecvError "connection reset"]
                  | S _ => Response 200 None [Recv ("tial" ++ nl)]
                  end;
     on_data := fun _ => None;
     json_loads := loads_unknown_hash |}.

End Scenarios.

(* ------------------------------------------------------------------ *)
(** ** Vocabulary for the statements about the worker                  *)
(* ------------------------------------------------------------------ *)

Module Terms.
Import Py Worker.

(** Status codes that reach the final [else] of [run]: neither 200 nor a
    4xx other than 420. *)
Definition client_error (c : Z) : bool :=
  (400 <=? c) && (c <? 500) && negb (c =? 420).

Definition exponential (c : Z) : bool :=
  negb (c =? 200) && negb (client_error c).

(** Exceptions caught by [except Exception] and by no clause before it. *)
Definition ordinary (e : exn) : bool :=
  match e with
  | LinearBackoffError _ | StdException _ => true
  | ExponentialBackoffError _ | NonException _ => false
  end.

(** An outcome of [urlopen] that is not a response with status 200. *)
Definition not_connected (r : open_result) : bool :=
  match r with
  | Response c _ _ => negb (c =? 200)
  | URLError _ | OpenRaises _ => true
  end.

(** The condition of [run]'s [while] holds at [t]. *)
Definition guard_open (w : world) (t : thread) : Prop :=
  first_connection t || _auto_reconnect t = true
  /\ is_running w true (polls t) = true
  /\ stop_signal w (polls t) = false
  /\ _stop_requested t = false.

(** The thread after the loop condition held and the iteration slept its
    delay: where the [try] block starts. *)
Definition entered (t : thread) : thread :=
  let t1 := set_first false (observe false t) in
  if 0 <? connection_delay t
  then log_event (EvSleep (connection_delay t)) t1
  else t1.

(** ... after [urlopen] was called *)
Definition opened (t : thread) : thread :=
  log_event EvConnecting (next_open t).

(** ... after the response headers were inspected *)
Definition flagged (te : option string) (t : thread) : thread :=
  if is_chunked te then set_chunked true t else t.

(** ... in the 200 branch, where [_read_stream] starts *)
Definition streaming (te : option string) (raw : socket) (t : thread)
  : thread :=
  set_has_connected true
    (log_event EvOnConnect
       (set_delay 0 (set_sock (Some raw) (flagged te (opened t))))).

(** The messages built by the two [except] clauses. *)
Definition received (c : Z) : string :=
  "Received " ++ str_of_int c ++ " response".

Definition exponential_warning (c d : Z) : string :=
  received c ++ ", retrying in " ++ str_of_int d ++ " seconds".

Definition exponential_fatal (c : Z) : string :=
  received c ++ ", no more retries".

Definition linear_warning (m : string) (d : Z) : string :=
  "Connection failed (" ++ m ++ "), retrying in " ++ str_of_int d
    ++ " seconds".

Definition linear_fatal (m : string) : string :=
  "Connection failed (" ++ m ++ "), no more retries".

(** The thread after the [except Exception] clause has caught [e] with
    the delay below 16: the delay is one more and a warning names it. *)
Definition retried (e : exn) (t : thread) : thread :=
  log_event
    (EvOnWarning (linear_warning (str e) (connection_delay t + 1)))
    (set_delay (connection_delay t + 1) t).

(** A run of consecutive linear failures that goes on.  An attempt has
    raised [e] and left the thread [t1]; [linear_run w f e t1 rest] says
    that the failures of [rest] follow: from the thread the handler
    leaves, the loop condition holds, the next attempt does not connect
    (a connection resets the delay and starts another run) and raises an
    ordinary exception, the first of [rest], leaving the thread listed
    with it; and so on.  [f] is the fuel left after the last of them. *)
Fixpoint linear_run (w : world) (f : nat) (e : exn) (t1 : thread)
         (rest : list (exn * thread)) : Prop :=
  match rest with
  | [] => True
  | (e', t1') :: rest' =>
      guard_open w (retried e t1)
      /\ not_connected (urlopen w (opens (retried e t1))) = true
      /\ attempt w (List.length rest' + f) (entered (retried e t1))
         = (Raise e', t1')
      /\ ordinary e' = true
      /\ linear_run w f e' t1' rest'
  end.

(** How the loop goes on from an attempt that raised [e] and left the
    thread [t1], in the [except Exception] clause. *)
Definition goes_on (w : world) (f : nat) (e : exn) (t1 : thread)
  : outcome unit * thread :=
  if connection_delay t1 <? 16 then run_while w f (retried e t1)
  else (Ret tt, log_event (EvOnError (PStr (linear_fatal (str e)))) t1).

(** What the 4xx branch reports for an error payload that is not JSON or
    is a JSON object. *)
Definition error_report (w : world) (c : Z) (payload : string) : pyval :=
  match json_loads w payload with
  | Some (PDict kv) =>
      match lookup "message" kv with
      | Some v => v
      | None => PStr "Hash not found"
      end
  | _ => PStr ("Connection failed: " ++ str_of_int c ++ " [no error message]")
  end.

(** The [sleep] at the head of an iteration, as trace events. *)
Definition slept (d : Z) : list event :=
  if 0 <? d then [EvSleep d] else [].

(** The delay in force before the k-th consecutive exponential failure. *)
Definition exponential_delay (k : nat) : Z :=
  nth k [0; 10; 20; 40; 80; 160; 320] 0.

(** A property of the thread that a program never destroys. *)
Definition preserves {A} (P : thread -> Prop) (m : M A) : Prop :=
  forall t, P t -> P (snd (m t)).

(** Properties that do not depend on the buffer or on the socket ... *)
Definition read_stable (P : thread -> Prop) : Prop :=
  (forall t b, P t -> P (set_buffer b t))
  /\ (forall t s, P t -> P (set_sock s t)).

(** ... nor on the poll counter, the stop flag or the trace ... *)
Definition stream_stable (P : thread -> Prop) : Prop :=
  read_stable P
  /\ (forall t b, P t -> P (observe b t))
  /\ (forall t ev, P t -> P (log_event ev t)).

(** ... nor on anything else that [run] writes, the chunked flag being
    only ever set. *)
Definition run_stable (P : thread -> Prop) : Prop :=
  stream_stable P
  /\ (forall t, P t -> P (set_chunked true t))
  /\ (forall t b, P t -> P (set_has_connected b t))
  /\ (forall t d, P t -> P (set_delay d t))
  /\ (forall t b, P t -> P (set_first b t))
  /\ (forall t, P t -> P (next_open t)).

(** A program out of which no exception of class [Exception] comes. *)
Definition contains_exceptions {A} (m : M A) : Prop :=
  forall t e t', m t = (Raise e, t') -> exists msg, e = NonException msg.

End Terms.

(* ------------------------------------------------------------------ *)
(** ** The supervisor's driving loop: [join_thread], [run_forever]     *)
(* ------------------------------------------------------------------ *)

Module Driver.
Import Supervisor.

(** What the loop cannot decide by itself: whether the current worker is
    still alive when asked for the k-th time, and whether someone (another
    thread, a callback) has called [stop()] by the k-th evaluation of the
    loop condition. *)
Record world : Type := {
  is_alive : tid -> nat -> bool;
  stop_called : nat -> bool
}.

Record driver : Type := {
  consumer_of : consumer;
  (** turns of the loop so far, and the [join] calls made *)
  rounds : nat;
  joins : list (tid * Z)
}.

Definition start (c : consumer) : driver :=
  {| consumer_of := c; rounds := 0; joins := [] |}.

Section Code.
Variable w : world.

(** [join_thread(timeout)] *)
Definition join_thread (timeout : Z) (d : driver) : bool * driver :=
  match _thread (consumer_of d) with
  | None => (false, d)
  | Some t =>
      if negb (is_alive w t (rounds d)) then (false, d)
      else
        (true,
         {| consumer_of := consumer_of d;
            rounds := rounds d;
            joins := (joins d ++ [(t, timeout)])%list |})
  end.

(** One evaluation of [not self.stop_requested]: a [stop()] that has
    been called is now in the flag, where it stays. *)
Definition look (d : driver) : driver :=
  {| consumer_of :=
       set_stop_requested
         (stop_requested (consumer_of d) || stop_called w (rounds d))
         (consumer_of d);
     rounds := rounds d;
     joins := joins d |}.

Definition next_round (d : driver) : driver :=
  {| consumer_of := consumer_of d;
     rounds := S (rounds d);
     joins := joins d |}.

(** [run_forever]; the [try: pass] of its body does nothing. *)
Fixpoint run_forever (fuel : nat) (d : driver) : outcome unit * driver :=
  let d1 := look d in
  if stop_requested (consumer_of d1) then (Ret tt, d1)
  else
    let '(alive, d2) := join_thread 1 d1 in
    if negb alive then (Ret tt, d2)
    else
      match fuel with
      | O => (Diverge, d2)
      | S f => run_forever f (next_round d2)
      end.

End Code.

End Driver.

(* ------------------------------------------------------------------ *)
(** ** What the worker writes                                          *)
(* ------------------------------------------------------------------ *)

Module Effects.
Import Py Worker.

Definition is_sleep (ev : event) : bool :=
  match ev with EvSleep _ => true | _ => false end.

(** The single writes that the worker's code performs on its state; [E]
    tells which calls may be recorded.  A flag is only ever set; the
    delay is reset, incremented below 16, set to 10 from 0, or doubled
    below 320; the buffer gets received bytes (minus carriage returns) at
    its end, or loses a prefix; a sleep lasts the current delay. *)
Inductive write (E : event -> Prop) : thread -> thread -> Prop :=
| wr_sock t s : write E t (set_sock s t)
| wr_append t data :
    write E t (set_buffer (_buffer t ++ strip_cr data) t)
| wr_take t pos :
    write E t (set_buffer (slice_from (_buffer t) pos) t)
| wr_observe t b : write E t (observe b t)
| wr_log t ev :
    E ev -> is_sleep ev = false -> write E t (log_event ev t)
| wr_sleep t :
    0 < connection_delay t -> E (EvSleep (connection_delay t)) ->
    write E t (log_event (EvSleep (connection_delay t)) t)
| wr_chunked t : write E t (set_chunked true t)
| wr_connected t :
    In EvOnConnect (trace t) -> write E t (set_has_connected true t)
| wr_delay_reset t : write E t (set_delay 0 t)
| wr_delay_linear t :
    connection_delay t < 16 ->
    write E t (set_delay (connection_delay t + 1) t)
| wr_delay_first t :
    connection_delay t = 0 -> write E t (set_delay 10 t)
| wr_delay_double t :
    connection_delay t <> 0 -> connection_delay t < 320 ->
    write E t (set_delay (connection_delay t * 2) t)
| wr_first t : write E t (set_first false t)
| wr_open t : write E t (next_open t).

(** Any number of them, one after the other. *)
Inductive writes (E : event -> Prop) : thread -> thread -> Prop :=
| ws_refl t : writes E t t
| ws_step t1 t2 t3 : writes E t1 t2 -> write E t2 t3 -> writes E t1 t3.

(** A program that does nothing to the thread but such writes. *)
Definition confined {A} (E : event -> Prop) (m : M A) : Prop :=
  forall t, writes E t (snd (m t)).

(** Classes of recorded calls. *)
Definition reports (ev : event) : Prop :=
  match ev with
  | EvOnConnect | EvOnData _ | EvOnWarning _ | EvOnError _ => True
  | _ => False
  end.

(** The reports other than data frames. *)
Definition notices (ev : event) : Prop :=
  match ev with
  | EvOnConnect | EvOnWarning _ | EvOnError _ => True
  | _ => False
  end.

Definition loop_events (ev : event) : Prop :=
  match ev with
  | EvOnDisconnect | EvSockClose => False
  | _ => True
  end.

(** The delays that can be reached from zero: [k * 2^j] with [k <= 16],
    up to 576. *)
Definition delay_values : list Z :=
  filter (fun d => d <=? 576)
    (flat_map
       (fun k => map (fun j => Z.of_nat k * 2 ^ Z.of_nat j) (seq 0 10))
       (seq 0 17)).

Definition sleep_in_bounds (ev : event) : Prop :=
  match ev with
  | EvSleep d => 0 < d <= 576
  | _ => True
  end.

Definition any_event (ev : event) : Prop := True.

(** What the three assignments to [connection_delay] in the handlers
    need of a value [d] of the delay, for a list [L] of values: [d + 1]
    below 16, 10 from 0, and [d * 2] below 320 stay in [L]. *)
Definition delay_closed (L : list Z) (d : Z) : bool :=
  (0 <=? d) && (d <=? 576)
  && existsb (Z.eqb 0) L
  && (negb (d <? 16) || existsb (Z.eqb (d + 1)) L)
  && existsb (Z.eqb 10) L
  && ((d =? 0) || negb (d <? 320) || existsb (Z.eqb (d * 2)) L).

(** What a socket delivers when nothing arrives: [select] timing out,
    or [recv] returning the empty string (the peer has closed). *)
Definition quiet (ev : sock_event) : bool :=
  match ev with
  | SelTimeout => true
  | Recv data => negb (0 <? len data)
  | SelError | RecvError _ => false
  end.

(** A string without carriage return, and a recorded call whose frame
    (if it is a call of the data callback) has none. *)
Definition cr_free (s : string) : Prop :=
  ~ In CR (list_ascii_of_string s).

Definition frame_cr_free (ev : event) : Prop :=
  match ev with
  | EvOnData frame => cr_free frame
  | _ => True
  end.

(** How many times [_on_disconnect] was called. *)
Definition disconnects (tr : list event) : nat :=
  List.length
    (filter (fun ev => match ev with EvOnDisconnect => true | _ => false end)
       tr).

End Effects.

(* ------------------------------------------------------------------ *)
(** ** More concrete inputs                                            *)
(* ------------------------------------------------------------------ *)

Module MoreScenarios.
Import Py Worker Terms Scenarios.

(** A replacement thread that never gets connected. *)
Definition never_connects : Supervisor.world :=
  {| Supervisor.has_connected := fun _ _ => false |}.

(** A replacement thread that is connected at the third look. *)
Definition connects_late : Supervisor.world :=
  {| Supervisor.has_connected := fun _ k => Nat.leb 2 k |}.

(** A worker that is found dead at the fourth look; nobody calls
    [stop()]. *)
Definition dies_at_fourth_look : Driver.world :=
  {| Driver.is_alive := fun _ k => Nat.ltb k 3;
     Driver.stop_called := fun _ => false |}.

(** Nine attempts that time out, then 503 answers for ever. *)
Definition nine_timeouts_then_503 : world :=
  {| is_running := fun _ _ => true;
     stop_signal := fun _ => false;
     urlopen := fun k => if Nat.ltb k 9 then OpenRaises "timed out"
                         else Response 503 None [];
     on_data := fun _ => None;
     json_loads := fun _ => None |}.

(** The supervisor's [stop()] lands right after the connection is made. *)
Definition stopped_after_connect : world :=
  {| is_running := fun _ _ => true;
     stop_signal := fun k => Nat.leb 1 k;
     urlopen := fun _ => Response 200 None [Recv ("A" ++ nl)];
     on_data := fun _ => None;
     json_loads := fun _ => None |}.

(** A connection that breaks while streaming, and then sixteen attempts
    that time out. *)
Definition drop_then_timeouts : world :=
  {| is_running := fun _ _ => true;
     stop_signal := fun _ => false;
     urlopen := fun k => match k with
                         | O => Response 200 None [RecvError "reset"]
                         | _ => OpenRaises "timed out"
                         end;
     on_data := fun _ => None;
     json_loads := fun _ => None |}.

(** The failures of the [n] attempts that follow the failure [e], which
    left the thread [t1], as long as they are failures. *)
Fixpoint failures (w : world) (f n : nat) (e : exn) (t1 : thread)
  : list (exn * thread) :=
  match n with
  | O => []
  | S n' =>
      match attempt w (n' + f) (entered (retried e t1)) with
      | (Raise e', t1') => (e', t1') :: failures w f n' e' t1'
      | _ => []
      end
  end.

(** A connection on which the peer sends half a line and closes. *)
Definition peer_closes_mid_line : world :=
  {| is_running := fun _ _ => true;
     stop_signal := fun k => Nat.leb 2 k;
     urlopen := fun _ => Response 200 None [Recv "half"; Recv ""];
     on_data := fun _ => None;
     json_loads := fun _ => None |}.

End MoreScenarios.

(* ------------------------------------------------------------------ *)
(** ** Properties of the supervisor                                    *)
(* ------------------------------------------------------------------ *)

Module SupervisorFacts.
Import Supervisor.
Local Open Scope list_scope.

Lemma mem_In (hash : string) (l : list string) :
  mem hash l = true <-> In hash l.
Proof.
  unfold mem. rewrite existsb_exists. split.
  - intros (x & Hx & E). apply String.eqb_eq in E. now subst.
  - intros H. exists hash. split; [assumption | apply String.eqb_refl].
Qed.

Lemma not_mem_In (hash : string) (l : list string) :
  mem hash l = false <-> ~ In hash l.
Proof.
  rewrite <- mem_In. destruct (mem hash l); split; congruence.
Qed.

(** A list that ends with the only element of its kind can be cut at that
    element in one way only. *)
Lemma cut_at_last {A} (P : A -> Prop) (l pre post : list A) (x y : A) :
  (forall z, In z l -> ~ P z) -> P y ->
  l ++ [x] = pre ++ y :: post ->
  pre = l /\ post = [] /\ x = y.
Proof.
  revert pre. induction l as [| a l IH]; intros pre Hl Py E.
  - destruct pre as [| b pre]; simpl in E.
    + inversion E. auto.
    + inversion E as [[E1 E2]]. destruct pre; discriminate.
  - destruct pre as [| b pre]; simpl in E.
    + inversion E as [[E1 E2]]. subst. exfalso. apply (Hl y); simpl; auto.
    + inversion E as [[E1 E2]]. subst.
      destruct (IH pre) as (-> & -> & ->); auto.
      intros z Hz. apply Hl. now right.
Qed.

Lemma no_cut {A} (P : A -> Prop) (l pre post : list A) (y : A) :
  (forall z, In z l -> ~ P z) -> P y -> l <> pre ++ y :: post.
Proof.
  intros Hl Py E. apply (Hl y); [| assumption].
  rewrite E. apply in_or_app. right. now left.
Qed.

Definition is_stop (ev : event) : Prop :=
  match ev with Stop _ => True | _ => False end.

Section Restart.
Variable w : world.

(** What the polling loop does: it only observes and sleeps, and it
    returns only on an observation of [True]. *)
Lemma restart_thread_while_spec (fuel : nat) (nt : tid) (c : consumer) :
  exists evs,
    trace (snd (restart_thread_while w fuel nt c)) = (trace c ++ evs)%list
    /\ (forall z, In z evs -> ~ is_stop z)
    /\ (forall u, fst (restart_thread_while w fuel nt c) = Ret u ->
        In (Observe nt true) evs)
    /\ _thread (snd (restart_thread_while w fuel nt c)) = _thread c
    /\ _hashes (snd (restart_thread_while w fuel nt c)) = _hashes c.
Proof.
  revert c. induction fuel as [| f IH]; intros c; simpl;
    destruct (has_connected w nt (reads c)) eqn:E; simpl.
  - exists [Observe nt true]. repeat split; auto.
    + intros z [<- | []]. exact id.
    + intros _ _. now left.
  - exists [Observe nt false]. repeat split; auto.
    + intros z [<- | []]. exact id.
    + discriminate.
  - exists [Observe nt true]. repeat split; auto.
    + intros z [<- | []]. exact id.
    + intros _ _. now left.
  - destruct (IH (log_event (Sleep 1)
                    (log_event (Observe nt false) (next_read c))))
      as (evs & Ht & Hns & Hret & Hth & Hh).
    exists (Observe nt false :: Sleep 1 :: evs). repeat split.
    + rewrite Ht. simpl. rewrite <- !app_assoc. reflexivity.
    + intros z [<- | [<- | Hz]]; [exact id | exact id | now apply Hns].
    + intros u Hu. right. right. now apply (Hret u).
    + rewrite Hth. reflexivity.
    + rewrite Hh. reflexivity.
Qed.

(** The polling loop ends as soon as the flag is seen set. *)
Lemma restart_thread_while_returns (k fuel : nat) (nt : tid)
      (c : consumer) :
  has_connected w nt (reads c + k) = true ->
  fst (restart_thread_while w (k + fuel) nt c) = Ret tt.
Proof.
  revert c. induction k as [| k IH]; intros c Hk; simpl.
  - rewrite Nat.add_0_r in Hk. destruct fuel; simpl; now rewrite Hk.
  - destruct (has_connected w nt (reads c)); [reflexivity |].
    apply IH. simpl. now rewrite <- Nat.add_succ_comm in Hk.
Qed.

(** [restart_thread] returns, having stopped the old thread and swapped
    the new one in, whenever the new thread does connect. *)
Lemma restart_thread_completes (k fuel : nat) (c : consumer) (old : tid) :
  _thread c = Some old ->
  has_connected w (spawned c) (reads c + k) = true ->
  exists c',
    restart_thread w (k + fuel) c = (Ret tt, c')
    /\ _thread c' = Some (spawned c)
    /\ In (Stop old) (trace c').
Proof.
  intros Hold Hk. unfold restart_thread. simpl.
  pose proof (restart_thread_while_returns k fuel (spawned c)
                (snd (spawn c)) Hk) as Hr.
  destruct (restart_thread_while_spec (k + fuel) (spawned c) (snd (spawn c)))
    as (evs & _ & _ & _ & Hth & _).
  simpl in Hr, Hth.
  destruct (restart_thread_while w (k + fuel) (spawned c) _) as [r c2].
  simpl in Hr, Hth. subst r. rewrite Hth, Hold.
  eexists. split; [reflexivity |]. split; [reflexivity |].
  simpl. apply in_or_app. right. now left.
Qed.

(** C1.  Whatever the new thread does and however long the supervisor
    polls, a stop signal issued by [restart_thread] comes after an
    observation of the new thread's [_has_connected] being true: the
    actions of [restart_thread] up to the stop signal start with the
    spawn of the new thread and contain that observation; the thread
    stopped is the old one, and nothing follows the stop signal. *)
Theorem restart_thread_stop_after_connected
        (fuel : nat) (c : consumer)
        (pre post : list event) (old : tid) :
  trace (snd (restart_thread w fuel c))
    = (trace c ++ pre ++ Stop old :: post)%list ->
  In (Observe (spawned c) true) pre
  /\ nth_error pre 0 = Some (Spawn (spawned c))
  /\ (forall t, ~ In (Stop t) pre)
  /\ _thread c = Some old
  /\ post = [].
Proof.
  unfold restart_thread. simpl.
  destruct (restart_thread_while_spec fuel (spawned c) (snd (spawn c)))
    as (evs & Ht & Hns & Hret & Hth & _).
  simpl in Ht, Hret, Hth.
  destruct (restart_thread_while w fuel (spawned c) _) as [r c2].
  simpl in Ht, Hret, Hth.
  assert (Hpre : forall z, In z (Spawn (spawned c) :: evs) -> ~ is_stop z).
  { intros z [<- | Hz]; [exact id | now apply Hns]. }
  destruct r as [u | m |]; [destruct (_thread c2) as [o |] eqn:Eo | |];
    simpl; rewrite ?Ht, <- ?app_assoc; intros E;
    apply app_inv_head in E; simpl in E.
  - change (Spawn (spawned c) :: (evs ++ [Stop o])%list)
      with ((Spawn (spawned c) :: evs) ++ [Stop o])%list in E.
    destruct (cut_at_last is_stop _ pre post (Stop o) (Stop old) Hpre I E)
      as (-> & -> & Eq).
    inversion Eq; subst o. repeat split.
    + right. now apply (Hret u).
    + intros t Hin. now apply (Hpre (Stop t)).
    + now rewrite <- Hth.
  - exfalso. exact (no_cut is_stop _ pre post (Stop old) Hpre I E).
  - exfalso. exact (no_cut is_stop _ pre post (Stop old) Hpre I E).
  - exfalso. exact (no_cut is_stop _ pre post (Stop old) Hpre I E).
Qed.

(** C8.  Adding a hash that is already tracked, and removing one that is
    not, return [False] and leave the consumer as it was: same hashes,
    same thread, no action taken (so no restart), whatever
    [force_restart] is.  The wrappers [add_hash] and [remove_hash]
    leave it unchanged as well and return [None]. *)
Theorem add_present_remove_absent_noop
        (fuel : nat) (hash : string) (force_restart : bool)
        (c : consumer) :
  (In hash (_hashes c) ->
   add_or_remove_hash w fuel hash true force_restart c = (Ret false, c)
   /\ add_hash w fuel hash force_restart c = (Ret tt, c))
  /\
  (~ In hash (_hashes c) ->
   add_or_remove_hash w fuel hash false force_restart c = (Ret false, c)
   /\ remove_hash w fuel hash force_restart c = (Ret tt, c)).
Proof.
  split.
  - intros H. apply mem_In in H.
    unfold add_hash, add_or_remove_hash. rewrite H. simpl. auto.
  - intros H. apply not_mem_In in H.
    unfold remove_hash, add_or_remove_hash. rewrite H. simpl. auto.
Qed.

End Restart.

(** An instance of C1: the new thread is seen connected at the third
    look. *)
Definition connects_at_third_look : world :=
  {| has_connected := fun _ k => Nat.leb 2 k |}.

Lemma restart_thread_stop_after_connected_witness :
  let c := on_start (__init__ ["a"]) in
  In (Observe 1%nat true)
     [Spawn 1%nat; Observe 1%nat false; Sleep 1; Observe 1%nat false;
      Sleep 1; Observe 1%nat true]
  /\ _thread c = Some 0%nat.
Proof.
  intros c.
  destruct (restart_thread_stop_after_connected connects_at_third_look
              5 c
              [Spawn 1%nat; Observe 1%nat false; Sleep 1;
               Observe 1%nat false; Sleep 1; Observe 1%nat true]
              [] 0%nat)
    as (H1 & _ & _ & H4 & _).
  - reflexivity.
  - split; assumption.
Defined.

Lemma add_present_remove_absent_noop_witness :
  let c := on_start (__init__ ["a"]) in
  add_or_remove_hash connects_at_third_look 5 "a" true true c = (Ret false, c)
  /\ add_or_remove_hash connects_at_third_look 5 "b" false true c
     = (Ret false, c).
Proof.
  intros c.
  destruct (add_present_remove_absent_noop connects_at_third_look
              5 "a" true c) as (Ha & _).
  destruct (add_present_remove_absent_noop connects_at_third_look
              5 "b" true c) as (_ & Hb).
  split.
  - apply Ha. simpl. auto.
  - apply Hb. simpl. intros [H | []]. discriminate.
Defined.

End SupervisorFacts.

(* ------------------------------------------------------------------ *)
(** ** Properties of the chunk decoder                                 *)
(* ------------------------------------------------------------------ *)

Module DecoderFacts.
Import Py Worker Scenarios.

Lemma length_take (n : nat) (s : string) :
  (n <= String.length s)%nat -> String.length (take n s) = n.
Proof.
  revert s. induction n as [| n IH]; intros [| a s] H; simpl in *;
    try reflexivity; try lia.
  rewrite IH; [reflexivity | lia].
Qed.

Lemma take_drop (n : nat) (s : string) : take n s ++ drop n s = s.
Proof.
  revert s. induction n as [| n IH]; intros [| a s]; simpl;
    try reflexivity.
  now rewrite IH.
Qed.

Lemma append_empty (s : string) : s ++ "" = s.
Proof. induction s as [| a s IH]; simpl; [reflexivity | now rewrite IH]. Qed.

Lemma length_drop (n : nat) (s : string) :
  String.length (drop n s) = (String.length s - n)%nat.
Proof.
  revert s. induction n as [| n IH]; intros [| a s]; simpl;
    try reflexivity; try lia.
  apply IH.
Qed.

Lemma drop_drop (n m : nat) (s : string) :
  drop m (drop n s) = drop (n + m) s.
Proof.
  revert s. induction n as [| n IH]; intros s; simpl.
  - reflexivity.
  - destruct s as [| a s]; [now destruct m | apply IH].
Qed.

Lemma drop_all (n : nat) (s : string) :
  (String.length s <= n)%nat -> drop n s = "".
Proof.
  revert s. induction n as [| n IH]; intros [| a s] H; simpl in *;
    try reflexivity; try lia.
  apply IH. lia.
Qed.

Lemma clamp_inside (s : string) (i : Z) :
  0 <= i <= len s -> clamp s i = Z.to_nat i.
Proof.
  intros H. unfold clamp.
  destruct (Z.ltb_spec i 0); [lia |]. f_equal. lia.
Qed.

Lemma slice_prefix (s : string) (n : Z) :
  0 <= n <= len s -> slice s 0 n = take (Z.to_nat n) s.
Proof.
  intros H. unfold slice.
  rewrite (clamp_inside s 0), (clamp_inside s n) by (unfold len in *; lia).
  simpl. now rewrite Nat.sub_0_r.
Qed.

Lemma slice_from_next (s : string) (n : Z) :
  0 <= n <= len s ->
  slice_from s (n + 1) = drop 1 (drop (Z.to_nat n) s).
Proof.
  intros H. unfold slice_from, clamp. rewrite drop_drop.
  destruct (Z.ltb_spec (n + 1) 0); [lia |].
  destruct (Z.le_gt_cases (n + 1) (len s)).
  - f_equal. lia.
  - rewrite !drop_all; unfold len in *; [reflexivity | lia | lia].
Qed.

Section Decoder.

(** The [while] of [_raw_read_chunk] stops only on a buffer that is long
    enough, and does not start on one that is. *)
Lemma raw_read_chunk_while_exit (n : Z) (fuel : nat) :
  forall t t1,
    0 < n ->
    _raw_read_chunk_while fuel n t = (Ret tt, t1) ->
    n <= len (_buffer t1).
Proof.
  induction fuel as [| f IH]; intros t t1 Hn H; simpl in H;
    unfold need_more in H;
    destruct (Z.eqb_spec n 0); try lia;
    destruct (Z.ltb_spec 0 n); try lia;
    destruct (Z.ltb_spec (len (_buffer t)) n); simpl in H;
    try discriminate;
    try (inversion H; subst; assumption).
  unfold bind in H.
  destruct (_raw_read t) as [[u | e |] t0]; try discriminate.
  exact (IH _ _ Hn H).
Qed.

Lemma raw_read_chunk_while_skipped (n : Z) (fuel : nat) (t : thread) :
  0 < n -> n <= len (_buffer t) ->
  _raw_read_chunk_while fuel n t = (Ret tt, t).
Proof.
  intros Hn Hlen.
  destruct fuel; simpl; unfold need_more;
    destruct (Z.eqb_spec n 0); try lia;
    destruct (Z.ltb_spec 0 n); try lia;
    destruct (Z.ltb_spec (len (_buffer t)) n); try lia;
    reflexivity.
Qed.

(** C6, as the code has it.  For [n > 0], once the buffer holds at least
    [n] bytes (at once when it already does, otherwise when the reading
    loop has made it so), [_raw_read_chunk(n)] returns the first [n]
    bytes of the buffer and takes out of the buffer those [n] bytes
    together with the one byte that follows them (when there is one);
    what comes after is left as it was. *)
Theorem raw_read_chunk_takes_payload_and_delimiter
        (fuel : nat) (n : Z) (t t1 : thread) :
  0 < n ->
  (n <= len (_buffer t) -> _raw_read_chunk_while fuel n t = (Ret tt, t))
  /\
  (_raw_read_chunk_while fuel n t = (Ret tt, t1) ->
   n <= len (_buffer t1)
   /\ _raw_read_chunk fuel n t
      = (Ret (take (Z.to_nat n) (_buffer t1)),
         set_buffer (drop 1 (drop (Z.to_nat n) (_buffer t1))) t1)
   /\ String.length (take (Z.to_nat n) (_buffer t1)) = Z.to_nat n
   /\ _buffer t1
      = take (Z.to_nat n) (_buffer t1) ++ drop (Z.to_nat n) (_buffer t1)).
Proof.
  intros Hn. split.
  - intros Hlen. now apply raw_read_chunk_while_skipped.
  - intros Hw.
    pose proof (raw_read_chunk_while_exit n fuel t t1 Hn Hw) as Hlen.
    split; [exact Hlen | split; [| split]].
    + unfold _raw_read_chunk, bind. rewrite Hw.
      destruct (Z.eqb_spec n 0); [lia |].
      rewrite slice_prefix, slice_from_next by lia. reflexivity.
    + apply length_take. unfold len in Hlen. lia.
    + symmetry. apply take_drop.
Qed.

End Decoder.

(** Two instances: after the size line of the chunk ["5\r\nHELLO\r\n..."]
    the buffer holds ["HELLO\n0\n\n"]; and a buffer that holds only
    ["HEL"] is first filled from the socket. *)
Lemma raw_read_chunk_takes_payload_and_delimiter_witness :
  let t := set_buffer ("HELLO" ++ nl ++ "0" ++ nl ++ nl) (__init__ true) in
  let u := set_sock (Some [Recv ("LO" ++ crlf ++ "0" ++ crlf)])
             (set_buffer "HEL" (__init__ true)) in
  _raw_read_chunk 0 5 t = (Ret "HELLO", set_buffer ("0" ++ nl ++ nl) t)
  /\ _raw_read_chunk 1 5 u
     = (Ret "HELLO", set_buffer ("0" ++ nl) (set_sock (Some []) u)).
Proof.
  intros t u. split.
  - destruct (raw_read_chunk_takes_payload_and_delimiter 0 5 t t)
      as (H1 & H2); [lia |].
    destruct H2 as (_ & H & _).
    + apply H1. vm_compute. discriminate.
    + exact H.
  - destruct (raw_read_chunk_takes_payload_and_delimiter 1 5 u
                (set_buffer ("HELLO" ++ nl ++ "0" ++ nl)
                   (set_sock (Some []) u)))
      as (_ & H2); [lia |].
    destruct H2 as (_ & H & _).
    + reflexivity.
    + exact H.
Defined.

(** C6 as the specification words it (exactly [n] bytes leave the buffer)
    fails: asked for 5 bytes of a 9-byte buffer, the read returns 5 bytes
    and leaves 3, not 4; the newline after the payload is gone too. *)
Lemma raw_read_chunk_removes_one_more :
  let t := set_buffer ("HELLO" ++ nl ++ "0" ++ nl ++ nl) (__init__ true) in
  let r := _raw_read_chunk 0 5 t in
  fst r = Ret "HELLO"
  /\ len (_buffer t) = 9
  /\ len (_buffer (snd r)) = 3
  /\ _buffer (snd r) <> drop 5 (_buffer t).
Proof.
  vm_compute. repeat split; discriminate.
Qed.

End DecoderFacts.

(* ------------------------------------------------------------------ *)
(** ** Properties of the worker                                        *)
(* ------------------------------------------------------------------ *)

Module WorkerFacts.
Import Py Worker Scenarios.
Local Open Scope list_scope.

(** *** Running a program one step at a time *)

Lemma bind_ret {A B} (m : M A) (k : A -> M B) (t t' : thread) (a : A) :
  m t = (Ret a, t') -> bind m k t = k a t'.
Proof. intros H. unfold bind. now rewrite H. Qed.

Lemma bind_raise {A B} (m : M A) (k : A -> M B) (t t' : thread) (e : exn) :
  m t = (Raise e, t') -> bind m k t = (Raise e, t').
Proof. intros H. unfold bind. now rewrite H. Qed.

Lemma catch_raise {A} (m : M A) (h : exn -> M A) (t t' : thread) (e : exn) :
  m t = (Raise e, t') -> catch m h t = h e t'.
Proof. intros H. unfold catch. now rewrite H. Qed.

Lemma catch_ret {A} (m : M A) (h : exn -> M A) (t t' : thread) (a : A) :
  m t = (Ret a, t') -> catch m h t = (Ret a, t').
Proof. intros H. unfold catch. now rewrite H. Qed.

Section Stream.
Variable w : world.

Lemma read_stream_S (f : nat) (t : thread) :
  _read_stream w (S f) t
  = (go <- stream_guard w ;;
     if go : bool
     then frame <- _read_chunk f ;; deliver w frame ;; _read_stream w f
     else ret tt) t.
Proof. reflexivity. Qed.

Lemma stream_guard_open (t : thread) :
  is_running w false (polls t) = true ->
  stop_signal w (polls t) = false ->
  _stop_requested t = false ->
  stream_guard w t = (Ret true, observe false t).
Proof.
  intros H1 H2 H3. unfold stream_guard. rewrite H1, H2.
  unfold observe at 1. simpl. now rewrite H3.
Qed.

Lemma deliver_returns (frame : string) (t : thread) :
  on_data w frame = None ->
  deliver w frame t = (Ret tt, log_event (EvOnData frame) t).
Proof. intros H. unfold deliver, bind, emit, modify. simpl. now rewrite H. Qed.

Lemma deliver_raises (frame : string) (e : exn) (t : thread) :
  on_data w frame = Some e ->
  deliver w frame t = (Raise e, log_event (EvOnData frame) t).
Proof. intros H. unfold deliver, bind, emit, modify. simpl. now rewrite H. Qed.

(** One turn of the streaming loop that delivers a frame. *)
Lemma read_stream_delivers (f : nat) (t t' : thread) (frame : string) :
  is_running w false (polls t) = true ->
  stop_signal w (polls t) = false ->
  _stop_requested t = false ->
  _read_chunk f (observe false t) = (Ret frame, t') ->
  on_data w frame = None ->
  _read_stream w (S f) t = _read_stream w f (log_event (EvOnData frame) t').
Proof.
  intros H1 H2 H3 Hc Hd. rewrite read_stream_S.
  rewrite (bind_ret _ _ _ _ _ (stream_guard_open t H1 H2 H3)).
  rewrite (bind_ret _ _ _ _ _ Hc).
  rewrite (bind_ret _ _ _ _ _ (deliver_returns frame t' Hd)).
  reflexivity.
Qed.

(** The first frame of ["5\r\nHELLO\r\n0\r\n\r\n"] on a chunked
    connection. *)
Lemma read_chunk_hello (f : nat) (t : thread) (s : socket) :
  _chunked t = true -> _buffer t = "" ->
  _sock t = Some (Recv hello_chunked :: s) ->
  _read_chunk (S (S f)) t
  = (Ret "HELLO",
     set_buffer ("0" ++ nl ++ nl)%string (set_sock (Some s) t)).
Proof.
  intros Hc Hb Hs.
  destruct t as [au bu so ch hc sr cd fc op po tr]. simpl in *. subst.
  destruct f as [| [| f]]; reflexivity.
Qed.

(** The zero-length chunk that follows: its size line ["0"] sends
    [_raw_read_chunk] to the next newline, and the empty string in front
    of that newline is returned as a frame like any other. *)
Lemma read_chunk_zero_length (f : nat) (t : thread) :
  _chunked t = true -> _buffer t = ("0" ++ nl ++ nl)%string ->
  _read_chunk (S f) t = (Ret "", set_buffer "" t).
Proof.
  intros Hc Hb.
  destruct t as [au bu so ch hc sr cd fc op po tr]. simpl in *. subst.
  destruct f as [| [| f]]; reflexivity.
Qed.

(** C5, as the code has it.  On a connection flagged as chunked, a
    socket that delivers ["5\r\nHELLO\r\n0\r\n\r\n"] makes the streaming
    loop hand ["HELLO"] to the data callback, byte for byte, and then,
    for the zero-length chunk, an empty frame: the zero-length chunk is
    not an end of body, and the loop goes on reading. *)
Theorem chunked_zero_length_chunk_is_an_empty_frame
        (fuel : nat) (t : thread) (s : socket) :
  _chunked t = true ->
  _buffer t = "" ->
  _sock t = Some (Recv hello_chunked :: s) ->
  _stop_requested t = false ->
  (forall k, (k < 2)%nat ->
             is_running w false (polls t + k) = true
             /\ stop_signal w (polls t + k) = false) ->
  on_data w "HELLO" = None ->
  on_data w "" = None ->
  exists t2,
    _read_stream w (3 + fuel) t = _read_stream w (1 + fuel) t2
    /\ trace t2 = trace t ++ [EvOnData "HELLO"; EvOnData ""]
    /\ _buffer t2 = ""
    /\ _sock t2 = Some s
    /\ _chunked t2 = true.
Proof.
  intros Hc Hb Hs Hst Hw Hd1 Hd2.
  destruct (Hw 0%nat) as (Hr0 & Hs0); [lia |].
  destruct (Hw 1%nat) as (Hr1 & Hs1); [lia |].
  rewrite Nat.add_0_r in Hr0, Hs0. rewrite Nat.add_1_r in Hr1, Hs1.
  eexists. split; [| split; [| split; [| split]]].
  - change (3 + fuel)%nat with (S (S (S fuel))).
    rewrite (read_stream_delivers _ t _ "HELLO" Hr0 Hs0 Hst
               (read_chunk_hello fuel (observe false t) s Hc Hb Hs) Hd1).
    erewrite (read_stream_delivers (S fuel) _ _ "");
      [reflexivity | exact Hr1 | exact Hs1 | | | exact Hd2].
    + simpl. rewrite Hst. reflexivity.
    + apply read_chunk_zero_length; [exact Hc | reflexivity].
  - simpl. rewrite <- app_assoc. reflexivity.
  - reflexivity.
  - reflexivity.
  - simpl. exact Hc.
Qed.

End Stream.

(** An instance of C5 as the code has it. *)
Lemma chunked_zero_length_chunk_is_an_empty_frame_witness :
  let w := steady (URLError "") in
  let t := set_chunked true
             (set_sock (Some [Recv hello_chunked]) (__init__ true)) in
  exists t2,
    _read_stream w 3 t = _read_stream w 1 t2
    /\ trace t2 = [EvOnData "HELLO"; EvOnData ""].
Proof.
  intros w t.
  destruct (chunked_zero_length_chunk_is_an_empty_frame w 0 t [])
    as (t2 & H1 & H2 & _); try reflexivity.
  - intros k _. split; reflexivity.
  - exists t2. split; assumption.
Defined.

(** C5 as the specification words it fails.  A worker whose connection
    answers 200 with [Transfer-Encoding: chunked] and whose socket
    delivers ["5\r\nHELLO\r\n0\r\n\r\n"] calls the data callback twice,
    with ["HELLO"] and with [""], and is then still reading (the run has
    not come to an end: nothing told it the body was over). *)
Lemma chunked_hello_delivers_two_frames :
  let w := steady (Response 200 (Some "chunked") [Recv hello_chunked]) in
  let r := run w 9 (__init__ true) in
  frames (trace (snd r)) = ["HELLO"; ""]
  /\ frames (trace (snd r)) <> ["HELLO"]
  /\ fst r = Diverge
  /\ attempts (trace (snd r)) = 1%nat.
Proof.
  vm_compute. repeat split; discriminate.
Qed.

(** The same frames come out when the bytes arrive in two pieces. *)
Example chunked_hello_in_two_pieces :
  let w := steady (Response 200 (Some "chunked")
                     [Recv ("5" ++ crlf ++ "HEL")%string;
                      Recv ("LO" ++ crlf ++ "0" ++ crlf ++ crlf)%string]) in
  frames (trace (snd (run w 9 (__init__ true)))) = ["HELLO"; ""].
Proof. vm_compute. reflexivity. Qed.

End WorkerFacts.

Module LoopFacts.
Import Py Worker Terms Scenarios WorkerFacts.
Local Open Scope list_scope.

Section Loop.
Variable w : world.

Lemma opens_entered (t : thread) : opens (entered t) = opens t.
Proof. unfold entered. now destruct (0 <? connection_delay t). Qed.

Lemma delay_entered (t : thread) :
  connection_delay (entered t) = connection_delay t.
Proof. unfold entered. now destruct (0 <? connection_delay t). Qed.

Lemma run_while_S (f : nat) (t : thread) :
  run_while w (S f) t
  = (go <- run_guard w ;;
     if go : bool
     then c <- iteration w f ;;
          match c with Next => run_while w f | Break => ret tt end
     else ret tt) t.
Proof. reflexivity. Qed.

Lemma run_guard_open (t : thread) :
  guard_open w t -> run_guard w t = (Ret true, observe false t).
Proof.
  intros (H1 & H2 & H3 & H4). unfold run_guard.
  rewrite H1, H2, H3. unfold observe at 1. simpl. now rewrite H4.
Qed.

Lemma iteration_enters (f : nat) (t : thread) :
  iteration w f (observe false t)
  = catch (attempt w f) handler (entered t).
Proof.
  unfold iteration, bind, modify, gets, entered. simpl.
  destruct (0 <? connection_delay t); reflexivity.
Qed.

(** Entering the loop body. *)
Lemma run_while_enters (f : nat) (t : thread) :
  guard_open w t ->
  run_while w (S f) t
  = (c <- catch (attempt w f) handler ;;
     match c with Next => run_while w f | Break => ret tt end)
      (entered t).
Proof.
  intros G. rewrite run_while_S.
  rewrite (bind_ret _ _ _ _ _ (run_guard_open t G)).
  unfold bind at 1. rewrite iteration_enters. reflexivity.
Qed.

(** *** What [attempt] does, by outcome of [urlopen] *)

Lemma attempt_open_raises (f : nat) (t : thread) (m : string) :
  urlopen w (opens t) = OpenRaises m ->
  attempt w f t = (Raise (StdException m), opened t).
Proof.
  intros H. unfold attempt, bind, gets, modify, emit. simpl.
  rewrite H. reflexivity.
Qed.

Lemma attempt_url_error (f : nat) (t : thread) (m : string) :
  urlopen w (opens t) = URLError m ->
  attempt w f t
  = (Ret Break,
     log_event (EvOnError (PStr ("Connection failed: " ++ m)%string))
       (opened t)).
Proof.
  intros H. unfold attempt, bind, gets, modify, emit. simpl.
  rewrite H. reflexivity.
Qed.

Lemma attempt_exponential (f : nat) (t : thread)
      (c : Z) (te : option string) (raw : socket) :
  urlopen w (opens t) = Response c te raw ->
  exponential c = true ->
  attempt w f t
  = (Raise (ExponentialBackoffError (received c)), flagged te (opened t)).
Proof.
  intros H E. unfold exponential, client_error in E.
  apply andb_true_iff in E. destruct E as (E1 & E2).
  apply negb_true_iff in E1, E2.
  unfold attempt, bind, gets, modify, emit, raise, ret, flagged. simpl.
  rewrite H, E1. destruct (is_chunked te); simpl; rewrite E2; reflexivity.
Qed.

Lemma attempt_200 (f : nat) (t : thread)
      (te : option string) (raw : socket) :
  urlopen w (opens t) = Response 200 te raw ->
  attempt w f t = (_read_stream w f ;; ret Next) (streaming te raw t).
Proof.
  intros H. unfold attempt, bind, gets, modify, emit, streaming, flagged.
  simpl. rewrite H. destruct (is_chunked te); reflexivity.
Qed.

Lemma attempt_client_error (f : nat) (t : thread)
      (c : Z) (te : option string) (raw : socket) :
  urlopen w (opens t) = Response c te raw ->
  client_error c = true ->
  attempt w f t
  = (json_data <- error_payload f "init" ;;
     report_error_payload w c json_data ;;
     ret Break) (flagged te (opened t)).
Proof.
  intros H E.
  assert (E1 : (c =? 200) = false).
  { unfold client_error in E. apply Z.eqb_neq. intros ->. discriminate. }
  unfold client_error in E.
  unfold attempt, gets, modify, emit, flagged.
  unfold bind at 1. unfold bind at 1. unfold bind at 1. simpl.
  rewrite H. unfold bind at 1, ret.
  destruct (is_chunked te); simpl; unfold bind at 1; rewrite E1; simpl;
    rewrite E; reflexivity.
Qed.

(** *** What the [except] clauses do *)

Lemma on_exponential_spec (e : exn) (t : thread) :
  on_exponential e t
  = if connection_delay t =? 0 then
      (Ret Next,
       log_event (EvOnWarning (str e ++ ", retrying in " ++ str_of_int 10
                                 ++ " seconds")%string)
         (set_delay 10 t))
    else if connection_delay t <? 320 then
      (Ret Next,
       log_event (EvOnWarning
                    (str e ++ ", retrying in "
                       ++ str_of_int (connection_delay t * 2)
                       ++ " seconds")%string)
         (set_delay (connection_delay t * 2) t))
    else
      (Ret Break,
       log_event (EvOnError (PStr (str e ++ ", no more retries")%string)) t).
Proof.
  unfold on_exponential, bind, gets, modify, emit, ret. simpl.
  destruct (connection_delay t =? 0); [reflexivity |].
  destruct (connection_delay t <? 320); reflexivity.
Qed.

Lemma on_exception_spec (e : exn) (t : thread) :
  on_exception e t
  = if connection_delay t <? 16 then
      (Ret Next,
       log_event (EvOnWarning
                    (linear_warning (str e) (connection_delay t + 1)))
         (set_delay (connection_delay t + 1) t))
    else
      (Ret Break, log_event (EvOnError (PStr (linear_fatal (str e)))) t).
Proof.
  unfold on_exception, bind, gets, modify, emit, ret. simpl.
  destruct (connection_delay t <? 16); reflexivity.
Qed.

Lemma handler_ordinary (e : exn) (t : thread) :
  ordinary e = true -> handler e t = on_exception e t.
Proof. destruct e; simpl; intros H; try discriminate; reflexivity. Qed.

(** *** One failed attempt that is retried *)

Lemma fields_after_retry (msg : string) (d : Z) (te : option string)
      (t : thread) :
  let t' := log_event (EvOnWarning msg)
              (set_delay d (flagged te (opened (entered t)))) in
  _auto_reconnect t' = _auto_reconnect t
  /\ _stop_requested t' = _stop_requested t
  /\ connection_delay t' = d
  /\ polls t' = S (polls t)
  /\ opens t' = S (opens t)
  /\ trace t'
     = trace t ++ slept (connection_delay t)
         ++ [EvConnecting; EvOnWarning msg]
  /\ _buffer t' = _buffer t
  /\ _sock t' = _sock t
  /\ _chunked t' = _chunked t || is_chunked te.
Proof.
  unfold flagged, entered, slept.
  destruct (is_chunked te), (0 <? connection_delay t); simpl;
    rewrite ?orb_false_r, ?orb_true_r, <- ?app_assoc; simpl;
    repeat split; reflexivity.
Qed.

Lemma linear_retry_step (f : nat) (t : thread) (m : string) :
  guard_open w t ->
  urlopen w (opens t) = OpenRaises m ->
  connection_delay t < 16 ->
  run_while w (S f) t
  = run_while w f
      (log_event (EvOnWarning (linear_warning m (connection_delay t + 1)))
         (set_delay (connection_delay t + 1)
            (flagged None (opened (entered t))))).
Proof.
  intros G H D. rewrite (run_while_enters f t G). unfold bind at 1.
  rewrite (catch_raise _ _ _ _ _
             (attempt_open_raises f (entered t) m
                (eq_trans (f_equal (urlopen w) (opens_entered t)) H))).
  rewrite handler_ordinary by reflexivity. rewrite on_exception_spec.
  change (connection_delay (opened (entered t)))
    with (connection_delay (entered t)).
  rewrite delay_entered.
  destruct (Z.ltb_spec (connection_delay t) 16); [reflexivity | lia].
Qed.

Lemma linear_give_up_step (f : nat) (t : thread) (m : string) :
  guard_open w t ->
  urlopen w (opens t) = OpenRaises m ->
  16 <= connection_delay t ->
  run_while w (S f) t
  = (Ret tt,
     log_event (EvOnError (PStr (linear_fatal m))) (opened (entered t))).
Proof.
  intros G H D. rewrite (run_while_enters f t G). unfold bind at 1.
  rewrite (catch_raise _ _ _ _ _
             (attempt_open_raises f (entered t) m
                (eq_trans (f_equal (urlopen w) (opens_entered t)) H))).
  rewrite handler_ordinary by reflexivity. rewrite on_exception_spec.
  change (connection_delay (opened (entered t)))
    with (connection_delay (entered t)).
  rewrite delay_entered.
  destruct (Z.ltb_spec (connection_delay t) 16); [lia | reflexivity].
Qed.

Lemma exponential_retry_step (f : nat) (t : thread)
      (c : Z) (te : option string) (raw : socket) :
  guard_open w t ->
  urlopen w (opens t) = Response c te raw ->
  exponential c = true ->
  0 <= connection_delay t < 320 ->
  let d := if connection_delay t =? 0 then 10 else connection_delay t * 2 in
  run_while w (S f) t
  = run_while w f
      (log_event (EvOnWarning (exponential_warning c d))
         (set_delay d (flagged te (opened (entered t))))).
Proof.
  intros G H E D d. rewrite (run_while_enters f t G). unfold bind at 1.
  rewrite (catch_raise _ _ _ _ _
             (attempt_exponential f (entered t) c te raw
                (eq_trans (f_equal (urlopen w) (opens_entered t)) H) E)).
  simpl handler. rewrite on_exponential_spec.
  assert (Hd : connection_delay (flagged te (opened (entered t)))
               = connection_delay t).
  { unfold flagged. destruct (is_chunked te); simpl; apply delay_entered. }
  rewrite Hd. subst d. unfold exponential_warning. simpl str.
  destruct (Z.eqb_spec (connection_delay t) 0); [reflexivity |].
  destruct (Z.ltb_spec (connection_delay t) 320); [reflexivity | lia].
Qed.

Lemma exponential_give_up_step (f : nat) (t : thread)
      (c : Z) (te : option string) (raw : socket) :
  guard_open w t ->
  urlopen w (opens t) = Response c te raw ->
  exponential c = true ->
  320 <= connection_delay t ->
  run_while w (S f) t
  = (Ret tt,
     log_event (EvOnError (PStr (exponential_fatal c)))
       (flagged te (opened (entered t)))).
Proof.
  intros G H E D. rewrite (run_while_enters f t G). unfold bind at 1.
  rewrite (catch_raise _ _ _ _ _
             (attempt_exponential f (entered t) c te raw
                (eq_trans (f_equal (urlopen w) (opens_entered t)) H) E)).
  simpl handler. rewrite on_exponential_spec.
  assert (Hd : connection_delay (flagged te (opened (entered t)))
               = connection_delay t).
  { unfold flagged. destruct (is_chunked te); simpl; apply delay_entered. }
  rewrite Hd. unfold exponential_fatal. simpl str.
  destruct (Z.eqb_spec (connection_delay t) 0); [lia |].
  destruct (Z.ltb_spec (connection_delay t) 320); [lia | reflexivity].
Qed.

(** *** Streaks of failures *)

Lemma linear_streak (m : nat -> string) (n : nat) :
  forall (f : nat) (t : thread),
    _auto_reconnect t = true ->
    _stop_requested t = false ->
    0 <= connection_delay t ->
    connection_delay t + Z.of_nat n <= 16 ->
    (forall k, (k < n)%nat ->
               is_running w true (polls t + k) = true
               /\ stop_signal w (polls t + k) = false
               /\ urlopen w (opens t + k) = OpenRaises (m k)) ->
    exists t',
      run_while w (n + f) t = run_while w f t'
      /\ _auto_reconnect t' = true
      /\ _stop_requested t' = false
      /\ connection_delay t' = connection_delay t + Z.of_nat n
      /\ polls t' = (polls t + n)%nat
      /\ opens t' = (opens t + n)%nat
      /\ trace t'
         = trace t
             ++ flat_map
                  (fun k =>
                     slept (connection_delay t + Z.of_nat k)
                       ++ [EvConnecting;
                           EvOnWarning
                             (linear_warning (m k)
                                (connection_delay t + Z.of_nat k + 1))])
                  (seq 0 n)
      /\ _buffer t' = _buffer t
      /\ _chunked t' = _chunked t.
Proof.
  induction n as [| n IH]; intros f t Ha Hs Hd0 Hd Hw.
  - exists t. simpl. rewrite Z.add_0_r, !Nat.add_0_r, app_nil_r.
    repeat split; assumption.
  - destruct (IH (S f) t Ha Hs Hd0) as
        (t1 & Hrun & Ha1 & Hs1 & Hd1 & Hp1 & Ho1 & Ht1 & Hb1 & Hc1).
    { lia. }
    { intros k Hk. apply Hw. lia. }
    destruct (Hw n) as (Hr & Hst & Hu); [lia |].
    rewrite <- Hp1 in Hr, Hst. rewrite <- Ho1 in Hu.
    assert (G : guard_open w t1).
    { unfold guard_open. rewrite Ha1, orb_true_r. auto. }
    pose proof (fields_after_retry
                  (linear_warning (m n) (connection_delay t1 + 1))
                  (connection_delay t1 + 1) None t1) as F.
    cbv zeta in F.
    destruct F as (Fa & Fs & Fd & Fp & Fo & Ft & Fb & _ & Fc).
    eexists. split; [| split; [| split; [| split; [| split; [| split;
             [| split; [| split]]]]]]].
    + replace (S n + f)%nat with (n + S f)%nat by lia.
      rewrite Hrun. apply linear_retry_step; [exact G | exact Hu | lia].
    + rewrite Fa. exact Ha1.
    + rewrite Fs. exact Hs1.
    + rewrite Fd, Hd1. lia.
    + rewrite Fp, Hp1. lia.
    + rewrite Fo, Ho1. lia.
    + rewrite Ft, Ht1, seq_S, flat_map_app, Hd1. simpl.
      rewrite app_nil_r, <- !app_assoc. reflexivity.
    + rewrite Fb. exact Hb1.
    + rewrite Fc, Hc1. simpl. apply orb_false_r.
Qed.

Lemma exponential_streak (c : nat -> Z) (n : nat) :
  forall (f : nat) (t : thread),
    _auto_reconnect t = true ->
    _stop_requested t = false ->
    connection_delay t = 0 ->
    (n <= 6)%nat ->
    (forall k, (k < n)%nat ->
               is_running w true (polls t + k) = true
               /\ stop_signal w (polls t + k) = false
               /\ exponential (c k) = true
               /\ exists te raw,
                   urlopen w (opens t + k) = Response (c k) te raw) ->
    exists t',
      run_while w (n + f) t = run_while w f t'
      /\ _auto_reconnect t' = true
      /\ _stop_requested t' = false
      /\ connection_delay t' = exponential_delay n
      /\ polls t' = (polls t + n)%nat
      /\ opens t' = (opens t + n)%nat
      /\ trace t'
         = trace t
             ++ flat_map
                  (fun k =>
                     slept (exponential_delay k)
                       ++ [EvConnecting;
                           EvOnWarning
                             (exponential_warning (c k)
                                (exponential_delay (S k)))])
                  (seq 0 n)
      /\ _buffer t' = _buffer t.
Proof.
  induction n as [| n IH]; intros f t Ha Hs Hd0 Hn Hw.
  - exists t. simpl. rewrite !Nat.add_0_r, app_nil_r.
    repeat split; assumption.
  - destruct (IH (S f) t Ha Hs Hd0) as
        (t1 & Hrun & Ha1 & Hs1 & Hd1 & Hp1 & Ho1 & Ht1 & Hb1).
    { lia. }
    { intros k Hk. apply Hw. lia. }
    destruct (Hw n) as (Hr & Hst & He & te & raw & Hu); [lia |].
    rewrite <- Hp1 in Hr, Hst. rewrite <- Ho1 in Hu.
    assert (G : guard_open w t1).
    { unfold guard_open. rewrite Ha1, orb_true_r. auto. }
    assert (Hnext : (if connection_delay t1 =? 0 then 10
                     else connection_delay t1 * 2)
                    = exponential_delay (S n)
                    /\ 0 <= connection_delay t1 < 320).
    { rewrite Hd1.
      destruct n as [| [| [| [| [| [| n]]]]]]; try lia;
        vm_compute; repeat split; congruence. }
    destruct Hnext as (Hnext & Hrange).
    pose proof (exponential_retry_step f t1 (c n) te raw G Hu He Hrange)
      as Hstep.
    cbv zeta in Hstep. rewrite Hnext in Hstep.
    pose proof (fields_after_retry
                  (exponential_warning (c n) (exponential_delay (S n)))
                  (exponential_delay (S n)) te t1) as F.
    cbv zeta in F.
    destruct F as (Fa & Fs & Fd & Fp & Fo & Ft & Fb & _ & _).
    eexists. split; [| split; [| split; [| split; [| split; [| split;
             [| split]]]]]].
    + replace (S n + f)%nat with (n + S f)%nat by lia.
      rewrite Hrun. exact Hstep.
    + rewrite Fa. exact Ha1.
    + rewrite Fs. exact Hs1.
    + exact Fd.
    + rewrite Fp, Hp1. lia.
    + rewrite Fo, Ho1. lia.
    + rewrite Ft, Ht1, seq_S, flat_map_app, Hd1. simpl.
      rewrite app_nil_r, <- !app_assoc. reflexivity.
    + rewrite Fb. exact Hb1.
Qed.

End Loop.
End LoopFacts.

Module BackoffFacts.
Import Py Worker Terms Scenarios WorkerFacts LoopFacts.
Local Open Scope list_scope.

Section Backoff.
Variable w : world.

(** C2.  From a reset delay, while the loop condition keeps holding and
    the server keeps answering with a status of the exponential
    category, the worker connects at once, then warns and waits 10, 20,
    40, 80, 160 and 320 seconds before the next attempts, each warning
    naming the delay; at the failure of the attempt that followed the
    320-second wait it reports an error and leaves the loop, having made
    seven attempts and no more. *)
Theorem exponential_backoff_10_to_320_then_fatal
        (c : nat -> Z) (f : nat) (t : thread) :
  _auto_reconnect t = true ->
  _stop_requested t = false ->
  connection_delay t = 0 ->
  (forall k, (k < 7)%nat ->
             is_running w true (polls t + k) = true
             /\ stop_signal w (polls t + k) = false
             /\ exponential (c k) = true
             /\ exists te raw,
                 urlopen w (opens t + k) = Response (c k) te raw) ->
  exists t',
    run_while w (7 + f) t = (Ret tt, t')
    /\ trace t'
       = trace t
           ++ [EvConnecting]
           ++ flat_map
                (fun '(k, d) =>
                   [EvOnWarning (exponential_warning (c k) d);
                    EvSleep d;
                    EvConnecting])
                (combine (seq 0 6) [10; 20; 40; 80; 160; 320])
           ++ [EvOnError (PStr (exponential_fatal (c 6%nat)))]
    /\ connection_delay t' = 320
    /\ opens t' = (opens t + 7)%nat.
Proof.
  intros Ha Hs Hd Hw.
  destruct (exponential_streak w c 6%nat (S f) t Ha Hs Hd) as
      (t1 & Hrun & Ha1 & Hs1 & Hd1 & Hp1 & Ho1 & Ht1 & _).
  { lia. }
  { intros k Hk. apply Hw. lia. }
  destruct (Hw 6%nat) as (Hr & Hst & He & te & raw & Hu); [lia |].
  rewrite <- Hp1 in Hr, Hst. rewrite <- Ho1 in Hu.
  assert (G : guard_open w t1).
  { unfold guard_open. rewrite Ha1, orb_true_r. auto. }
  change (exponential_delay 6%nat) with 320 in Hd1.
  eexists. split; [| split; [| split]].
  - replace (7 + f)%nat with (6 + S f)%nat by lia. rewrite Hrun.
    apply (exponential_give_up_step w f t1 (c 6%nat) te raw G Hu He). lia.
  - unfold flagged, entered. rewrite Hd1.
    destruct (is_chunked te); simpl; rewrite Ht1, <- !app_assoc;
      reflexivity.
  - unfold flagged, entered. rewrite Hd1.
    destruct (is_chunked te); simpl; exact Hd1.
  - unfold flagged, entered. rewrite Hd1.
    destruct (is_chunked te); simpl; rewrite Ho1; lia.
Qed.

(** The linear backoff on the simplest run of failures: from a reset
    delay, while the loop condition keeps holding and every call of
    [urlopen] raises, the worker warns and waits 1, 2, ..., 16 seconds
    before the next attempts, each warning naming the delay; at the
    failure of the attempt that followed the 16-second wait it reports
    an error and leaves the loop, having made seventeen attempts and no
    more. *)
Lemma connect_failures_back_off_1_to_16
        (m : nat -> string) (f : nat) (t : thread) :
  _auto_reconnect t = true ->
  _stop_requested t = false ->
  connection_delay t = 0 ->
  (forall k, (k < 17)%nat ->
             is_running w true (polls t + k) = true
             /\ stop_signal w (polls t + k) = false
             /\ urlopen w (opens t + k) = OpenRaises (m k)) ->
  exists t',
    run_while w (17 + f) t = (Ret tt, t')
    /\ trace t'
       = trace t
           ++ [EvConnecting]
           ++ flat_map
                (fun k =>
                   [EvOnWarning (linear_warning (m k) (Z.of_nat k + 1));
                    EvSleep (Z.of_nat k + 1);
                    EvConnecting])
                (seq 0 16)
           ++ [EvOnError (PStr (linear_fatal (m 16%nat)))]
    /\ connection_delay t' = 16
    /\ opens t' = (opens t + 17)%nat.
Proof.
  intros Ha Hs Hd Hw.
  destruct (linear_streak w m 16%nat (S f) t Ha Hs) as
      (t1 & Hrun & Ha1 & Hs1 & Hd1 & Hp1 & Ho1 & Ht1 & _).
  { lia. }
  { lia. }
  { intros k Hk. apply Hw. lia. }
  destruct (Hw 16%nat) as (Hr & Hst & Hu); [lia |].
  rewrite <- Hp1 in Hr, Hst. rewrite <- Ho1 in Hu.
  assert (G : guard_open w t1).
  { unfold guard_open. rewrite Ha1, orb_true_r. auto. }
  rewrite Hd in Hd1, Ht1. change (0 + Z.of_nat 16) with 16 in Hd1.
  eexists. split; [| split; [| split]].
  - replace (17 + f)%nat with (16 + S f)%nat by lia. rewrite Hrun.
    apply (linear_give_up_step w f t1 (m 16%nat) G Hu). lia.
  - unfold entered. rewrite Hd1. simpl. rewrite Ht1, <- !app_assoc.
    reflexivity.
  - unfold entered. rewrite Hd1. simpl. exact Hd1.
  - unfold entered. rewrite Hd1. simpl. rewrite Ho1. lia.
Qed.

(** C7, as the code has it.  There is one delay, [connection_delay]:
    both [except] clauses read it and write it, so a failure of either
    category moves the delay from which the other category goes on; a
    connection that reaches status 200 sets it to zero before streaming
    starts. *)
Theorem both_categories_share_one_delay
        (e : exn) (f : nat) (t : thread)
        (te : option string) (raw : socket) :
  (ordinary e = true ->
   connection_delay (snd (handler e t))
   = if connection_delay t <? 16 then connection_delay t + 1
     else connection_delay t)
  /\ (forall msg,
         connection_delay (snd (handler (ExponentialBackoffError msg) t))
         = if connection_delay t =? 0 then 10
           else if connection_delay t <? 320 then connection_delay t * 2
                else connection_delay t)
  /\ (urlopen w (opens t) = Response 200 te raw ->
      attempt w f t = (_read_stream w f ;; ret Next) (streaming te raw t)
      /\ connection_delay (streaming te raw t) = 0).
Proof.
  split; [| split].
  - intros He. rewrite (handler_ordinary e t He), on_exception_spec.
    destruct (connection_delay t <? 16); reflexivity.
  - intros msg. simpl handler. rewrite on_exponential_spec.
    destruct (connection_delay t =? 0); [reflexivity |].
    destruct (connection_delay t <? 320); reflexivity.
  - intros H. split; [apply attempt_200; exact H | reflexivity].
Qed.

End Backoff.

Lemma exponential_backoff_10_to_320_then_fatal_witness :
  exists t',
    run_while (steady (Response 503 None [])) 7 (__init__ true) = (Ret tt, t')
    /\ connection_delay t' = 320
    /\ opens t' = 7%nat.
Proof.
  destruct (exponential_backoff_10_to_320_then_fatal
              (steady (Response 503 None [])) (fun _ => 503) 0%nat
              (__init__ true))
    as (t' & H1 & _ & H3 & H4); try reflexivity.
  - intros k _. repeat split. exists None, []. reflexivity.
  - exists t'. repeat split; assumption.
Defined.

Lemma connect_failures_back_off_1_to_16_instance :
  exists t',
    run_while (steady (OpenRaises "timed out")) 17 (__init__ true)
    = (Ret tt, t')
    /\ connection_delay t' = 16
    /\ opens t' = 17%nat.
Proof.
  destruct (connect_failures_back_off_1_to_16
              (steady (OpenRaises "timed out")) (fun _ => "timed out") 0%nat
              (__init__ true))
    as (t' & H1 & _ & H3 & H4); try reflexivity.
  - intros k _. repeat split.
  - exists t'. repeat split; assumption.
Defined.

Lemma both_categories_share_one_delay_witness :
  connection_delay (snd (handler (StdException "timed out") (__init__ true)))
  = 1
  /\ connection_delay
       (streaming None [] (__init__ true)) = 0.
Proof.
  destruct (both_categories_share_one_delay
              (steady (Response 200 None [])) (StdException "timed out")
              0%nat (__init__ true) None [])
    as (H1 & _ & H3).
  split.
  - apply H1. reflexivity.
  - apply H3. reflexivity.
Defined.

(** C7 as the specification words it fails.  A worker whose first attempt
    times out (linear category) and whose second attempt is answered 503
    (exponential category) waits 1 second and then announces a wait of 2
    seconds, not of 10: the linear failure moved the delay that the
    exponential clause doubles.  On the handlers alone: from the reset
    delay the exponential clause yields 10, after one linear failure it
    yields 2. *)
Lemma linear_failure_moves_exponential_delay :
  let t0 := __init__ true in
  let t1 := snd (handler (StdException "timed out") t0) in
  let e := ExponentialBackoffError "Received 503 response" in
  connection_delay (snd (handler e t0)) = 10
  /\ connection_delay t1 = 1
  /\ connection_delay (snd (handler e t1)) = 2
  /\ trace (snd (run timeout_then_503 5 t0))
     = [EvConnecting;
        EvOnWarning "Connection failed (timed out), retrying in 1 seconds";
        EvSleep 1;
        EvConnecting;
        EvOnWarning "Received 503 response, retrying in 2 seconds";
        EvOnDisconnect].
Proof.
  vm_compute. repeat split.
Qed.

End BackoffFacts.

Module InvariantFacts.
Import Py Worker Terms Scenarios WorkerFacts LoopFacts.
Local Open Scope list_scope.

Section Preservation.
Variable P : thread -> Prop.

Lemma preserves_ret {A} (a : A) : preserves P (ret a).
Proof. intros t H. exact H. Qed.

Lemma preserves_raise {A} (e : exn) : preserves P (@raise A e).
Proof. intros t H. exact H. Qed.

Lemma preserves_diverge {A} : preserves P (@diverge A).
Proof. intros t H. exact H. Qed.

Lemma preserves_gets {A} (g : thread -> A) : preserves P (gets g).
Proof. intros t H. exact H. Qed.

Lemma preserves_modify (g : thread -> thread) :
  (forall t, P t -> P (g t)) -> preserves P (modify g).
Proof. intros Hg t H. apply Hg, H. Qed.

Lemma preserves_bind {A B} (m : M A) (k : A -> M B) :
  preserves P m -> (forall a, preserves P (k a)) -> preserves P (bind m k).
Proof.
  intros Hm Hk t H. unfold bind. specialize (Hm t H).
  destruct (m t) as [[a | e |] t']; simpl in *; auto.
  apply Hk, Hm.
Qed.

Lemma preserves_catch {A} (m : M A) (h : exn -> M A) :
  preserves P m -> (forall e, preserves P (h e)) -> preserves P (catch m h).
Proof.
  intros Hm Hh t H. unfold catch. specialize (Hm t H).
  destruct (m t) as [[a | e |] t']; simpl in *; auto.
  apply Hh, Hm.
Qed.

(** *** The decoder *)
Section Read.
Hypothesis HP : read_stable P.

Lemma preserves_raw_read : preserves P _raw_read.
Proof.
  pose proof HP as (Hb & Hs). intros t H. unfold _raw_read.
  destruct (_sock t) as [[| [| | data | msg] s] |]; simpl; auto.
  destruct (0 <? len data); auto.
Qed.

Lemma preserves_raw_read_chunk_while (f : nat) (n : Z) :
  preserves P (_raw_read_chunk_while f n).
Proof.
  induction f as [| f IH]; intros t H; simpl;
    destruct (need_more n (_buffer t)); auto.
  apply (preserves_bind _ _ preserves_raw_read (fun _ => IH)), H.
Qed.

Lemma preserves_raw_read_chunk (f : nat) (n : Z) :
  preserves P (_raw_read_chunk f n).
Proof.
  apply preserves_bind; [apply preserves_raw_read_chunk_while |].
  intros _ t H. simpl. apply (proj1 HP), H.
Qed.

Lemma preserves_read_chunk_while (f : nat) :
  forall l, preserves P (_read_chunk_while f l).
Proof.
  induction f as [| f IH]; intros l t H; simpl;
    destruct (len l =? 0); auto.
  apply (preserves_bind _ _ (preserves_raw_read_chunk f 0) IH), H.
Qed.

Lemma preserves_read_chunk (f : nat) : preserves P (_read_chunk f).
Proof.
  apply preserves_bind; [apply preserves_read_chunk_while |].
  intros l. apply preserves_bind; [apply preserves_gets |].
  intros ch. destruct (negb ch); [apply preserves_ret |].
  destruct (int16 l);
    [apply preserves_raw_read_chunk | apply preserves_raise].
Qed.

Lemma preserves_error_payload (f : nat) :
  forall d, preserves P (error_payload f d).
Proof.
  induction f as [| f IH]; intros d t H; simpl;
    destruct (negb (d =? "")%string && (len d <=? 4)); auto.
  apply (preserves_bind _ _ (preserves_read_chunk f) IH), H.
Qed.
End Read.

(** *** The streaming loop *)
Section StreamLoop.
Variable w : world.
Hypothesis HP : stream_stable P.

Lemma preserves_emit (ev : event) : preserves P (emit ev).
Proof. apply preserves_modify. intros t. apply HP. Qed.

Lemma preserves_stream_guard : preserves P (stream_guard w).
Proof. intros t H. simpl. apply HP, H. Qed.

Lemma preserves_deliver (frame : string) : preserves P (deliver w frame).
Proof.
  apply preserves_bind; [apply preserves_emit |].
  intros _. destruct (on_data w frame);
    [apply preserves_raise | apply preserves_ret].
Qed.

Lemma preserves_read_stream (f : nat) : preserves P (_read_stream w f).
Proof.
  induction f as [| f IH]; simpl;
    (apply preserves_bind; [apply preserves_stream_guard |]);
    intros [|]; try apply preserves_ret; try apply preserves_diverge.
  apply preserves_bind; [apply preserves_read_chunk, HP |].
  intros frame. apply preserves_bind; [apply preserves_deliver |].
  intros _. exact IH.
Qed.
End StreamLoop.

(** *** The whole of [run] *)
Section RunLoop.
Variable w : world.
Hypothesis HP : run_stable P.

Let HS : stream_stable P := proj1 HP.

Lemma preserves_report (c : Z) (d : string) :
  preserves P (report_error_payload w c d).
Proof.
  unfold report_error_payload.
  destruct (json_loads w d) as [data |]; [| apply preserves_emit, HS].
  apply preserves_bind.
  - destruct (truthy data); [| apply preserves_ret].
    destruct (has_key "message" data);
      [apply preserves_ret | apply preserves_raise].
  - intros [|]; [| apply preserves_emit, HS].
    destruct (get_item "message" data);
      [apply preserves_emit, HS | apply preserves_raise].
Qed.

Lemma preserves_attempt (f : nat) : preserves P (attempt w f).
Proof.
  pose proof HP as (_ & Hc & Hh & Hd & Hf & Ho).
  unfold attempt.
  apply preserves_bind; [apply preserves_gets |]. intros k.
  apply preserves_bind; [apply preserves_modify, Ho |]. intros _.
  apply preserves_bind; [apply preserves_emit, HS |]. intros _.
  destruct (urlopen w k) as [c te raw | m | m].
  - apply preserves_bind.
    { destruct (is_chunked te);
        [apply preserves_modify, Hc | apply preserves_ret]. }
    intros _. apply preserves_bind.
    { destruct (c =? 200); [| apply preserves_ret].
      apply preserves_modify. intros t. apply HS. }
    intros _. destruct (c =? 200).
    + apply preserves_bind; [apply preserves_modify; auto |]. intros _.
      apply preserves_bind; [apply preserves_emit, HS |]. intros _.
      apply preserves_bind; [apply preserves_modify; auto |]. intros _.
      apply preserves_bind; [apply preserves_read_stream, HS |].
      intros _. apply preserves_ret.
    + destruct ((400 <=? c) && (c <? 500) && negb (c =? 420)).
      * apply preserves_bind; [apply preserves_error_payload, HS |].
        intros d. apply preserves_bind; [apply preserves_report |].
        intros _. apply preserves_ret.
      * apply preserves_raise.
  - apply preserves_bind; [apply preserves_emit, HS |]. intros _.
    apply preserves_ret.
  - apply preserves_raise.
Qed.

Lemma preserves_handler (e : exn) : preserves P (handler e).
Proof.
  pose proof HP as (_ & _ & _ & Hd & _ & _).
  assert (Hx : preserves P (on_exception e)).
  { intros t H. rewrite on_exception_spec.
    destruct (connection_delay t <? 16); simpl; apply HS; auto. }
  destruct e; simpl; try exact Hx; try apply preserves_raise.
  intros t H. rewrite on_exponential_spec.
  destruct (connection_delay t =? 0); [simpl; apply HS; auto |].
  destruct (connection_delay t <? 320); simpl; apply HS; auto.
Qed.

Lemma preserves_iteration (f : nat) : preserves P (iteration w f).
Proof.
  pose proof HP as (_ & _ & _ & _ & Hf & _).
  unfold iteration.
  apply preserves_bind; [apply preserves_modify; auto |]. intros _.
  apply preserves_bind; [apply preserves_gets |]. intros d.
  apply preserves_bind.
  { destruct (0 <? d); [apply preserves_emit, HS | apply preserves_ret]. }
  intros _. apply preserves_catch;
    [apply preserves_attempt | apply preserves_handler].
Qed.

Lemma preserves_run_guard : preserves P (run_guard w).
Proof.
  intros t H. unfold run_guard.
  destruct (first_connection t || _auto_reconnect t); simpl; auto.
  apply HS, H.
Qed.

Lemma preserves_run_while (f : nat) : preserves P (run_while w f).
Proof.
  induction f as [| f IH]; simpl;
    (apply preserves_bind; [apply preserves_run_guard |]);
    intros [|]; try apply preserves_ret; try apply preserves_diverge.
  apply preserves_bind; [apply preserves_iteration |].
  intros [|]; [exact IH | apply preserves_ret].
Qed.

Lemma preserves_run_exit : preserves P (run_exit w).
Proof.
  unfold run_exit.
  apply preserves_bind; [apply preserves_gets |]. intros s.
  apply preserves_bind.
  { destruct s; [apply preserves_emit, HS | apply preserves_ret]. }
  intros _. apply preserves_bind; [apply preserves_gets |]. intros k.
  apply preserves_bind.
  { apply preserves_modify. intros t. apply HS. }
  intros _. apply preserves_bind; [apply preserves_gets |].
  intros [|]; [apply preserves_ret | apply preserves_emit, HS].
Qed.

Lemma preserves_run (f : nat) : preserves P (run w f).
Proof.
  pose proof HP as (_ & _ & _ & Hd & Hf & _).
  unfold run.
  apply preserves_bind; [apply preserves_modify; auto |]. intros _.
  apply preserves_bind; [apply preserves_modify; auto |]. intros _.
  apply preserves_bind; [apply preserves_run_while |]. intros _.
  apply preserves_run_exit.
Qed.
End RunLoop.
End Preservation.

Lemma chunked_run_stable : run_stable (fun t => _chunked t = true).
Proof. repeat split; intros; simpl; auto. Qed.

Lemma delay_stream_stable (d : Z) :
  stream_stable (fun t => connection_delay t = d).
Proof. repeat split; intros; simpl; auto. Qed.

Lemma trace_read_stable (tr : list event) :
  read_stable (fun t => trace t = tr).
Proof. repeat split; intros; simpl; auto. Qed.

End InvariantFacts.

Module ReconnectFacts.
Import Py Worker Terms Scenarios WorkerFacts LoopFacts InvariantFacts.
Local Open Scope list_scope.

Lemma errors_app (a b : list event) : errors (a ++ b) = errors a ++ errors b.
Proof. apply flat_map_app. Qed.

Lemma attempts_app (a b : list event) :
  attempts (a ++ b) = (attempts a + attempts b)%nat.
Proof. unfold attempts. now rewrite filter_app, length_app. Qed.

Lemma error_payload_exit (f : nat) :
  forall d t p t',
    error_payload f d t = (Ret p, t') -> p = "" \/ 4 < len p.
Proof.
  induction f as [| f IH]; intros d t p t' H; simpl in H.
  - destruct (String.eqb_spec d ""); simpl in H.
    + inversion H; subst. now left.
    + destruct (Z.leb_spec (len d) 4); [discriminate |].
      inversion H; subst. now right.
  - destruct (String.eqb_spec d ""); simpl in H.
    + inversion H; subst. now left.
    + destruct (Z.leb_spec (len d) 4).
      * unfold bind in H.
        destruct (_read_chunk f t) as [[d1 | e |] t1]; try discriminate.
        exact (IH _ _ _ _ H).
      * inversion H; subst. now right.
Qed.

Section Reconnect.
Variable w : world.

Lemma report_structured (c : Z) (payload : string) (t : thread) :
  json_loads w payload = None
  \/ (exists kv, json_loads w payload = Some (PDict kv)) ->
  report_error_payload w c payload t
  = (Ret tt, log_event (EvOnError (error_report w c payload)) t).
Proof.
  unfold report_error_payload, error_report.
  intros [H | (kv & H)]; rewrite H; [reflexivity |].
  destruct kv as [| p kv]; [reflexivity |].
  remember (p :: kv) as l eqn:El.
  assert (Tr : truthy (PDict l) = true) by (subst l; reflexivity).
  unfold bind. rewrite Tr.
  change (has_key "message" (PDict l))
    with (Some (match lookup "message" l with
                | Some _ => true
                | None => false
                end)).
  change (get_item "message" (PDict l)) with (lookup "message" l).
  destruct (lookup "message" l); reflexivity.
Qed.

(** The 4xx branch past its reads.  When a response has a status in
    4xx other than 420 and the reads of the branch do yield a payload
    (frames are read until one is longer than four characters, or
    empty; they come from the buffer and the socket that an earlier
    connection left, the response's own socket is never attached), it
    reports one error and leaves the loop without another attempt.  The
    error is the payload's message field, verbatim, when the payload is
    a JSON object that has one; ["Hash not found"] when it is a JSON
    object without one; and ["Connection failed: <status> [no error
    message]"] when the payload is not JSON. *)
Lemma client_error_reports_payload_and_stops
        (f : nat) (t : thread) (c : Z) (te : option string) (raw : socket)
        (payload : string) (t1 : thread) :
  guard_open w t ->
  urlopen w (opens t) = Response c te raw ->
  client_error c = true ->
  error_payload f "init" (flagged te (opened (entered t)))
    = (Ret payload, t1) ->
  json_loads w payload = None
  \/ (exists kv, json_loads w payload = Some (PDict kv)) ->
  let t' := log_event (EvOnError (error_report w c payload)) t1 in
  run_while w (S f) t = (Ret tt, t')
  /\ errors (trace t') = errors (trace t) ++ [error_report w c payload]
  /\ attempts (trace t') = S (attempts (trace t))
  /\ (payload = "" \/ 4 < len payload).
Proof.
  intros G Hu Hc Hp Hj t'. subst t'.
  assert (Ht : trace t1 = trace t ++ slept (connection_delay t)
                             ++ [EvConnecting]).
  { pose proof (preserves_error_payload _
                  (trace_read_stable
                     (trace (flagged te (opened (entered t)))))
                  f "init" _ eq_refl) as Hpres.
    rewrite Hp in Hpres. simpl in Hpres. rewrite Hpres.
    unfold flagged, entered, slept.
    destruct (is_chunked te), (0 <? connection_delay t); simpl;
      rewrite <- ?app_assoc; reflexivity. }
  split; [| split; [| split]].
  - rewrite (run_while_enters w f t G). unfold bind at 1.
    assert (Ha : attempt w f (entered t)
                 = (Ret Break,
                    log_event (EvOnError (error_report w c payload)) t1)).
    { rewrite (attempt_client_error w f (entered t) c te raw
                 (eq_trans (f_equal (urlopen w) (opens_entered t)) Hu) Hc).
      rewrite (bind_ret _ _ _ _ _ Hp).
      rewrite (bind_ret _ _ _ _ _ (report_structured c payload t1 Hj)).
      reflexivity. }
    rewrite (catch_ret _ _ _ _ _ Ha). reflexivity.
  - change (trace (log_event (EvOnError (error_report w c payload)) t1))
      with (trace t1 ++ [EvOnError (error_report w c payload)]).
    rewrite Ht, !errors_app. unfold slept.
    destruct (0 <? connection_delay t); simpl;
      rewrite ?app_nil_r; reflexivity.
  - change (trace (log_event (EvOnError (error_report w c payload)) t1))
      with (trace t1 ++ [EvOnError (error_report w c payload)]).
    rewrite Ht, !attempts_app. unfold slept.
    destruct (0 <? connection_delay t); unfold attempts; simpl; lia.
  - exact (error_payload_exit _ _ _ _ _ Hp).
Qed.

(** *** Any failure of the linear category *)

(** An attempt that does not reach status 200 leaves the delay alone. *)
Lemma report_keeps_delay (c : Z) (d : string) (x : Z) :
  preserves (fun t => connection_delay t = x)
            (report_error_payload w c d).
Proof.
  unfold report_error_payload.
  destruct (json_loads w d) as [data |]; [| intros t Ht; exact Ht].
  apply preserves_bind.
  - destruct (truthy data); [| apply preserves_ret].
    destruct (has_key "message" data);
      [apply preserves_ret | apply preserves_raise].
  - intros [|]; [| intros t Ht; exact Ht].
    destruct (get_item "message" data);
      [intros t Ht; exact Ht | apply preserves_raise].
Qed.

Lemma attempt_keeps_delay (f : nat) (t : thread) :
  not_connected (urlopen w (opens t)) = true ->
  connection_delay (snd (attempt w f t)) = connection_delay t.
Proof.
  intros H.
  destruct (urlopen w (opens t)) as [c te raw | m | m] eqn:E; simpl in H.
  - assert (Hf : connection_delay (flagged te (opened t))
                 = connection_delay t).
    { unfold flagged. destruct (is_chunked te); reflexivity. }
    destruct (client_error c) eqn:Ec.
    + rewrite (attempt_client_error w f t c te raw E Ec).
      apply (preserves_bind (fun x => connection_delay x
                                      = connection_delay t));
        [| | exact Hf].
      * apply preserves_error_payload. repeat split; intros; assumption.
      * intros d. apply preserves_bind; [apply report_keeps_delay |].
        intros _. apply preserves_ret.
    + rewrite (attempt_exponential w f t c te raw E).
      * exact Hf.
      * unfold exponential. now rewrite H, Ec.
  - rewrite (attempt_url_error w f t m E). reflexivity.
  - rewrite (attempt_open_raises w f t m E). reflexivity.
Qed.

(** Whatever ordinary exception an attempt raises, and wherever it
    comes from: below 16 the delay grows by one, a warning names it and
    the loop turns again; at 16 an error is reported and the loop ends.
    If the attempt did not reach status 200, the delay it grows from is
    the one the iteration started with. *)
Lemma linear_failure_step (f : nat) (t t1 : thread) (e : exn) :
  guard_open w t ->
  attempt w f (entered t) = (Raise e, t1) ->
  ordinary e = true ->
  run_while w (S f) t
  = (if connection_delay t1 <? 16 then
       run_while w f
         (log_event
            (EvOnWarning (linear_warning (str e) (connection_delay t1 + 1)))
            (set_delay (connection_delay t1 + 1) t1))
     else
       (Ret tt, log_event (EvOnError (PStr (linear_fatal (str e)))) t1))
  /\ (not_connected (urlopen w (opens t)) = true ->
      connection_delay t1 = connection_delay t).
Proof.
  intros G Ha He. split.
  - rewrite (run_while_enters w f t G). unfold bind at 1.
    rewrite (catch_raise _ _ _ _ _ Ha).
    rewrite (handler_ordinary e t1 He), on_exception_spec.
    destruct (connection_delay t1 <? 16); reflexivity.
  - intros Hn. rewrite <- (opens_entered t) in Hn.
    pose proof (attempt_keeps_delay f (entered t) Hn) as Hk.
    rewrite Ha in Hk. simpl in Hk. rewrite Hk. apply delay_entered.
Qed.

(** *** Exceptions do not leave [run] *)

Lemma contains_bind {A B} (m : M A) (k : A -> M B) :
  contains_exceptions m -> (forall a, contains_exceptions (k a)) ->
  contains_exceptions (bind m k).
Proof.
  intros Hm Hk t e t' H. unfold bind in H.
  destruct (m t) as [[a | e0 |] t0] eqn:E.
  - exact (Hk a _ _ _ H).
  - inversion H; subst. exact (Hm _ _ _ E).
  - discriminate.
Qed.

Lemma contains_total {A} (m : M A) :
  (forall t, exists a, m t = (Ret a, snd (m t))) -> contains_exceptions m.
Proof.
  intros Hm t e t' H. destruct (Hm t) as (a & E). rewrite E in H.
  discriminate.
Qed.

Lemma contains_handler (e : exn) : contains_exceptions (handler e).
Proof.
  intros t e' t' H. destruct e as [m | m | m | m]; simpl in H.
  - rewrite on_exponential_spec in H.
    destruct (connection_delay t =? 0); [discriminate |].
    destruct (connection_delay t <? 320); discriminate.
  - rewrite on_exception_spec in H.
    destruct (connection_delay t <? 16); discriminate.
  - rewrite on_exception_spec in H.
    destruct (connection_delay t <? 16); discriminate.
  - inversion H; subst. now exists m.
Qed.

Lemma contains_iteration (f : nat) : contains_exceptions (iteration w f).
Proof.
  intros t e t' H. unfold iteration, bind, modify, gets in H.
  simpl in H.
  destruct (0 <? connection_delay t); simpl in H; unfold catch in H.
  - destruct (attempt w f _) as [[c | e0 |] t0]; try discriminate.
    exact (contains_handler e0 _ _ _ H).
  - destruct (attempt w f _) as [[c | e0 |] t0]; try discriminate.
    exact (contains_handler e0 _ _ _ H).
Qed.

Lemma contains_run_while (f : nat) : contains_exceptions (run_while w f).
Proof.
  induction f as [| f IH]; simpl; apply contains_bind.
  - intros t e t' H. unfold run_guard in H.
    destruct (first_connection t || _auto_reconnect t); discriminate.
  - intros [|] t e t' H; discriminate.
  - intros t e t' H. unfold run_guard in H.
    destruct (first_connection t || _auto_reconnect t); discriminate.
  - intros [|]; [| intros t e t' H; discriminate].
    apply contains_bind; [apply contains_iteration |].
    intros [|]; [exact IH | intros t e t' H; discriminate].
Qed.

Lemma contains_run (f : nat) : contains_exceptions (run w f).
Proof.
  unfold run.
  apply contains_bind; [intros t e t' H; discriminate |]. intros _.
  apply contains_bind; [intros t e t' H; discriminate |]. intros _.
  apply contains_bind; [apply contains_run_while |]. intros _.
  intros t e t' H. unfold run_exit, bind, gets, modify, emit in H.
  simpl in H.
  destruct (_sock t); simpl in H;
    destruct (_stop_requested t || stop_signal w (polls t));
    discriminate.
Qed.

(** C10.  An exception raised by the data callback comes out of
    [_read_stream] as it is.  When it is an ordinary one (of class
    [Exception], and not the worker's own [ExponentialBackoffError]
    signal), [run] catches it in its [except Exception] clause: the
    delay, reset by the 200 that preceded the streaming, becomes 1, a
    warning naming it is reported and the loop goes back to its
    condition, to reconnect if that holds.  No exception of class
    [Exception] leaves [run]. *)
Theorem data_callback_exception_is_a_linear_failure
        (f : nat) (t t1 t2 ts : thread) (te : option string)
        (raw : socket) (frame : string) (e : exn) :
  (is_running w false (polls ts) = true ->
   stop_signal w (polls ts) = false ->
   _stop_requested ts = false ->
   _read_chunk f (observe false ts) = (Ret frame, t1) ->
   on_data w frame = Some e ->
   _read_stream w (S f) ts = (Raise e, log_event (EvOnData frame) t1))
  /\
  (guard_open w t ->
   urlopen w (opens t) = Response 200 te raw ->
   _read_stream w f (streaming te raw (entered t)) = (Raise e, t2) ->
   ordinary e = true ->
   run_while w (S f) t
   = run_while w f
       (log_event (EvOnWarning (linear_warning (str e) 1))
          (set_delay 1 t2)))
  /\
  (forall fuel t0 e0 t0',
      run w fuel t0 = (Raise e0, t0') -> ordinary e0 = false).
Proof.
  split; [| split].
  - intros H1 H2 H3 Hc Hd. rewrite read_stream_S.
    rewrite (bind_ret _ _ _ _ _ (stream_guard_open w ts H1 H2 H3)).
    rewrite (bind_ret _ _ _ _ _ Hc).
    rewrite (bind_raise _ _ _ _ _ (deliver_raises w frame e t1 Hd)).
    reflexivity.
  - intros G Hu Hs He.
    assert (Hd : connection_delay t2 = 0).
    { pose proof (preserves_read_stream _ w (delay_stream_stable 0) f
                    (streaming te raw (entered t)) eq_refl) as Hp.
      rewrite Hs in Hp. exact Hp. }
    rewrite (run_while_enters w f t G). unfold bind at 1.
    assert (Ha : attempt w f (entered t) = (Raise e, t2)).
    { rewrite (attempt_200 w f (entered t) te raw
                 (eq_trans (f_equal (urlopen w) (opens_entered t)) Hu)).
      apply bind_raise. exact Hs. }
    rewrite (catch_raise _ _ _ _ _ Ha).
    rewrite (handler_ordinary e t2 He), on_exception_spec, Hd.
    reflexivity.
  - intros fuel t0 e0 t0' H.
    destruct (contains_run fuel _ _ _ H) as (msg & ->). reflexivity.
Qed.

(** C9.  Neither [except] clause touches the buffer or the chunked
    flag, and nothing does between a failure and the streaming of the
    next connection: when the loop turns again and the answer is 200,
    [_read_stream] starts on the buffer as the failed connection left
    it, with the flag still set if it was (and set if this response is
    chunked).  What the socket then delivers is appended after the
    bytes left over.  [run] itself starts its loop on the buffer and
    flag that the constructor made.  Once the flag is set, it is set
    after every read, every turn of the loop and at the end of [run]. *)
Theorem buffer_and_chunked_flag_survive_reconnects
        (f : nat) (t : thread) (e : exn)
        (te : option string) (raw : socket) :
  (_buffer (snd (handler e t)) = _buffer t
   /\ _chunked (snd (handler e t)) = _chunked t)
  /\
  (guard_open w t ->
   urlopen w (opens t) = Response 200 te raw ->
   run_while w (S f) t
   = (c <- catch (_read_stream w f ;; ret Next) handler ;;
      match c with Next => run_while w f | Break => ret tt end)
       (streaming te raw (entered t))
   /\ _buffer (streaming te raw (entered t)) = _buffer t
   /\ _chunked (streaming te raw (entered t))
      = _chunked t || is_chunked te)
  /\
  (exists more, _buffer (snd (_raw_read t)) = (_buffer t ++ more)%string)
  /\
  (run w f t = (run_while w f ;; run_exit w) (set_first true (set_delay 0 t))
   /\ _buffer (__init__ (_auto_reconnect t)) = ""
   /\ _chunked (__init__ (_auto_reconnect t)) = false)
  /\
  (_chunked t = true ->
   _chunked (snd (_read_chunk f t)) = true
   /\ _chunked (snd (iteration w f t)) = true
   /\ _chunked (snd (run_while w f t)) = true
   /\ _chunked (snd (run w f t)) = true).
Proof.
  split; [| split; [| split; [| split]]].
  - destruct e as [m | m | m | m]; simpl handler;
      rewrite ?on_exponential_spec, ?on_exception_spec;
      try (destruct (connection_delay t =? 0); [split; reflexivity |]);
      try (destruct (connection_delay t <? 320); split; reflexivity);
      try (destruct (connection_delay t <? 16); split; reflexivity).
  - intros G Hu. split; [| split].
    + rewrite (run_while_enters w f t G). unfold bind at 1.
      unfold catch at 1.
      rewrite (attempt_200 w f (entered t) te raw
                 (eq_trans (f_equal (urlopen w) (opens_entered t)) Hu)).
      reflexivity.
    + unfold streaming, flagged, entered.
      destruct (is_chunked te), (0 <? connection_delay t); reflexivity.
    + unfold streaming, flagged, entered.
      destruct (is_chunked te), (0 <? connection_delay t); simpl;
        rewrite ?orb_true_r, ?orb_false_r; reflexivity.
  - unfold _raw_read.
    destruct (_sock t) as [[| [| | data | msg] s] |]; simpl;
      try (exists ""; symmetry; apply DecoderFacts.append_empty).
    destruct (0 <? len data).
    + exists (strip_cr data). reflexivity.
    + exists "". symmetry. apply DecoderFacts.append_empty.
  - repeat split.
  - intros Hc. repeat split.
    + exact (preserves_read_chunk _ (proj1 (proj1 chunked_run_stable))
               f t Hc).
    + exact (preserves_iteration _ w chunked_run_stable f t Hc).
    + exact (preserves_run_while _ w chunked_run_stable f t Hc).
    + exact (preserves_run _ w chunked_run_stable f t Hc).
Qed.

End Reconnect.
End ReconnectFacts.
Module LinearFacts.
Import Py Worker Terms Scenarios MoreScenarios WorkerFacts LoopFacts
       InvariantFacts ReconnectFacts.
Local Open Scope list_scope.

Lemma last_cons {A} (l : list A) :
  forall a d, last (a :: l) d = last l a.
Proof.
  induction l as [| b l IH]; intros a d; [reflexivity |].
  change (last (a :: b :: l) d) with (last (b :: l) d).
  rewrite (IH b d), (IH b a). reflexivity.
Qed.

Lemma flat_map_combine_seq_S {A B} (g : nat * A -> list B) (n : nat) :
  forall (a : nat) (l : list A),
    flat_map g (combine (seq (S a) n) l)
    = flat_map (fun p => g (S (fst p), snd p)) (combine (seq a n) l).
Proof.
  induction n as [| n IH]; intros a [| x l]; simpl; try reflexivity.
  rewrite IH. reflexivity.
Qed.

Section Linear.
Variable w : world.

(** The 4xx branch's report either calls the error callback and
    returns, or raises before it has called anything. *)
Lemma report_raise_keeps (c : Z) (d : string) (t t' : thread) (e : exn) :
  report_error_payload w c d t = (Raise e, t') -> t' = t.
Proof.
  unfold report_error_payload.
  destruct (json_loads w d) as [data |];
    [| unfold emit, modify; discriminate].
  unfold bind, emit, modify, raise, ret.
  destruct (truthy data); simpl.
  - destruct (has_key "message" data) as [[|] |]; simpl.
    + destruct (get_item "message" data); simpl; [discriminate |].
      intros H. inversion H. reflexivity.
    + discriminate.
    + intros H. inversion H. reflexivity.
  - discriminate.
Qed.

(** An attempt that does not connect and raises has recorded the call
    of [urlopen] and nothing else. *)
Lemma failed_attempt_trace (f : nat) (t t1 : thread) (e : exn) :
  not_connected (urlopen w (opens t)) = true ->
  attempt w f t = (Raise e, t1) ->
  trace t1 = trace (opened t).
Proof.
  intros H Ha.
  destruct (urlopen w (opens t)) as [c te raw | m | m] eqn:E; simpl in H.
  - assert (Hf : trace (flagged te (opened t)) = trace (opened t)).
    { unfold flagged. destruct (is_chunked te); reflexivity. }
    destruct (client_error c) eqn:Ec.
    + rewrite (attempt_client_error w f t c te raw E Ec) in Ha.
      unfold bind in Ha.
      pose proof (preserves_error_payload _
                    (trace_read_stable (trace (opened t))) f "init"
                    (flagged te (opened t)) Hf) as Hp.
      destruct (error_payload f "init" (flagged te (opened t)))
        as [[d | e' |] t2]; simpl in Hp; try discriminate.
      * destruct (report_error_payload w c d t2) as [[u | e2 |] t3]
          eqn:Er; try discriminate.
        inversion Ha; subst.
        rewrite (report_raise_keeps _ _ _ _ _ Er). exact Hp.
      * inversion Ha; subst. exact Hp.
    + rewrite (attempt_exponential w f t c te raw E) in Ha.
      * inversion Ha; subst. exact Hf.
      * unfold exponential. now rewrite H, Ec.
  - rewrite (attempt_url_error w f t m E) in Ha. discriminate.
  - rewrite (attempt_open_raises w f t m E) in Ha.
    inversion Ha. reflexivity.
Qed.

(** An attempt that connects leaves the delay reset, however it ends. *)
Lemma connected_attempt_resets_delay (f : nat) (t : thread) :
  not_connected (urlopen w (opens t)) = false ->
  connection_delay (snd (attempt w f t)) = 0.
Proof.
  intros H.
  destruct (urlopen w (opens t)) as [c te raw | m | m] eqn:E;
    simpl in H; try discriminate.
  apply negb_false_iff, Z.eqb_eq in H. subst c.
  rewrite (attempt_200 w f t te raw E).
  pose proof (preserves_read_stream _ w (delay_stream_stable 0) f
                (streaming te raw t) eq_refl) as Hp.
  unfold bind.
  destruct (_read_stream w f (streaming te raw t)) as [[u | e |] t2];
    exact Hp.
Qed.

Lemma trace_opened_entered (t : thread) :
  trace (opened (entered t))
  = trace t ++ slept (connection_delay t) ++ [EvConnecting].
Proof.
  unfold opened, entered, slept.
  destruct (0 <? connection_delay t); simpl;
    rewrite <- ?app_assoc; reflexivity.
Qed.

Lemma first_failure (f : nat) (t t1 : thread) (e : exn) :
  guard_open w t ->
  attempt w f (entered t) = (Raise e, t1) ->
  ordinary e = true ->
  run_while w (S f) t = goes_on w f e t1.
Proof.
  intros G Ha He.
  exact (proj1 (linear_failure_step w f t t1 e G Ha He)).
Qed.

Lemma linear_run_spec (rest : list (exn * thread)) :
  forall (f : nat) (e : exn) (t1 : thread),
    linear_run w f e t1 rest ->
    0 <= connection_delay t1 ->
    connection_delay t1 + Z.of_nat (List.length rest) <= 16 ->
    let en := last (map fst rest) e in
    let tn := last (map snd rest) t1 in
    goes_on w (List.length rest + f) e t1 = goes_on w f en tn
    /\ connection_delay tn
       = connection_delay t1 + Z.of_nat (List.length rest)
    /\ trace tn
       = trace t1
           ++ flat_map
                (fun p =>
                   let d := connection_delay t1 + Z.of_nat (fst p) + 1 in
                   [EvOnWarning (linear_warning (str (snd p)) d);
                    EvSleep d;
                    EvConnecting])
                (combine (seq 0 (List.length rest))
                         (e :: map fst rest)).
Proof.
  induction rest as [| [e' t1'] rest IH]; intros f e t1 Hr H0 Hd.
  - simpl. rewrite Z.add_0_r, app_nil_r. repeat split.
  - destruct Hr as (G & Hn & Ha & He & Hrest).
    simpl List.length in *. rewrite Nat2Z.inj_succ in Hd.
    assert (Hd1 : connection_delay t1' = connection_delay t1 + 1).
    { destruct (linear_failure_step w _ _ _ _ G Ha He) as (_ & Hk).
      rewrite (Hk Hn). reflexivity. }
    assert (Ht1 : trace t1'
                  = trace t1
                      ++ [EvOnWarning
                            (linear_warning (str e)
                               (connection_delay t1 + 1));
                          EvSleep (connection_delay t1 + 1);
                          EvConnecting]).
    { rewrite <- (opens_entered (retried e t1)) in Hn.
      rewrite (failed_attempt_trace _ _ _ _ Hn Ha), trace_opened_entered.
      unfold slept, retried. simpl connection_delay. simpl trace.
      destruct (Z.ltb_spec 0 (connection_delay t1 + 1)); [| lia].
      rewrite <- app_assoc. reflexivity. }
    destruct (IH f e' t1' Hrest) as (I1 & I2 & I3); [lia | lia |].
    cbv zeta in I1, I2, I3 |- *.
    change (map fst ((e', t1') :: rest)) with (e' :: map fst rest).
    change (map snd ((e', t1') :: rest)) with (t1' :: map snd rest).
    rewrite !last_cons. split; [| split].
    + rewrite <- I1. unfold goes_on at 1.
      destruct (Z.ltb_spec (connection_delay t1) 16); [| lia].
      exact (first_failure _ _ _ _ G Ha He).
    + rewrite I2, Hd1, Nat2Z.inj_succ. lia.
    + rewrite I3, Ht1. simpl seq. simpl combine. simpl flat_map.
      rewrite flat_map_combine_seq_S. rewrite <- app_assoc.
      rewrite Z.add_0_r. f_equal. cbn [app]. do 3 f_equal.
      apply flat_map_ext. intros [k x]. cbn [fst snd].
      rewrite Hd1, Nat2Z.inj_succ.
      replace (connection_delay t1 + 1 + Z.of_nat k + 1)
        with (connection_delay t1 + Z.succ (Z.of_nat k) + 1) by lia.
      reflexivity.
Qed.

(** C3.  A run of consecutive linear failures from a reset backoff
    state, whatever raises them (a call of [urlopen] that raises, a
    read that fails, a callback that raises): the [except Exception]
    clause has caught an ordinary exception [e0], raised by an attempt
    that started with the delay at zero or that connected (which
    resets it), and the failures of [rest] follow with no connection
    in between.  Then the retries wait 1, 2, 3, ... seconds, each
    after a warning that names the delay; as long as fewer than
    seventeen failures have occurred the loop goes on, with one more
    warning and the delay one more; at the seventeenth, which follows
    the wait of 16 seconds, an error is reported and the loop is left
    with no further attempt. *)
Theorem linear_backoff_1_to_16_then_fatal
        (f : nat) (t t0 : thread) (e0 : exn)
        (rest : list (exn * thread)) :
  guard_open w t ->
  attempt w (List.length rest + f) (entered t) = (Raise e0, t0) ->
  ordinary e0 = true ->
  connection_delay t = 0
  \/ not_connected (urlopen w (opens t)) = false ->
  linear_run w f e0 t0 rest ->
  (List.length rest <= 16)%nat ->
  let en := last (map fst rest) e0 in
  let tn := last (map snd rest) t0 in
  trace tn
  = trace t0
      ++ flat_map
           (fun p =>
              [EvOnWarning
                 (linear_warning (str (snd p)) (Z.of_nat (fst p) + 1));
               EvSleep (Z.of_nat (fst p) + 1);
               EvConnecting])
           (combine (seq 0 (List.length rest)) (e0 :: map fst rest))
  /\ connection_delay tn = Z.of_nat (List.length rest)
  /\ run_while w (S (List.length rest) + f) t
     = if (List.length rest <? 16)%nat
       then run_while w f (retried en tn)
       else (Ret tt,
             log_event (EvOnError (PStr (linear_fatal (str en)))) tn).
Proof.
  intros G Ha He Hreset Hrun Hlen en tn.
  assert (Hd0 : connection_delay t0 = 0).
  { destruct Hreset as [Hz | Hc].
    - destruct (not_connected (urlopen w (opens t))) eqn:Hn.
      + destruct (linear_failure_step w _ _ _ _ G Ha He) as (_ & Hk).
        rewrite (Hk Hn). exact Hz.
      + rewrite <- (opens_entered t) in Hn.
        pose proof (connected_attempt_resets_delay
                      (List.length rest + f) (entered t) Hn) as Hp.
        rewrite Ha in Hp. exact Hp.
    - rewrite <- (opens_entered t) in Hc.
      pose proof (connected_attempt_resets_delay
                    (List.length rest + f) (entered t) Hc) as Hp.
      rewrite Ha in Hp. exact Hp. }
  destruct (linear_run_spec rest f e0 t0 Hrun) as (H1 & H2 & H3);
    [lia | lia |].
  cbv zeta in H1, H2, H3. fold en in H1. fold tn in H1, H2, H3.
  rewrite Hd0 in H2, H3. split; [| split].
  - rewrite H3. reflexivity.
  - rewrite H2. lia.
  - change (S (List.length rest) + f)%nat
      with (S (List.length rest + f)).
    rewrite (first_failure _ _ _ _ G Ha He), H1. unfold goes_on.
    rewrite H2.
    destruct (Nat.ltb_spec (List.length rest) 16);
      destruct (Z.ltb_spec (0 + Z.of_nat (List.length rest)) 16);
      try lia; reflexivity.
Qed.

(** *** The 4xx branch on a worker without a socket *)

Lemma raw_read_without_socket (t : thread) :
  _sock t = None ->
  _raw_read t
  = (Raise (StdException
              "argument must be an int, or have a fileno() method."), t).
Proof. intros H. unfold _raw_read. rewrite H. reflexivity. Qed.

Lemma error_payload_without_socket (f : nat) (t : thread) :
  _sock t = None ->
  find_char LF (_buffer t) = -1 ->
  error_payload (3 + f) "init" t
  = (Raise (StdException
              "argument must be an int, or have a fileno() method."), t).
Proof.
  intros Hs Hb.
  assert (Hn : need_more 0 (_buffer t) = true).
  { unfold need_more. rewrite Hb. reflexivity. }
  assert (H1 : _raw_read_chunk_while (S f) 0 t
               = (Raise (StdException
                           "argument must be an int, or have a fileno() method."),
                  t)).
  { simpl. rewrite Hn.
    apply bind_raise, raw_read_without_socket, Hs. }
  assert (H2 : _read_chunk (S (S f)) t
               = (Raise (StdException
                           "argument must be an int, or have a fileno() method."),
                  t)).
  { unfold _read_chunk. apply bind_raise.
    change (_read_chunk_while (S (S f)) "" t)
      with ((l <- _raw_read_chunk (S f) 0 ;;
             _read_chunk_while (S f) l) t).
    apply bind_raise. unfold _raw_read_chunk. apply bind_raise.
    exact H1. }
  change (error_payload (3 + f) "init" t)
    with ((d <- _read_chunk (S (S f)) ;;
           error_payload (S (S f)) d) t).
  apply bind_raise. exact H2.
Qed.

(** C4.  What the code does with a client error on a worker that has
    not streamed before.  [self._sock] is assigned for status 200
    only, so with a status in 4xx other than 420, no socket and no
    complete line in the buffer, the first read of the error payload
    raises the [TypeError] of [select] on [None]: the response body is
    not read, no error is reported, and the [except Exception] clause
    takes the failure for a linear one, so that the loop warns and
    connects again (or gives up, when the delay had reached 16). *)
Theorem client_error_without_socket_is_retried
        (f : nat) (t : thread) (c : Z) (te : option string)
        (raw : socket) :
  guard_open w t ->
  _sock t = None ->
  find_char LF (_buffer t) = -1 ->
  urlopen w (opens t) = Response c te raw ->
  client_error c = true ->
  let e := StdException
             "argument must be an int, or have a fileno() method." in
  let t1 := flagged te (opened (entered t)) in
  attempt w (3 + f) (entered t) = (Raise e, t1)
  /\ errors (trace t1) = errors (trace t)
  /\ _buffer t1 = _buffer t
  /\ connection_delay t1 = connection_delay t
  /\ run_while w (4 + f) t
     = if connection_delay t <? 16
       then run_while w (3 + f) (retried e t1)
       else (Ret tt,
             log_event (EvOnError (PStr (linear_fatal (str e)))) t1).
Proof.
  intros G Hs Hb Hu Hc e t1.
  assert (Hd : connection_delay t1 = connection_delay t).
  { subst t1. unfold flagged, entered.
    destruct (is_chunked te), (0 <? connection_delay t); reflexivity. }
  assert (Ha : attempt w (3 + f) (entered t) = (Raise e, t1)).
  { rewrite (attempt_client_error w (3 + f) (entered t) c te raw
               (eq_trans (f_equal (urlopen w) (opens_entered t)) Hu) Hc).
    apply bind_raise. apply error_payload_without_socket.
    - unfold t1, flagged, entered.
      destruct (is_chunked te), (0 <? connection_delay t); exact Hs.
    - unfold t1, flagged, entered.
      destruct (is_chunked te), (0 <? connection_delay t); exact Hb. }
  split; [exact Ha |]. split; [| split; [| split]].
  - subst t1. unfold flagged, entered.
    destruct (is_chunked te), (0 <? connection_delay t); simpl;
      rewrite ?errors_app; simpl; rewrite ?app_nil_r; reflexivity.
  - subst t1. unfold flagged, entered.
    destruct (is_chunked te), (0 <? connection_delay t); reflexivity.
  - exact Hd.
  - change (4 + f)%nat with (S (3 + f)).
    rewrite (first_failure _ _ _ _ G Ha eq_refl). unfold goes_on.
    rewrite Hd. reflexivity.
Qed.

End Linear.

(** An instance: the stream of the first connection breaks, and the
    sixteen attempts that follow time out. *)
Lemma linear_backoff_1_to_16_then_fatal_witness :
  let w := drop_then_timeouts in
  let t := __init__ true in
  let e0 := LinearBackoffError "reset" in
  let t0 := snd (attempt w 16 (entered t)) in
  let rest := failures w 0 16 e0 t0 in
  let en := last (map fst rest) e0 in
  let tn := last (map snd rest) t0 in
  trace tn
  = trace t0
      ++ flat_map
           (fun p =>
              [EvOnWarning
                 (linear_warning (str (snd p)) (Z.of_nat (fst p) + 1));
               EvSleep (Z.of_nat (fst p) + 1);
               EvConnecting])
           (combine (seq 0 (List.length rest)) (e0 :: map fst rest))
  /\ connection_delay tn = Z.of_nat (List.length rest)
  /\ run_while w (S (List.length rest) + 0) t
     = if (List.length rest <? 16)%nat
       then run_while w 0 (retried en tn)
       else (Ret tt,
             log_event (EvOnError (PStr (linear_fatal (str en)))) tn).
Proof.
  intros w t e0 t0 rest.
  apply (linear_backoff_1_to_16_then_fatal w 0 t t0 e0 rest).
  - unfold guard_open. repeat split.
  - vm_compute. reflexivity.
  - reflexivity.
  - right. reflexivity.
  - vm_compute. repeat split.
  - vm_compute. apply le_n.
Defined.

(** The specification's own scenario: a fresh worker, a 404 whose body
    is [{"message":"Unknown hash"}]. *)
Lemma client_error_without_socket_is_retried_witness :
  let w := steady (Response 404 None
                     [Recv (unknown_hash_body ++ nl)%string]) in
  let t := __init__ true in
  let e := StdException
             "argument must be an int, or have a fileno() method." in
  let t1 := flagged None (opened (entered t)) in
  attempt w (3 + 0) (entered t) = (Raise e, t1)
  /\ errors (trace t1) = errors (trace t)
  /\ _buffer t1 = _buffer t
  /\ connection_delay t1 = connection_delay t
  /\ run_while w (4 + 0) t
     = if connection_delay t <? 16
       then run_while w (3 + 0) (retried e t1)
       else (Ret tt,
             log_event (EvOnError (PStr (linear_fatal (str e)))) t1).
Proof.
  intros w t.
  apply (client_error_without_socket_is_retried w 0 t 404 None
           [Recv (unknown_hash_body ++ nl)%string]).
  - unfold guard_open. repeat split.
  - reflexivity.
  - reflexivity.
  - reflexivity.
  - reflexivity.
Defined.

(** The same run, as the calls it makes. *)
Example drop_then_timeouts_trace :
  run_while drop_then_timeouts 17 (__init__ true)
  = (Ret tt, snd (run_while drop_then_timeouts 17 (__init__ true)))
  /\ trace (snd (run_while drop_then_timeouts 17 (__init__ true)))
     = [EvConnecting; EvOnConnect]
         ++ flat_map
              (fun d =>
                 [EvOnWarning
                    (linear_warning
                       (if d =? 1 then "reset" else "timed out") d);
                  EvSleep d;
                  EvConnecting])
              [1; 2; 3; 4; 5; 6; 7; 8; 9; 10; 11; 12; 13; 14; 15; 16]
         ++ [EvOnError
               (PStr "Connection failed (timed out), no more retries")].
Proof. vm_compute. split; reflexivity. Qed.

End LinearFacts.

Module Examples.
Import Py Worker Terms Scenarios WorkerFacts LoopFacts InvariantFacts
       ReconnectFacts.
Local Open Scope list_scope.

(** The 4xx branch with a payload at hand: the error payload is already
    in the buffer when the 404 arrives. *)
Lemma client_error_reports_payload_and_stops_witness :
  let w := steady (Response 404 None []) in
  let t := set_buffer (unknown_hash_body ++ nl)%string (__init__ true) in
  exists t',
    run_while w 4 t = (Ret tt, t')
    /\ errors (trace t') = [PStr "Unknown hash"]
    /\ attempts (trace t') = 1%nat.
Proof.
  intros w t.
  destruct (client_error_reports_payload_and_stops
              w 3 t 404 None [] unknown_hash_body
              (snd (error_payload 3 "init" (flagged None (opened (entered t))))))
    as (H1 & H2 & H3 & _).
  - unfold guard_open. repeat split.
  - reflexivity.
  - reflexivity.
  - vm_compute. reflexivity.
  - right. exists [("message", PStr "Unknown hash")]. reflexivity.
  - eexists. split; [exact H1 | split; [exact H2 | exact H3]].
Defined.

(** The whole run at that input.  A fresh worker whose request
    is answered 404 with the body [{"message":"Unknown hash"}] never
    reads that body: it has no socket (one is attached for status 200
    only), the read raises, the [except Exception] clause takes it for a
    linear failure, and the worker reconnects sixteen times before it
    reports that it gives up.  The error callback never sees
    ["Unknown hash"].

    And where a payload is read (here a line left in the buffer by an
    earlier connection) but is not JSON, the error reported is
    ["Connection failed: 404 [no error message]"], not the generic
    not-found one. *)
Lemma client_error_on_fresh_worker_is_retried :
  let w := steady (Response 404 None [Recv (unknown_hash_body ++ nl)%string]) in
  let r := run w 20 (__init__ true) in
  let r' := run (leftover_then_404 "Bad Request") 20 (__init__ true) in
  fst r = Ret tt
  /\ attempts (trace (snd r)) = 17%nat
  /\ firstn 4 (trace (snd r))
     = [EvConnecting;
        EvOnWarning
          "Connection failed (argument must be an int, or have a fileno() method.), retrying in 1 seconds";
        EvSleep 1;
        EvConnecting]
  /\ errors (trace (snd r))
     = [PStr
          "Connection failed (argument must be an int, or have a fileno() method.), no more retries"]
  /\ errors (trace (snd r)) <> [PStr "Unknown hash"]
  /\ errors (trace (snd r'))
     = [PStr "Connection failed: 404 [no error message]"]
  /\ errors (trace (snd r')) <> [PStr "Hash not found"].
Proof.
  vm_compute. repeat split; discriminate.
Qed.

(** The error payload is the first frame longer than four characters, not
    the first frame: with ["ab"] and ["Bad Request"] waiting in the
    buffer, both are taken out of it. *)
Example short_frames_are_skipped :
  let t := set_buffer ("ab" ++ nl ++ "Bad Request" ++ nl)%string
             (__init__ true) in
  error_payload 3 "init" t = (Ret "Bad Request", set_buffer "" t).
Proof. vm_compute. reflexivity. Qed.

(** An instance of C9: a worker with bytes left in its buffer and the
    chunked flag set connects again. *)
Lemma buffer_and_chunked_flag_survive_reconnects_witness :
  let w := steady (Response 200 None [Recv ("tial" ++ nl)%string]) in
  let t := set_chunked true (set_buffer "par" (__init__ true)) in
  _buffer (streaming None [Recv ("tial" ++ nl)%string] (entered t)) = "par"
  /\ _chunked (streaming None [Recv ("tial" ++ nl)%string] (entered t)) = true
  /\ _chunked (snd (run_while w 5 t)) = true.
Proof.
  intros w t.
  destruct (buffer_and_chunked_flag_survive_reconnects
              w 5 t (StdException "") None [Recv ("tial" ++ nl)%string])
    as (_ & H2 & _ & _ & H5).
  destruct H2 as (_ & Hb & Hc).
  - unfold guard_open. repeat split.
  - reflexivity.
  - destruct H5 as (_ & _ & Hr & _); [reflexivity |].
    split; [exact Hb | split; [exact Hc | exact Hr]].
Defined.

(** The same on a whole run: the first connection breaks after ["par"],
    the second delivers ["tial\n"], and the frame handed to the data
    callback is ["partial"]. *)
Example leftover_bytes_start_the_next_frame :
  trace (snd (run broken_line_resumed 9 (__init__ true)))
  = [EvConnecting; EvOnConnect;
     EvOnWarning "Connection failed (connection reset), retrying in 1 seconds";
     EvSleep 1;
     EvConnecting; EvOnConnect;
     EvOnData "partial";
     EvSockClose; EvOnDisconnect].
Proof. vm_compute. reflexivity. Qed.

(** An instance of C10: the data callback raises on the second frame. *)
Lemma data_callback_exception_is_a_linear_failure_witness :
  let w := callback_raises_on_B in
  let t := __init__ true in
  exists t2,
    run_while w 6 t
    = run_while w 5
        (log_event
           (EvOnWarning "Connection failed (boom), retrying in 1 seconds")
           (set_delay 1 t2))
    /\ trace t2 = [EvConnecting; EvOnConnect; EvOnData "A"; EvOnData "B"]
    /\ connection_delay t2 = 0.
Proof.
  intros w t.
  pose (raw := [Recv ("A" ++ nl ++ "B" ++ nl)%string]).
  pose (t2 := snd (_read_stream w 5 (streaming None raw (entered t)))).
  destruct (data_callback_exception_is_a_linear_failure
              w 5 t t t2 t None raw "" (StdException "boom"))
    as (_ & HB & _).
  exists t2. split; [| split].
  - apply HB.
    + unfold guard_open. repeat split.
    + reflexivity.
    + vm_compute. reflexivity.
    + reflexivity.
  - vm_compute. reflexivity.
  - vm_compute. reflexivity.
Defined.

(** An exception that is not of class [Exception] does leave [run]. *)
Example keyboard_interrupt_leaves_run :
  let w := {| is_running := fun _ _ => true;
              stop_signal := fun _ => false;
              urlopen := fun _ => Response 200 None [Recv ("A" ++ nl)%string];
              on_data := fun _ => Some (NonException "KeyboardInterrupt");
              json_loads := fun _ => None |} in
  fst (run w 5 (__init__ true)) = Raise (NonException "KeyboardInterrupt").
Proof. vm_compute. reflexivity. Qed.

(** The module's own [ExponentialBackoffError], were a callback to raise
    it, is taken by the first [except] clause. *)
Example exponential_signal_from_callback :
  let w := {| is_running := fun _ k => Nat.ltb k 2;
              stop_signal := fun _ => false;
              urlopen := fun _ => Response 200 None [Recv ("A" ++ nl)%string];
              on_data := fun _ => Some (ExponentialBackoffError "x");
              json_loads := fun _ => None |} in
  trace (snd (run w 5 (__init__ true)))
  = [EvConnecting; EvOnConnect; EvOnData "A";
     EvOnWarning "x, retrying in 10 seconds";
     EvSockClose; EvOnDisconnect].
Proof. vm_compute. reflexivity. Qed.

(** A linear failure that follows a 200 starts from the reset delay
    again: a stream that breaks after every connection is retried after
    one second each time. *)
Example read_failures_after_connect_restart_the_count :
  let w := {| is_running := fun _ k => Nat.ltb k 6;
              stop_signal := fun _ => false;
              urlopen := fun _ => Response 200 None [RecvError "reset"];
              on_data := fun _ => None;
              json_loads := fun _ => None |} in
  trace (snd (run w 9 (__init__ true)))
  = [EvConnecting; EvOnConnect;
     EvOnWarning "Connection failed (reset), retrying in 1 seconds";
     EvSleep 1;
     EvConnecting; EvOnConnect;
     EvOnWarning "Connection failed (reset), retrying in 1 seconds";
     EvSleep 1;
     EvConnecting; EvOnConnect;
     EvOnWarning "Connection failed (reset), retrying in 1 seconds";
     EvSockClose; EvOnDisconnect].
Proof. vm_compute. reflexivity. Qed.

End Examples.

(* ------------------------------------------------------------------ *)
(** ** More on the chunk decoder                                       *)
(* ------------------------------------------------------------------ *)

Module FramingFacts.
Import Py Worker Terms Scenarios DecoderFacts WorkerFacts.

(** *** Searching and cutting strings *)

Lemma find_char_range (c : ascii) (s : string) :
  -1 <= find_char c s < len s \/ (find_char c s = -1 /\ s = "").
Proof.
  induction s as [| a s IH]; simpl.
  - right. split; reflexivity.
  - left. unfold len in *. simpl String.length.
    destruct (Ascii.eqb a c); [lia |].
    destruct IH as [IH | (IH & ->)].
    + destruct (Z.ltb_spec (find_char c s) 0); lia.
    + rewrite IH. simpl. lia.
Qed.

Lemma find_char_app (c : ascii) (line rest : string) :
  find_char c line = -1 ->
  find_char c (line ++ String c rest) = len line.
Proof.
  induction line as [| a line IH]; simpl; intros H.
  - now rewrite Ascii.eqb_refl.
  - destruct (Ascii.eqb a c); [discriminate |].
    destruct (Z.ltb_spec (find_char c line) 0) as [Hn | Hn].
    + assert (E : find_char c line = -1).
      { destruct (find_char_range c line) as [R | (R & _)]; lia. }
      rewrite (IH E). unfold len. simpl String.length.
      destruct (Z.ltb_spec (Z.of_nat (String.length line)) 0); lia.
    + lia.
Qed.

Lemma find_char_take (c : ascii) (s : string) :
  0 <= find_char c s ->
  find_char c (take (Z.to_nat (find_char c s)) s) = -1.
Proof.
  induction s as [| a s IH]; simpl; intros H.
  - lia.
  - destruct (Ascii.eqb a c) eqn:E; [reflexivity |].
    destruct (Z.ltb_spec (find_char c s) 0) as [Hn | Hn]; [lia |].
    replace (Z.to_nat (find_char c s + 1))
      with (S (Z.to_nat (find_char c s))) by lia.
    simpl. rewrite E, (IH Hn). reflexivity.
Qed.

Lemma len_app (a b : string) : len (a ++ b) = len a + len b.
Proof.
  unfold len. induction a as [| x a IH]; simpl String.length; lia.
Qed.

Lemma take_app (a b : string) : take (String.length a) (a ++ b) = a.
Proof. induction a as [| x a IH]; simpl; [now destruct b | now rewrite IH]. Qed.

Lemma drop_app (a b : string) : drop (String.length a) (a ++ b) = b.
Proof. induction a as [| x a IH]; simpl; [reflexivity | exact IH]. Qed.

Lemma slice_app (a b : string) : slice (a ++ b) 0 (len a) = a.
Proof.
  rewrite slice_prefix.
  - unfold len. rewrite Nat2Z.id. apply take_app.
  - rewrite len_app. unfold len. lia.
Qed.

Lemma slice_from_app (a b : string) (x : ascii) :
  slice_from (a ++ String x b) (len a + 1) = b.
Proof.
  rewrite slice_from_next.
  - unfold len. rewrite Nat2Z.id, drop_app. reflexivity.
  - rewrite len_app. unfold len. lia.
Qed.

Lemma len_zero (s : string) : len s = 0 <-> s = "".
Proof.
  unfold len. destruct s; simpl String.length; split; intros H;
    try reflexivity; try discriminate; lia.
Qed.

(** *** Reading a line *)

(** With a complete line in the buffer, [_raw_read_chunk()] returns it
    without touching the socket and takes it and its newline out. *)
Lemma raw_read_chunk_line (f : nat) (t : thread) (line rest : string) :
  _buffer t = line ++ String LF rest ->
  find_char LF line = -1 ->
  _raw_read_chunk f 0 t = (Ret line, set_buffer rest t).
Proof.
  intros Hb Hl.
  pose proof (find_char_app LF line rest Hl) as Hf.
  assert (Hlen : 0 <= len line) by (unfold len; lia).
  assert (Hw : _raw_read_chunk_while f 0 t = (Ret tt, t)).
  { destruct f; simpl; unfold need_more; rewrite Hb, Hf;
      destruct (Z.eqb_spec (len line) (-1)); try lia; reflexivity. }
  unfold _raw_read_chunk, bind. rewrite Hw. simpl.
  rewrite Hb, Hf, slice_app, slice_from_app. reflexivity.
Qed.

(** Whatever [_raw_read_chunk()] returns holds no newline. *)
Lemma raw_read_chunk_no_newline (f : nat) (t t' : thread) (l : string) :
  _raw_read_chunk f 0 t = (Ret l, t') -> find_char LF l = -1.
Proof.
  unfold _raw_read_chunk, bind. intros H.
  destruct (_raw_read_chunk_while f 0 t) as [[u | e |] t1] eqn:E;
    try discriminate.
  assert (Hx : need_more 0 (_buffer t1) = false).
  { clear H. revert t E. induction f as [| f IH]; intros t E; simpl in E.
    - destruct (need_more 0 (_buffer t)) eqn:N; [discriminate |].
      inversion E; subst. exact N.
    - destruct (need_more 0 (_buffer t)) eqn:N.
      + unfold bind in E.
        destruct (_raw_read t) as [[u0 | e0 |] t0]; try discriminate.
        exact (IH _ E).
      + inversion E; subst. exact N. }
  unfold need_more in Hx. simpl in Hx, H.
  rewrite orb_false_r in Hx. apply Z.eqb_neq in Hx.
  inversion H; subst.
  assert (Hr : 0 <= find_char LF (_buffer t1)).
  { destruct (find_char_range LF (_buffer t1)) as [R | (R & _)]; lia. }
  rewrite slice_prefix.
  - apply find_char_take. exact Hr.
  - destruct (find_char_range LF (_buffer t1)) as [R | (R & _)]; lia.
Qed.

Section Framing.
Variable w : world.

(** A complete non-empty line at the head of the buffer. *)
Lemma read_chunk_first_line
      (f : nat) (t : thread) (line rest : string) :
  _chunked t = false ->
  _buffer t = line ++ String LF rest ->
  line <> "" ->
  find_char LF line = -1 ->
  _read_chunk (S f) t = (Ret line, set_buffer rest t).
Proof.
  intros Hc Hb Hne Hl.
  assert (Hlen : (len line =? 0) = false).
  { apply Z.eqb_neq. intros E. apply len_zero in E. contradiction. }
  assert (Hw : _read_chunk_while (S f) "" t
               = (Ret line, set_buffer rest t)).
  { simpl.
    rewrite (bind_ret _ _ _ _ _ (raw_read_chunk_line f t line rest Hb Hl)).
    destruct f; simpl; rewrite Hlen; reflexivity. }
  unfold _read_chunk. rewrite (bind_ret _ _ _ _ _ Hw).
  unfold bind, gets. simpl. rewrite Hc. reflexivity.
Qed.

(** X1.  Identity framing, one frame.  On a connection that is not
    chunked, with any number of empty lines and then a complete
    non-empty line in the buffer, [_read_chunk] returns that line,
    without its newline and without reading from the socket; the empty
    lines, the line and its newline leave the buffer, the rest stays. *)
Theorem read_chunk_identity_line
        (k f : nat) (t : thread) (line rest : string) :
  _chunked t = false ->
  _buffer t = Nat.iter k (String LF) (line ++ String LF rest) ->
  line <> "" ->
  find_char LF line = -1 ->
  _read_chunk (S k + f) t = (Ret line, set_buffer rest t).
Proof.
  intros Hc Hb Hne Hl.
  assert (Hlen : (len line =? 0) = false).
  { apply Z.eqb_neq. intros E. apply len_zero in E. contradiction. }
  assert (Hw : _read_chunk_while (S k + f) "" t
               = (Ret line, set_buffer rest t)).
  { revert t Hc Hb. induction k as [| k IH]; intros t Hc Hb.
    - simpl in Hb. simpl.
      rewrite (bind_ret _ _ _ _ _ (raw_read_chunk_line f t line rest Hb Hl)).
      destruct f; simpl; rewrite Hlen; reflexivity.
    - assert (Hb' : _buffer t
                    = "" ++ String LF
                              (Nat.iter k (String LF)
                                 (line ++ String LF rest))) by exact Hb.
      change (S (S k) + f)%nat with (S (S k + f)).
      change (_read_chunk_while (S (S k + f)) "" t)
        with ((l <- _raw_read_chunk (S k + f) 0 ;;
               _read_chunk_while (S k + f) l) t).
      rewrite (bind_ret _ _ _ _ _
                 (raw_read_chunk_line (S k + f) t ""
                    (Nat.iter k (String LF) (line ++ String LF rest))
                    Hb' eq_refl)).
      rewrite (IH (set_buffer
                     (Nat.iter k (String LF) (line ++ String LF rest)) t)
                  Hc eq_refl).
      destruct t; reflexivity. }
  unfold _read_chunk. rewrite (bind_ret _ _ _ _ _ Hw).
  unfold bind, gets. simpl. rewrite Hc. reflexivity.
Qed.

(** X2.  Identity framing never yields an empty frame nor one that
    holds a newline, whatever the buffer and the socket hold. *)
Theorem read_chunk_identity_frame_shape
        (f : nat) (t t' : thread) (l : string) :
  _chunked t = false ->
  _read_chunk f t = (Ret l, t') ->
  l <> "" /\ find_char LF l = -1 /\ _chunked t' = false.
Proof.
  intros Hc H.
  assert (Hw : forall f l0 t0 l1 t1,
             _read_chunk_while f l0 t0 = (Ret l1, t1) ->
             find_char LF l0 = -1 ->
             l1 <> "" /\ find_char LF l1 = -1).
  { clear. induction f as [| f IH]; intros l0 t0 l1 t1 H Hl0; simpl in H.
    - destruct (Z.eqb_spec (len l0) 0) as [E | E]; [discriminate |].
      inversion H; subst. split; auto.
      intros ->. apply E. reflexivity.
    - destruct (Z.eqb_spec (len l0) 0) as [E | E].
      + unfold bind in H.
        destruct (_raw_read_chunk f 0 t0) as [[l2 | e |] t2] eqn:R;
          try discriminate.
        exact (IH _ _ _ _ H (raw_read_chunk_no_newline _ _ _ _ R)).
      + inversion H; subst. split; auto.
        intros ->. apply E. reflexivity. }
  assert (Hk : _chunked (snd (_read_chunk_while f "" t)) = false).
  { apply (InvariantFacts.preserves_read_chunk_while
             (fun x => _chunked x = false)); [| exact Hc].
    split; intros; assumption. }
  unfold _read_chunk, bind in H.
  destruct (_read_chunk_while f "" t) as [[l1 | e |] t1] eqn:R;
    try discriminate.
  destruct (Hw _ _ _ _ _ R eq_refl) as (A & B).
  simpl in Hk. unfold gets in H. rewrite Hk in H. simpl in H.
  inversion H; subst. repeat split; auto.
Qed.

Lemma read_chunk_after_line (f : nat) (t t1 : thread) (l : string) :
  _read_chunk_while f "" t = (Ret l, t1) ->
  _read_chunk f t
  = if negb (_chunked t1) then (Ret l, t1)
    else match int16 l with
         | None =>
             (Raise (StdException (int16_error l)), t1)
         | Some n => _raw_read_chunk f n t1
         end.
Proof.
  intros H. unfold _read_chunk. rewrite (bind_ret _ _ _ _ _ H).
  unfold bind at 1, gets. destruct (_chunked t1); simpl; [| reflexivity].
  destruct (int16 l); reflexivity.
Qed.

(** X3.  Chunked framing, one chunk.  On a chunked connection, with a
    size line, a payload of the announced positive length and one more
    byte in the buffer, [_read_chunk] returns the payload, without
    reading from the socket; size line, payload and the byte after the
    payload (whatever it is) leave the buffer, the rest stays. *)
Theorem read_chunk_chunked_payload
        (f : nat) (t : thread) (size payload rest : string)
        (x : ascii) (n : Z) :
  _chunked t = true ->
  _buffer t = size ++ String LF (payload ++ String x rest) ->
  size <> "" ->
  find_char LF size = -1 ->
  int16 size = Some n ->
  0 < n ->
  len payload = n ->
  _read_chunk (S f) t = (Ret payload, set_buffer rest t).
Proof.
  intros Hc Hb Hne Hl Hi Hn Hp.
  assert (Hlen : (len size =? 0) = false).
  { apply Z.eqb_neq. intros E. apply len_zero in E. contradiction. }
  assert (Hw : _read_chunk_while (S f) "" t
               = (Ret size, set_buffer (payload ++ String x rest) t)).
  { simpl.
    rewrite (bind_ret _ _ _ _ _
               (raw_read_chunk_line f t size _ Hb Hl)).
    destruct f; simpl; rewrite Hlen; reflexivity. }
  rewrite (read_chunk_after_line _ _ _ _ Hw).
  change (_chunked (set_buffer (payload ++ String x rest) t))
    with (_chunked t).
  rewrite Hc, Hi. simpl negb. cbv iota.
  unfold _raw_read_chunk, bind.
  rewrite raw_read_chunk_while_skipped;
    [| exact Hn
     | change (_buffer (set_buffer (payload ++ String x rest) t))
         with (payload ++ String x rest);
       rewrite len_app; unfold len in *; simpl String.length; lia].
  destruct (Z.eqb_spec n 0); [lia |].
  change (_buffer (set_buffer (payload ++ String x rest) t))
    with (payload ++ String x rest).
  rewrite <- Hp, slice_app, slice_from_app.
  destruct t; reflexivity.
Qed.

(** X4.  A size line that parses to zero makes [_read_chunk] return
    the next line of the buffer as the frame, whatever that line is. *)
Theorem read_chunk_chunked_zero_size
        (f : nat) (t : thread) (size line rest : string) :
  _chunked t = true ->
  _buffer t = size ++ String LF (line ++ String LF rest) ->
  size <> "" ->
  find_char LF size = -1 ->
  int16 size = Some 0 ->
  find_char LF line = -1 ->
  _read_chunk (S f) t = (Ret line, set_buffer rest t).
Proof.
  intros Hc Hb Hne Hl Hi Hline.
  assert (Hlen : (len size =? 0) = false).
  { apply Z.eqb_neq. intros E. apply len_zero in E. contradiction. }
  assert (Hw : _read_chunk_while (S f) "" t
               = (Ret size, set_buffer (line ++ String LF rest) t)).
  { simpl.
    rewrite (bind_ret _ _ _ _ _
               (raw_read_chunk_line f t size _ Hb Hl)).
    destruct f; simpl; rewrite Hlen; reflexivity. }
  rewrite (read_chunk_after_line _ _ _ _ Hw).
  change (_chunked (set_buffer (line ++ String LF rest) t))
    with (_chunked t).
  rewrite Hc, Hi. simpl negb. cbv iota.
  rewrite (raw_read_chunk_line (S f)
             (set_buffer (line ++ String LF rest) t) line rest
             eq_refl Hline).
  destruct t; reflexivity.
Qed.

(** X5.  Identity framing, a whole stream.  With complete non-empty
    lines in the buffer of a connection that is not chunked, and while
    the consumer runs, nobody asks the worker to stop and the data
    callback returns, [_read_stream] hands the lines to the data
    callback one by one, in order and without their newlines, and
    leaves in the buffer what follows the last of them. *)
Theorem read_stream_identity_lines (lines : list string) :
  forall (f : nat) (t : thread) (rest : string),
    _chunked t = false ->
    _stop_requested t = false ->
    _buffer t = fold_right (fun l acc => l ++ String LF acc) rest lines ->
    Forall (fun l => l <> "" /\ find_char LF l = -1) lines ->
    (forall k, (k < List.length lines)%nat ->
               is_running w false (polls t + k) = true
               /\ stop_signal w (polls t + k) = false) ->
    (forall l, In l lines -> on_data w l = None) ->
    exists t',
      _read_stream w (List.length lines + S f) t = _read_stream w (S f) t'
      /\ trace t' = (trace t ++ map EvOnData lines)%list
      /\ _buffer t' = rest
      /\ _sock t' = _sock t.
Proof.
  induction lines as [| l ls IH]; intros f t rest Hc Hs Hb Hall Hw Hd.
  - exists t. simpl. rewrite app_nil_r. repeat split; auto.
  - inversion Hall as [| ? ? (Hne & Hl) Hall']; subst.
    destruct (Hw 0%nat) as (Hr0 & Hs0); [simpl; lia |].
    rewrite Nat.add_0_r in Hr0, Hs0.
    assert (Hc1 : _read_chunk (List.length ls + S f) (observe false t)
                  = (Ret l,
                     set_buffer
                       (fold_right (fun l acc => l ++ String LF acc)
                          rest ls)
                       (observe false t))).
    { rewrite Nat.add_succ_r.
      apply (read_chunk_first_line (List.length ls + f));
        [exact Hc | exact Hb | exact Hne | exact Hl]. }
    destruct (IH f
                (log_event (EvOnData l)
                   (set_buffer
                      (fold_right (fun l acc => l ++ String LF acc)
                         rest ls)
                      (observe false t)))
                rest) as (t' & Hrun & Ht & Hbuf & Hsock).
    + exact Hc.
    + simpl. rewrite Hs. reflexivity.
    + reflexivity.
    + exact Hall'.
    + intros k Hk. simpl polls.
      replace (S (polls t) + k)%nat with (polls t + S k)%nat by lia.
      apply Hw. simpl. lia.
    + intros l0 Hl0. apply Hd. now right.
    + exists t'. split; [| split; [| split]].
      * simpl List.length. simpl Nat.add.
        rewrite (read_stream_delivers w _ t _ l Hr0 Hs0 Hs Hc1
                   (Hd l (or_introl eq_refl))).
        exact Hrun.
      * rewrite Ht. simpl. rewrite <- app_assoc. reflexivity.
      * exact Hbuf.
      * rewrite Hsock. reflexivity.
Qed.

(** *** Nothing is lost by a read that does not complete *)





End Framing.

(** Instances: three lines on an identity connection, a hexadecimal size
    line, and a read cut short by a socket error. *)
Lemma read_chunk_identity_line_witness :
  let t := set_buffer (nl ++ nl ++ "A" ++ nl ++ "B" ++ nl) (__init__ true) in
  _read_chunk 3 t = (Ret "A", set_buffer ("B" ++ nl) t).
Proof.
  intros t.
  apply (read_chunk_identity_line 2 0 t "A" ("B" ++ nl));
    [reflexivity | reflexivity | discriminate | reflexivity].
Defined.

Lemma read_chunk_identity_frame_shape_witness :
  let t := set_buffer (nl ++ "A" ++ nl) (__init__ true) in
  "A" <> "" /\ find_char LF "A" = -1.
Proof.
  intros t.
  destruct (read_chunk_identity_frame_shape 3 t (set_buffer "" t) "A")
    as (H1 & H2 & _); [reflexivity | reflexivity |].
  split; assumption.
Defined.

Lemma read_chunk_chunked_payload_witness :
  let t := set_chunked true
             (set_buffer ("1a" ++ nl ++ "abcdefghijklmnopqrstuvwxyz" ++ nl
                            ++ "0" ++ nl ++ nl)
                (__init__ true)) in
  _read_chunk 1 t
  = (Ret "abcdefghijklmnopqrstuvwxyz", set_buffer ("0" ++ nl ++ nl) t).
Proof.
  intros t.
  apply (read_chunk_chunked_payload 0 t "1a" "abcdefghijklmnopqrstuvwxyz"
           ("0" ++ nl ++ nl) LF 26);
    try reflexivity; try discriminate.
Defined.

Lemma read_chunk_chunked_zero_size_witness :
  let t := set_chunked true
             (set_buffer ("0" ++ nl ++ "trailer" ++ nl) (__init__ true)) in
  _read_chunk 1 t = (Ret "trailer", set_buffer "" t).
Proof.
  intros t.
  apply (read_chunk_chunked_zero_size 0 t "0" "trailer" "");
    try reflexivity; try discriminate.
Defined.

Lemma read_stream_identity_lines_witness :
  let w := steady (URLError "") in
  let t := set_buffer ("A" ++ nl ++ "B" ++ nl ++ "C" ++ nl) (__init__ true) in
  exists t',
    _read_stream w 4 t = _read_stream w 1 t'
    /\ trace t' = [EvOnData "A"; EvOnData "B"; EvOnData "C"]
    /\ _buffer t' = "".
Proof.
  intros w t.
  destruct (read_stream_identity_lines w ["A"; "B"; "C"] 0 t "")
    as (t' & H1 & H2 & H3 & _); try reflexivity.
  - repeat constructor; discriminate.
  - intros k _. split; reflexivity.
  - exists t'. repeat split; assumption.
Defined.


End FramingFacts.

(* ------------------------------------------------------------------ *)
(** ** More on the supervisor                                          *)
(* ------------------------------------------------------------------ *)

Module HashFacts.
Import Supervisor SupervisorFacts.
Local Open Scope list_scope.

Lemma remove_last (h : string) (l : list string) :
  ~ In h l -> remove h (l ++ [h]) = Some l.
Proof.
  induction l as [| x l IH]; simpl; intros H.
  - now rewrite String.eqb_refl.
  - destruct (String.eqb_spec x h) as [-> | Hx]; [tauto |].
    rewrite IH by tauto. reflexivity.
Qed.

Lemma remove_present (h : string) (l : list string) :
  In h l -> exists l', remove h l = Some l'.
Proof.
  induction l as [| x l IH]; simpl; intros H; [contradiction |].
  destruct (String.eqb_spec x h) as [-> | Hx]; [now exists l |].
  destruct IH as (l' & ->); [tauto |]. now exists (x :: l').
Qed.

Lemma remove_In (h : string) (l l' : list string) (x : string) :
  remove h l = Some l' -> In x l' -> In x l.
Proof.
  revert l'. induction l as [| y l IH]; simpl; intros l' H Hx;
    [discriminate |].
  destruct (String.eqb y h).
  - inversion H; subst. now right.
  - destruct (remove h l) as [l0 |]; [| discriminate].
    inversion H; subst. destruct Hx as [-> | Hx]; [now left |].
    right. exact (IH l0 eq_refl Hx).
Qed.

Lemma remove_other (h : string) (l l' : list string) (x : string) :
  remove h l = Some l' -> x <> h -> In x l -> In x l'.
Proof.
  revert l'. induction l as [| y l IH]; simpl; intros l' H Hn Hx;
    [discriminate |].
  destruct (String.eqb_spec y h) as [-> | Hy].
  - inversion H; subst. destruct Hx as [-> | Hx]; [contradiction | exact Hx].
  - destruct (remove h l) as [l0 |]; [| discriminate].
    inversion H; subst. destruct Hx as [-> | Hx]; [now left |].
    right. exact (IH l0 eq_refl Hn Hx).
Qed.

Lemma remove_NoDup (h : string) (l l' : list string) :
  remove h l = Some l' -> NoDup l -> NoDup l' /\ ~ In h l'.
Proof.
  revert l'. induction l as [| y l IH]; simpl; intros l' H Hd;
    [discriminate |].
  inversion Hd as [| ? ? Hy Hd']; subst.
  destruct (String.eqb_spec y h) as [-> | Hn].
  - inversion H; subst. split; assumption.
  - destruct (remove h l) as [l0 |] eqn:E; [| discriminate].
    inversion H; subst. destruct (IH l0 eq_refl Hd') as (A & B).
    split.
    + constructor; [| exact A]. intros Hin. apply Hy.
      exact (remove_In h l l0 y E Hin).
    + intros [-> | Hin]; [now apply Hn | now apply B].
Qed.

Section Hashes.
Variable w : world.

(** A restart leaves the hashes alone, however it ends. *)
Lemma restart_thread_hashes (fuel : nat) (c : consumer) :
  _hashes (snd (restart_thread w fuel c)) = _hashes c.
Proof.
  unfold restart_thread. simpl.
  destruct (restart_thread_while_spec w fuel (spawned c) (snd (spawn c)))
    as (evs & _ & _ & _ & _ & Hh).
  simpl in Hh.
  destruct (restart_thread_while w fuel (spawned c) _) as [r c2].
  simpl in Hh.
  destruct r as [u | m |]; [destruct (_thread c2) |  |]; simpl;
    exact Hh.
Qed.

(** What [add_or_remove_hash] leaves in [_hashes], however it ends. *)
Lemma hashes_after (fuel : nat) (h : string) (is_add fr : bool)
      (c : consumer) :
  _hashes (snd (add_or_remove_hash w fuel h is_add fr c))
  = if is_add then
      if mem h (_hashes c) then _hashes c else _hashes c ++ [h]
    else
      match remove h (_hashes c) with
      | Some l => l
      | None => _hashes c
      end.
Proof.
  unfold add_or_remove_hash.
  destruct is_add; simpl.
  - destruct (mem h (_hashes c)) eqn:M; simpl; [reflexivity |].
    destruct fr; [| reflexivity].
    pose proof (restart_thread_hashes fuel
                  (set_hashes (_hashes c ++ [h]) c)) as R.
    destruct (restart_thread w fuel _) as [[u | m |] c2]; exact R.
  - rewrite andb_true_r.
    destruct (mem h (_hashes c)) eqn:M; simpl.
    + apply mem_In in M. destruct (remove_present h _ M) as (l' & E).
      rewrite E. destruct fr; [| reflexivity].
      pose proof (restart_thread_hashes fuel (set_hashes l' c)) as R.
      destruct (restart_thread w fuel _) as [[u | m |] c2]; exact R.
    + destruct (remove h (_hashes c)) eqn:E; [| reflexivity].
      apply not_mem_In in M. exfalso.
      clear - M E. revert l E.
      induction (_hashes c) as [| y l0 IH]; simpl; intros l E;
        [discriminate |].
      destruct (String.eqb_spec y h) as [-> | Hn];
        [apply M; now left |].
      destruct (remove h l0) as [l1 |]; [| discriminate].
      apply (IH (fun H => M (or_intror H)) l1 eq_refl).
Qed.

(** X7.  After [add_or_remove_hash(hash, is_add=True)], however the
    call ends (also when the restart it triggers fails or never
    returns), the tracked hashes are the ones tracked before together
    with [hash], and a list without duplicates stays without
    duplicates. *)
Theorem add_hash_tracks
        (fuel : nat) (h : string) (fr : bool) (c : consumer) :
  let c' := snd (add_or_remove_hash w fuel h true fr c) in
  (forall x, In x (_hashes c') <-> x = h \/ In x (_hashes c))
  /\ (NoDup (_hashes c) -> NoDup (_hashes c')).
Proof.
  intros c'. subst c'. rewrite hashes_after.
  destruct (mem h (_hashes c)) eqn:M.
  - apply mem_In in M. split; [| auto].
    intros x. split; [auto | intros [-> | H]; assumption].
  - apply not_mem_In in M. split.
    + intros x. rewrite in_app_iff. simpl.
      split; [intros [H1 | [H1 | []]] | intros [H1 | H1]]; auto.
    + intros Hd. apply NoDup_app; [exact Hd | repeat constructor; auto |].
      intros a Ha [<- | []]. contradiction.
Qed.

(** X8.  After [add_or_remove_hash(hash, is_add=False)] on a list of
    hashes without duplicates, however the call ends, the tracked
    hashes are the ones tracked before other than [hash], still without
    duplicates. *)
Theorem remove_hash_untracks
        (fuel : nat) (h : string) (fr : bool) (c : consumer) :
  NoDup (_hashes c) ->
  let c' := snd (add_or_remove_hash w fuel h false fr c) in
  (forall x, In x (_hashes c') <-> x <> h /\ In x (_hashes c))
  /\ NoDup (_hashes c').
Proof.
  intros Hd c'. subst c'. rewrite hashes_after.
  destruct (remove h (_hashes c)) as [l |] eqn:E.
  - destruct (remove_NoDup h _ l E Hd) as (A & B). split; [| exact A].
    intros x. split.
    + intros Hx. split; [intros -> ; contradiction |].
      exact (remove_In h _ l x E Hx).
    + intros (Hn & Hx). exact (remove_other h _ l x E Hn Hx).
  - split; [| exact Hd].
    intros x. split.
    + intros Hx. split; [| exact Hx]. intros ->.
      destruct (remove_present h _ Hx) as (l' & E'). congruence.
    + tauto.
Qed.

(** X9.  Staging: with [force_restart=False], adding a hash that is
    not tracked and then removing it again both return [True] and give
    back the consumer as it was, with no thread spawned, polled or
    stopped. *)
Theorem staged_add_then_remove
        (f1 f2 : nat) (h : string) (c : consumer) :
  ~ In h (_hashes c) ->
  exists c1,
    add_or_remove_hash w f1 h true false c = (Ret true, c1)
    /\ _hashes c1 = _hashes c ++ [h]
    /\ _thread c1 = _thread c
    /\ trace c1 = trace c
    /\ add_or_remove_hash w f2 h false false c1 = (Ret true, c).
Proof.
  intros H. pose proof H as M. apply not_mem_In in M.
  exists (set_hashes (_hashes c ++ [h]) c).
  split; [| split; [| split; [| split]]]; try reflexivity.
  - unfold add_or_remove_hash. rewrite M. reflexivity.
  - unfold add_or_remove_hash. simpl _hashes.
    assert (M1 : mem h (_hashes c ++ [h]) = true).
    { apply mem_In, in_or_app. right. now left. }
    rewrite M1. simpl. rewrite (remove_last h _ H).
    destruct c; reflexivity.
Qed.

(** X10.  A change with [force_restart=True] on a started consumer,
    when the replacement thread does connect: the call returns [True],
    the hashes are changed, the replacement is the current thread and
    the previous one has been told to stop. *)
Theorem add_with_restart_swaps_thread
        (k fuel : nat) (h : string) (c : consumer) (old : tid) :
  ~ In h (_hashes c) ->
  _thread c = Some old ->
  has_connected w (spawned c) (reads c + k) = true ->
  exists c',
    add_or_remove_hash w (k + fuel) h true true c = (Ret true, c')
    /\ _hashes c' = _hashes c ++ [h]
    /\ _thread c' = Some (spawned c)
    /\ In (Spawn (spawned c)) (trace c')
    /\ In (Stop old) (trace c').
Proof.
  intros H Hold Hk. apply not_mem_In in H.
  destruct (restart_thread_completes w k fuel
              (set_hashes (_hashes c ++ [h]) c) old Hold Hk)
    as (c' & Hr & Ht & Hs).
  exists c'. split; [| split; [| split; [| split]]].
  - unfold add_or_remove_hash. rewrite H. simpl. rewrite Hr. reflexivity.
  - pose proof (restart_thread_hashes (k + fuel)
                  (set_hashes (_hashes c ++ [h]) c)) as R.
    rewrite Hr in R. exact R.
  - exact Ht.
  - assert (Hsp : exists evs,
               trace c' = (trace c ++ [Spawn (spawned c)]) ++ evs).
    { unfold restart_thread in Hr. simpl in Hr.
      destruct (restart_thread_while_spec w (k + fuel) (spawned c)
                  (snd (spawn (set_hashes (_hashes c ++ [h]) c))))
        as (evs & He & _).
      simpl in He.
      destruct (restart_thread_while w (k + fuel) (spawned c) _)
        as [r c2].
      simpl in He.
      destruct r as [u | m |]; [destruct (_thread c2) | |];
        inversion Hr; subst; simpl.
      exists (evs ++ [Stop t]). rewrite He, <- app_assoc. reflexivity. }
    destruct Hsp as (evs & ->).
    apply in_or_app. left. apply in_or_app. right. now left.
  - exact Hs.
Qed.

(** X11.  A restart on a consumer that has no current thread (it was
    never started): the replacement is spawned and waited for, then the
    call fails on [self._thread.stop()]; the consumer still has no
    current thread, and nobody holds the thread that was spawned. *)
Theorem restart_without_thread_fails
        (k fuel : nat) (c : consumer) :
  _thread c = None ->
  has_connected w (spawned c) (reads c + k) = true ->
  exists c',
    restart_thread w (k + fuel) c
    = (Raise "'NoneType' object has no attribute 'stop'", c')
    /\ _thread c' = None
    /\ exists evs,
        trace c' = trace c ++ evs
        /\ In (Spawn (spawned c)) evs
        /\ forall t, ~ In (Stop t) evs.
Proof.
  intros Hn Hk. unfold restart_thread. simpl.
  pose proof (restart_thread_while_returns w k fuel (spawned c)
                (snd (spawn c)) Hk) as Hr.
  destruct (restart_thread_while_spec w (k + fuel) (spawned c)
              (snd (spawn c)))
    as (evs & He & Hns & _ & Hth & _).
  simpl in Hr, He, Hth.
  destruct (restart_thread_while w (k + fuel) (spawned c) _) as [r c2].
  simpl in Hr, He, Hth. subst r. rewrite Hth, Hn.
  eexists. split; [reflexivity |]. split.
  - rewrite Hth. exact Hn.
  - exists (Spawn (spawned c) :: evs). split; [| split].
    + rewrite He, <- app_assoc. reflexivity.
    + now left.
    + intros t [E | Hin]; [discriminate | exact (Hns _ Hin I)].
Qed.

(** X12.  If the replacement thread never connects, [restart_thread]
    never returns: however long it polls, it is still polling, the
    current thread is the old one, and no thread has been told to
    stop. *)
Theorem restart_waits_for_connection (fuel : nat) (c : consumer) :
  (forall k, has_connected w (spawned c) k = false) ->
  exists c',
    restart_thread w fuel c = (Diverge, c')
    /\ _thread c' = _thread c
    /\ _hashes c' = _hashes c
    /\ exists evs,
        trace c' = trace c ++ evs /\ forall t, ~ In (Stop t) evs.
Proof.
  intros Hnever. unfold restart_thread. simpl.
  assert (Hd : forall f c0, fst (restart_thread_while w f (spawned c) c0)
                            = Diverge).
  { induction f as [| f IH]; intros c0; simpl; rewrite Hnever;
      [reflexivity | apply IH]. }
  specialize (Hd fuel (snd (spawn c))).
  destruct (restart_thread_while_spec w fuel (spawned c) (snd (spawn c)))
    as (evs & He & Hns & _ & Hth & Hh).
  simpl in Hd, He, Hth, Hh.
  destruct (restart_thread_while w fuel (spawned c) _) as [r c2].
  simpl in Hd, He, Hth, Hh. subst r.
  exists c2. split; [reflexivity |]. split; [exact Hth |].
  split; [exact Hh |].
  exists (Spawn (spawned c) :: evs). split.
  - rewrite He, <- app_assoc. reflexivity.
  - intros t [E | Hin]; [discriminate | exact (Hns _ Hin I)].
Qed.

End Hashes.
End HashFacts.

Module DriverFacts.
Import Supervisor Driver MoreScenarios.
Local Open Scope list_scope.

Section Loop.
Variable w : Driver.world.

(** X13.  [run_forever] joins the current worker for one second at a
    time, as long as the worker is alive and nobody has called
    [stop()], and returns at the first turn at which either fails; it
    changes nothing in the consumer but the stop flag it has seen, and
    stops no thread.  On a consumer that was never started it returns
    at its first turn without joining anything. *)
Theorem run_forever_returns_when_worker_dies_or_stop
        (k f : nat) :
  forall (d : driver) (t : tid),
    (_thread (consumer_of d) = Some t ->
     stop_requested (consumer_of d) = false ->
     (forall j, (j < k)%nat ->
                is_alive w t (rounds d + j) = true
                /\ stop_called w (rounds d + j) = false) ->
     stop_called w (rounds d + k) = true
     \/ is_alive w t (rounds d + k) = false ->
     exists d',
       run_forever w (k + f) d = (Ret tt, d')
       /\ joins d' = joins d ++ repeat (t, 1) k
       /\ rounds d' = (rounds d + k)%nat
       /\ _hashes (consumer_of d') = _hashes (consumer_of d)
       /\ _thread (consumer_of d') = Some t
       /\ trace (consumer_of d') = trace (consumer_of d)
       /\ stop_requested (consumer_of d') = stop_called w (rounds d + k))
    /\
    (_thread (consumer_of d) = None ->
     exists d',
       run_forever w f d = (Ret tt, d')
       /\ joins d' = joins d
       /\ trace (consumer_of d') = trace (consumer_of d)).
Proof.
  intros d t. split.
  - revert d. induction k as [| k IH]; intros d Ht Hs Hw Hend.
    + rewrite Nat.add_0_r in Hend. simpl Nat.add.
      assert (E : run_forever w f d
                  = if stop_called w (rounds d) then (Ret tt, look w d)
                    else (Ret tt, look w d)).
      { destruct f; simpl; rewrite Hs; simpl;
          destruct (stop_called w (rounds d)) eqn:Es; try reflexivity;
          unfold join_thread; simpl; rewrite Ht;
          destruct Hend as [Hx | Hx]; try discriminate;
          rewrite Hx; reflexivity. }
      exists (look w d). split.
      * rewrite E. destruct (stop_called w (rounds d)); reflexivity.
      * simpl. rewrite app_nil_r, Nat.add_0_r, Hs. repeat split.
        exact Ht.
    + destruct (Hw 0%nat) as (Ha & Hc); [lia |].
      rewrite Nat.add_0_r in Ha, Hc.
      pose (d2 := next_round
                    {| consumer_of := consumer_of (look w d);
                       rounds := rounds d;
                       joins := joins d ++ [(t, 1)] |}).
      assert (E : run_forever w (S k + f) d = run_forever w (k + f) d2).
      { simpl. rewrite Hs, Hc. simpl.
        unfold join_thread. simpl. rewrite Ht, Ha. reflexivity. }
      destruct (IH d2) as (d' & Hr & Hj & Hro & Hh & Hth & Htr & Hst).
      * exact Ht.
      * simpl. rewrite Hs, Hc. reflexivity.
      * intros j Hj. simpl rounds.
        replace (S (rounds d) + j)%nat with (rounds d + S j)%nat by lia.
        apply Hw. lia.
      * simpl rounds.
        replace (S (rounds d) + k)%nat with (rounds d + S k)%nat by lia.
        exact Hend.
      * exists d'. rewrite E. split; [exact Hr |].
        simpl in Hj, Hro, Hh, Hth, Htr, Hst.
        repeat split; auto.
        -- rewrite Hj, <- app_assoc. reflexivity.
        -- rewrite Hro. lia.
        -- rewrite Hst. f_equal. lia.
  - intros Hn. exists (look w d).
    split; [| split; reflexivity].
    destruct f; simpl;
      destruct (stop_requested (consumer_of d) || stop_called w (rounds d));
      try reflexivity;
      unfold join_thread; simpl; rewrite Hn; reflexivity.
Qed.

End Loop.

Lemma run_forever_returns_when_worker_dies_or_stop_witness :
  exists d',
    run_forever dies_at_fourth_look 5 (start (on_start (__init__ ["a"])))
    = (Ret tt, d')
    /\ joins d' = [(0%nat, 1); (0%nat, 1); (0%nat, 1)].
Proof.
  destruct (run_forever_returns_when_worker_dies_or_stop
              dies_at_fourth_look 3 2
              (start (on_start (__init__ ["a"]))) 0%nat)
    as (H & _).
  destruct H as (d' & H1 & H2 & _).
  - reflexivity.
  - reflexivity.
  - intros j Hj. split; [| reflexivity].
    destruct j as [| [| [| j]]]; try reflexivity. lia.
  - right. reflexivity.
  - exists d'. split; assumption.
Defined.

End DriverFacts.

Module HashExamples.
Import Supervisor SupervisorFacts HashFacts MoreScenarios.
Local Open Scope list_scope.

Lemma add_hash_tracks_witness :
  let c := on_start (__init__ ["a"]) in
  NoDup (_hashes (snd (add_or_remove_hash never_connects 3 "b" true true c)))
  /\ In "b" (_hashes (snd (add_or_remove_hash never_connects 3 "b" true true c))).
Proof.
  intros c.
  destruct (add_hash_tracks never_connects 3 "b" true c) as (H1 & H2).
  split.
  - apply H2. simpl. repeat constructor. intros [].
  - apply H1. now left.
Defined.

Lemma remove_hash_untracks_witness :
  let c := on_start (__init__ ["a"; "b"]) in
  ~ In "a" (_hashes (snd (add_or_remove_hash never_connects 3 "a" false true c)))
  /\ In "b" (_hashes (snd (add_or_remove_hash never_connects 3 "a" false true c))).
Proof.
  intros c.
  destruct (remove_hash_untracks never_connects 3 "a" true c) as (H1 & _).
  - simpl. repeat constructor; simpl; intuition discriminate.
  - split.
    + intros H. apply H1 in H. destruct H as (H & _). now apply H.
    + apply H1. split; [discriminate | simpl; auto].
Defined.

Lemma staged_add_then_remove_witness :
  let c := on_start (__init__ ["a"]) in
  exists c1,
    add_or_remove_hash never_connects 0 "b" true false c = (Ret true, c1)
    /\ add_or_remove_hash never_connects 0 "b" false false c1 = (Ret true, c).
Proof.
  intros c.
  destruct (staged_add_then_remove never_connects 0 0 "b" c)
    as (c1 & H1 & _ & _ & _ & H5).
  - simpl. intros [H | []]. discriminate.
  - exists c1. split; assumption.
Defined.

Lemma add_with_restart_swaps_thread_witness :
  let c := on_start (__init__ ["a"]) in
  exists c',
    add_or_remove_hash connects_late 3 "b" true true c = (Ret true, c')
    /\ _hashes c' = ["a"; "b"]
    /\ _thread c' = Some 1%nat.
Proof.
  intros c.
  destruct (add_with_restart_swaps_thread connects_late 2 1 "b" c 0%nat)
    as (c' & H1 & H2 & H3 & _).
  - simpl. intros [H | []]. discriminate.
  - reflexivity.
  - reflexivity.
  - exists c'. repeat split; assumption.
Defined.

Lemma restart_without_thread_fails_witness :
  exists c',
    restart_thread connects_late 3 (__init__ ["a"])
    = (Raise "'NoneType' object has no attribute 'stop'", c')
    /\ _thread c' = None.
Proof.
  destruct (restart_without_thread_fails connects_late 2 1 (__init__ ["a"]))
    as (c' & H1 & H2 & _); try reflexivity.
  exists c'. split; assumption.
Defined.

Lemma restart_waits_for_connection_witness :
  let c := on_start (__init__ ["a"]) in
  exists c',
    restart_thread never_connects 50 c = (Diverge, c')
    /\ _thread c' = Some 0%nat.
Proof.
  intros c.
  destruct (restart_waits_for_connection never_connects 50 c)
    as (c' & H1 & H2 & _).
  - reflexivity.
  - exists c'. split; assumption.
Defined.

(** With a hash listed twice, one removal leaves it tracked. *)
Example duplicate_survives_removal :
  let c := __init__ ["a"; "b"; "a"] in
  _hashes (snd (add_or_remove_hash never_connects 0 "a" false false c))
  = ["b"; "a"].
Proof. reflexivity. Qed.

End HashExamples.

(* ------------------------------------------------------------------ *)
(** ** What the worker never does                                      *)
(* ------------------------------------------------------------------ *)

Module EffectFacts.
Import Py Worker Terms Effects WorkerFacts LoopFacts.
Local Open Scope list_scope.

Section Confinement.
Variable E : event -> Prop.

Lemma writes_one (t t' : thread) : write E t t' -> writes E t t'.
Proof. intros H. exact (ws_step E t t t' (ws_refl E t) H). Qed.

Lemma writes_trans (t1 t2 t3 : thread) :
  writes E t1 t2 -> writes E t2 t3 -> writes E t1 t3.
Proof.
  intros H12 H23. induction H23 as [| a b c _ IH Hw]; [exact H12 |].
  exact (ws_step E _ _ _ (IH H12) Hw).
Qed.

Lemma confined_ret {A} (a : A) : confined E (ret a).
Proof. intros t. apply ws_refl. Qed.

Lemma confined_raise {A} (e : exn) : confined E (@raise A e).
Proof. intros t. apply ws_refl. Qed.

Lemma confined_diverge {A} : confined E (@diverge A).
Proof. intros t. apply ws_refl. Qed.

Lemma confined_gets {A} (g : thread -> A) : confined E (gets g).
Proof. intros t. apply ws_refl. Qed.

Lemma confined_modify (g : thread -> thread) :
  (forall t, write E t (g t)) -> confined E (modify g).
Proof. intros H t. apply writes_one, H. Qed.

Lemma confined_emit (ev : event) :
  E ev -> is_sleep ev = false -> confined E (emit ev).
Proof. intros H1 H2. apply confined_modify. intros t. now apply wr_log. Qed.

Lemma confined_bind {A B} (m : M A) (k : A -> M B) :
  confined E m -> (forall a, confined E (k a)) -> confined E (bind m k).
Proof.
  intros Hm Hk t. unfold bind. specialize (Hm t).
  destruct (m t) as [[a | e |] t']; simpl in *; auto.
  exact (writes_trans _ _ _ Hm (Hk a t')).
Qed.

Lemma confined_catch {A} (m : M A) (h : exn -> M A) :
  confined E m -> (forall e, confined E (h e)) -> confined E (catch m h).
Proof.
  intros Hm Hh t. unfold catch. specialize (Hm t).
  destruct (m t) as [[a | e |] t']; simpl in *; auto.
  exact (writes_trans _ _ _ Hm (Hh e t')).
Qed.

(** *** The decoder records nothing *)

Lemma confined_raw_read : confined E _raw_read.
Proof.
  intros t. unfold _raw_read.
  destruct (_sock t) as [[| [| | data | msg] s] |]; simpl;
    try apply ws_refl; try (apply writes_one, wr_sock).
  destruct (0 <? len data); [| apply writes_one, wr_sock].
  apply (ws_step E _ (set_sock (Some s) t));
    [apply writes_one, wr_sock |].
  exact (wr_append E (set_sock (Some s) t) data).
Qed.

Lemma confined_raw_read_chunk_while (f : nat) (n : Z) :
  confined E (_raw_read_chunk_while f n).
Proof.
  induction f as [| f IH]; intros t; simpl;
    destruct (need_more n (_buffer t)); try apply ws_refl.
  exact (confined_bind _ _ confined_raw_read (fun _ => IH) t).
Qed.

Lemma confined_raw_read_chunk (f : nat) (n : Z) :
  confined E (_raw_read_chunk f n).
Proof.
  apply confined_bind; [apply confined_raw_read_chunk_while |].
  intros _ t. simpl. apply writes_one, wr_take.
Qed.

Lemma confined_read_chunk_while (f : nat) :
  forall l, confined E (_read_chunk_while f l).
Proof.
  induction f as [| f IH]; intros l t; simpl;
    destruct (len l =? 0); try apply ws_refl.
  exact (confined_bind _ _ (confined_raw_read_chunk f 0) IH t).
Qed.

Lemma confined_read_chunk (f : nat) : confined E (_read_chunk f).
Proof.
  apply confined_bind; [apply confined_read_chunk_while |].
  intros l. apply confined_bind; [apply confined_gets |].
  intros ch. destruct (negb ch); [apply confined_ret |].
  destruct (int16 l);
    [apply confined_raw_read_chunk | apply confined_raise].
Qed.

Lemma confined_error_payload (f : nat) :
  forall d, confined E (error_payload f d).
Proof.
  induction f as [| f IH]; intros d t; simpl;
    destruct (negb (d =? "")%string && (len d <=? 4));
    try apply ws_refl.
  exact (confined_bind _ _ (confined_read_chunk f) IH t).
Qed.

(** *** The loops *)
Section Guarded.
Variable w : world.

(** [J] holds of the threads from which the frames that [_read_chunk]
    returns are known to be data that [E] allows; the single writes
    keep it. *)
Variable J : thread -> Prop.
Hypothesis HJ : forall a b, write E a b -> J a -> J b.
Hypothesis HN : forall ev, notices ev -> E ev.
Hypothesis HD :
  forall f t l t',
    J t -> _read_chunk f t = (Ret l, t') -> E (EvOnData l).

Lemma writes_keep (a b : thread) : writes E a b -> J a -> J b.
Proof.
  induction 1 as [| x y z _ IH Hw]; [auto |].
  intros Hx. exact (HJ _ _ Hw (IH Hx)).
Qed.

Lemma guarded_read_stream (f : nat) :
  forall t, J t -> writes E t (snd (_read_stream w f t)).
Proof.
  induction f as [| f IH]; intros t Ht.
  - simpl. unfold bind, stream_guard. cbv zeta.
    destruct (is_running w false (polls t)
              && negb (_stop_requested
                         (observe (stop_signal w (polls t)) t)));
      apply writes_one, wr_observe.
  - set (t0 := observe (stop_signal w (polls t)) t).
    assert (W0 : writes E t t0) by apply writes_one, wr_observe.
    assert (J0 : J t0) by exact (writes_keep _ _ W0 Ht).
    assert (Hg : stream_guard w t
                 = (Ret (is_running w false (polls t)
                         && negb (_stop_requested t0)), t0))
      by reflexivity.
    rewrite read_stream_S, (bind_ret _ _ _ _ _ Hg).
    destruct (is_running w false (polls t)
              && negb (_stop_requested t0)); [| exact W0].
    pose proof (confined_read_chunk f t0) as W1.
    destruct (_read_chunk f t0) as [[fr | e |] t1] eqn:Er;
      simpl in W1.
    + rewrite (bind_ret _ _ _ _ _ Er).
      assert (W2 : writes E t (log_event (EvOnData fr) t1)).
      { refine (ws_step E _ _ _ (writes_trans _ _ _ W0 W1) _).
        apply wr_log; [exact (HD f t0 fr t1 J0 Er) | reflexivity]. }
      destruct (on_data w fr) as [e |] eqn:Eo.
      * rewrite (bind_raise _ _ _ _ _ (deliver_raises w fr e t1 Eo)).
        exact W2.
      * rewrite (bind_ret _ _ _ _ _ (deliver_returns w fr t1 Eo)).
        refine (writes_trans _ _ _ W2 (IH _ _)).
        exact (writes_keep _ _ W2 Ht).
    + rewrite (bind_raise _ _ _ _ _ Er).
      exact (writes_trans _ _ _ W0 W1).
    + unfold bind. rewrite Er. exact (writes_trans _ _ _ W0 W1).
Qed.

Lemma confined_report (c : Z) (d : string) :
  confined E (report_error_payload w c d).
Proof.
  assert (He : forall v, confined E (emit (EvOnError v))).
  { intros v. apply confined_emit; [apply HN; exact I | reflexivity]. }
  unfold report_error_payload.
  destruct (json_loads w d) as [data |]; [| apply He].
  apply confined_bind.
  - destruct (truthy data); [| apply confined_ret].
    destruct (has_key "message" data);
      [apply confined_ret | apply confined_raise].
  - intros [|]; [| apply He].
    destruct (get_item "message" data);
      [apply He | apply confined_raise].
Qed.

(** After [urlopen] was called and recorded, an attempt records
    reports only. *)
Lemma guarded_attempt (f : nat) (t : thread) :
  J (opened t) -> writes E (opened t) (snd (attempt w f t)).
Proof.
  unfold attempt.
  unfold bind at 1, gets. unfold bind at 1, modify.
  unfold bind at 1, emit, modify.
  change (log_event EvConnecting (next_open t)) with (opened t).
  generalize (opened t). intros t0 H0.
  destruct (urlopen w (opens t)) as [c te raw | m | m].
  - set (t1 := if is_chunked te then set_chunked true t0 else t0).
    assert (W1 : writes E t0 t1).
    { subst t1. destruct (is_chunked te);
        [apply writes_one, wr_chunked | apply ws_refl]. }
    assert (E1 : (if is_chunked te then modify (set_chunked true)
                  else ret tt) t0 = (Ret tt, t1)).
    { subst t1. destruct (is_chunked te); reflexivity. }
    rewrite (bind_ret _ _ _ _ _ E1).
    destruct (c =? 200).
    + set (t2 := set_has_connected true
                   (log_event EvOnConnect
                      (set_delay 0 (set_sock (Some raw) t1)))).
      change (writes E t0
                (snd ((_read_stream w f ;; ret Next) t2))).
      assert (W2 : writes E t0 t2).
      { subst t2.
        apply (ws_step E _ (log_event EvOnConnect
                              (set_delay 0 (set_sock (Some raw) t1))));
          [| apply wr_connected; simpl; apply in_or_app; right;
             now left].
        apply (ws_step E _ (set_delay 0 (set_sock (Some raw) t1)));
          [| apply wr_log; [apply HN; exact I | reflexivity]].
        apply (ws_step E _ (set_sock (Some raw) t1));
          [| apply wr_delay_reset].
        exact (ws_step E _ _ _ W1 (wr_sock E t1 (Some raw))). }
      pose proof (guarded_read_stream f t2 (writes_keep _ _ W2 H0))
        as W3.
      unfold bind.
      destruct (_read_stream w f t2) as [[u | e |] t3]; simpl in *;
        exact (writes_trans _ _ _ W2 W3).
    + change (writes E t0
                (snd ((if (400 <=? c) && (c <? 500) && negb (c =? 420)
                       then json_data <- error_payload f "init" ;;
                            report_error_payload w c json_data ;;
                            ret Break
                       else raise (ExponentialBackoffError
                                     ("Received " ++ str_of_int c
                                        ++ " response"))) t1))).
      apply (writes_trans _ _ _ W1).
      destruct ((400 <=? c) && (c <? 500) && negb (c =? 420)).
      * revert t1 W1 E1. intros t1 _ _.
        apply confined_bind; [apply confined_error_payload |].
        intros d. apply confined_bind; [apply confined_report |].
        intros _. apply confined_ret.
      * apply ws_refl.
  - refine (confined_bind _ _ _ _ t0).
    + apply confined_emit; [apply HN; exact I | reflexivity].
    + intros _. apply confined_ret.
  - apply ws_refl.
Qed.

Lemma handler_writes (e : exn) (t : thread) :
  writes E t (snd (handler e t)).
Proof.
  assert (Hx : writes E t (snd (on_exception e t))).
  { rewrite on_exception_spec.
    destruct (Z.ltb_spec (connection_delay t) 16); simpl.
    - apply (ws_step E _ (set_delay (connection_delay t + 1) t)).
      + apply writes_one, wr_delay_linear. assumption.
      + apply wr_log; [apply HN; exact I | reflexivity].
    - apply writes_one, wr_log; [apply HN; exact I | reflexivity]. }
  destruct e as [m | m | m | m]; simpl handler; try exact Hx;
    [| apply ws_refl].
  rewrite on_exponential_spec.
  destruct (Z.eqb_spec (connection_delay t) 0); simpl.
  - apply (ws_step E _ (set_delay 10 t)).
    + apply writes_one, wr_delay_first. assumption.
    + apply wr_log; [apply HN; exact I | reflexivity].
  - destruct (Z.ltb_spec (connection_delay t) 320); simpl.
    + apply (ws_step E _ (set_delay (connection_delay t * 2) t)).
      * apply writes_one, wr_delay_double; assumption.
      * apply wr_log; [apply HN; exact I | reflexivity].
    + apply writes_one, wr_log; [apply HN; exact I | reflexivity].
Qed.

(** An iteration: the flag and the sleep, the call of [urlopen], and
    then reports only. *)
Lemma iteration_unfold (f : nat) (t : thread) :
  iteration w f t
  = catch (attempt w f) handler
      (if 0 <? connection_delay t
       then log_event (EvSleep (connection_delay t)) (set_first false t)
       else set_first false t).
Proof.
  unfold iteration, bind, modify, gets. simpl.
  destruct (0 <? connection_delay t); reflexivity.
Qed.

Lemma guarded_iteration_after_open (f : nat) (t : thread) :
  let p := if 0 <? connection_delay t
           then log_event (EvSleep (connection_delay t))
                  (set_first false t)
           else set_first false t in
  J (opened p) -> writes E (opened p) (snd (iteration w f t)).
Proof.
  intros p Hp. rewrite iteration_unfold. fold p.
  unfold catch. pose proof (guarded_attempt f p Hp) as Ha.
  destruct (attempt w f p) as [[c | e |] t1]; simpl in *; try exact Ha.
  exact (writes_trans _ _ _ Ha (handler_writes e t1)).
Qed.

Hypothesis HC : E EvConnecting.
Hypothesis HS : forall d, E (EvSleep d).

Lemma guarded_iteration (f : nat) (t : thread) :
  J t -> writes E t (snd (iteration w f t)).
Proof.
  intros Ht.
  assert (W : writes E t
                (opened (if 0 <? connection_delay t
                         then log_event (EvSleep (connection_delay t))
                                (set_first false t)
                         else set_first false t))).
  { unfold opened.
    destruct (Z.ltb_spec 0 (connection_delay t)).
    - apply (ws_step E _ (next_open
                            (log_event (EvSleep (connection_delay t))
                               (set_first false t))));
        [| apply wr_log; [exact HC | reflexivity]].
      apply (ws_step E _ (log_event (EvSleep (connection_delay t))
                            (set_first false t)));
        [| apply wr_open].
      apply (ws_step E _ (set_first false t));
        [apply writes_one, wr_first |].
      exact (wr_sleep E (set_first false t) H (HS _)).
    - apply (ws_step E _ (next_open (set_first false t)));
        [| apply wr_log; [exact HC | reflexivity]].
      apply (ws_step E _ (set_first false t));
        [apply writes_one, wr_first | apply wr_open]. }
  refine (writes_trans _ _ _ W
            (guarded_iteration_after_open f t (writes_keep _ _ W Ht))).
Qed.

Lemma run_guard_writes : confined E (run_guard w).
Proof.
  intros t. unfold run_guard.
  destruct (first_connection t || _auto_reconnect t); simpl;
    [apply writes_one, wr_observe | apply ws_refl].
Qed.

Lemma guarded_run_while (f : nat) :
  forall t, J t -> writes E t (snd (run_while w f t)).
Proof.
  induction f as [| f IH]; intros t Ht.
  - simpl. unfold bind. pose proof (run_guard_writes t) as W.
    destruct (run_guard w t) as [[[|] | e |] t1]; exact W.
  - rewrite run_while_S. unfold bind at 1.
    pose proof (run_guard_writes t) as W.
    destruct (run_guard w t) as [[[|] | e |] t1]; simpl in W;
      try exact W.
    unfold bind.
    pose proof (guarded_iteration f t1 (writes_keep _ _ W Ht)) as W1.
    destruct (iteration w f t1) as [[[|] | e |] t2]; simpl in W1;
      try exact (writes_trans _ _ _ W W1).
    refine (writes_trans _ _ _ (writes_trans _ _ _ W W1) (IH _ _)).
    exact (writes_keep _ _ (writes_trans _ _ _ W W1) Ht).
Qed.
End Guarded.

(** The same without a condition on the thread, when [E] allows every
    report. *)
Section Loops.
Variable w : world.
Hypothesis HE : forall ev, reports ev -> E ev.

Lemma notices_allowed (ev : event) : notices ev -> E ev.
Proof. intros H. apply HE. destruct ev; simpl in *; tauto. Qed.

Lemma confined_read_stream (f : nat) : confined E (_read_stream w f).
Proof.
  intros t.
  exact (guarded_read_stream w (fun _ => True) (fun _ _ _ _ => I)
           (fun _ _ l _ _ _ => HE (EvOnData l) I) f t I).
Qed.

Lemma iteration_writes_after_open (f : nat) (t : thread) :
  writes E
    (opened (if 0 <? connection_delay t
             then log_event (EvSleep (connection_delay t))
                    (set_first false t)
             else set_first false t))
    (snd (iteration w f t)).
Proof.
  exact (guarded_iteration_after_open w (fun _ => True)
           (fun _ _ _ _ => I) notices_allowed
           (fun _ _ l _ _ _ => HE (EvOnData l) I) f t I).
Qed.

Hypothesis HC : E EvConnecting.
Hypothesis HS : forall d, E (EvSleep d).

Lemma run_while_writes (f : nat) : confined E (run_while w f).
Proof.
  intros t.
  exact (guarded_run_while w (fun _ => True) (fun _ _ _ _ => I)
           notices_allowed (fun _ _ l _ _ _ => HE (EvOnData l) I) HC HS f t I).
Qed.
End Loops.

(** *** What a single write keeps *)

Lemma writes_invariant (J : thread -> Prop) :
  (forall t t', write E t t' -> J t -> J t') ->
  forall t t', writes E t t' -> J t -> J t'.
Proof.
  intros Hstep t t' H. induction H as [| a b c _ IH Hw]; [auto |].
  intros Ha. exact (Hstep _ _ Hw (IH Ha)).
Qed.

Lemma write_flags (t t' : thread) :
  write E t t' ->
  (_stop_requested t = true -> _stop_requested t' = true)
  /\ (_has_connected t = true -> _has_connected t' = true)
  /\ (_chunked t = true -> _chunked t' = true)
  /\ (first_connection t = false -> first_connection t' = false)
  /\ _auto_reconnect t' = _auto_reconnect t
  /\ ((_has_connected t = true -> In EvOnConnect (trace t)) ->
      _has_connected t' = true -> In EvOnConnect (trace t')).
Proof.
  destruct 1; simpl; repeat split; auto;
    try (intros ->; reflexivity);
    try (intros Hi Hc; apply in_or_app; left; auto).
Qed.

Lemma write_trace (t t' : thread) :
  write E t t' ->
  exists evs, trace t' = trace t ++ evs /\ Forall E evs.
Proof.
  destruct 1; simpl;
    try (exists []; rewrite app_nil_r; split; [reflexivity | constructor]).
  - exists [ev]. split; [reflexivity | repeat constructor; assumption].
  - exists [EvSleep (connection_delay t)].
    split; [reflexivity | repeat constructor; assumption].
Qed.

Lemma writes_trace (t t' : thread) :
  writes E t t' ->
  exists evs, trace t' = trace t ++ evs /\ Forall E evs.
Proof.
  induction 1 as [| a b c _ IH Hw].
  - exists []. rewrite app_nil_r. split; [reflexivity | constructor].
  - destruct IH as (e1 & H1 & F1).
    destruct (write_trace _ _ Hw) as (e2 & H2 & F2).
    exists (e1 ++ e2). split.
    + rewrite H2, H1, app_assoc. reflexivity.
    + apply Forall_app. split; assumption.
Qed.

Lemma delay_values_closed :
  forallb (delay_closed delay_values) delay_values = true.
Proof. vm_compute. reflexivity. Qed.

Lemma delay_closed_spec (L : list Z) (d : Z) :
  forallb (delay_closed L) L = true ->
  In d L ->
  0 <= d <= 576
  /\ In 0 L
  /\ (d < 16 -> In (d + 1) L)
  /\ (d = 0 -> In 10 L)
  /\ (d <> 0 -> d < 320 -> In (d * 2) L).
Proof.
  intros Hall.
  intros Hin. rewrite forallb_forall in Hall. specialize (Hall d Hin).
  unfold delay_closed in Hall.
  assert (Hmem : forall x, existsb (Z.eqb x) L = true -> In x L).
  { intros x Hx. apply existsb_exists in Hx. destruct Hx as (y & Hy & E0).
    apply Z.eqb_eq in E0. now subst. }
  apply andb_true_iff in Hall. destruct Hall as (Hall & H6).
  apply andb_true_iff in Hall. destruct Hall as (Hall & H5).
  apply andb_true_iff in Hall. destruct Hall as (Hall & H4).
  apply andb_true_iff in Hall. destruct Hall as (Hall & H3).
  apply andb_true_iff in Hall. destruct Hall as (H1 & H2).
  apply Z.leb_le in H1. apply Z.leb_le in H2.
  split; [lia |]. split; [apply Hmem; exact H3 |].
  split; [| split].
  - intros Hd. apply Hmem.
    destruct (Z.ltb_spec d 16); [| lia]. exact H4.
  - intros _. apply Hmem. exact H5.
  - intros Hd0 Hd. apply Hmem.
    destruct (Z.eqb_spec d 0); [contradiction |].
    destruct (Z.ltb_spec d 320); [| lia]. exact H6.
Qed.

Lemma in_delay_values (d : Z) :
  In d delay_values ->
  0 <= d <= 576
  /\ In 0 delay_values
  /\ (d < 16 -> In (d + 1) delay_values)
  /\ (d = 0 -> In 10 delay_values)
  /\ (d <> 0 -> d < 320 -> In (d * 2) delay_values).
Proof. exact (delay_closed_spec delay_values d delay_values_closed). Qed.

Lemma write_delay_in (L : list Z) (t t' : thread) :
  forallb (delay_closed L) L = true ->
  write E t t' ->
  In (connection_delay t) L /\ Forall sleep_in_bounds (trace t) ->
  In (connection_delay t') L /\ Forall sleep_in_bounds (trace t').
Proof.
  intros HL Hw (Hd & Hs).
  destruct (delay_closed_spec L _ HL Hd) as (Hr & H0 & Hl & Hf & Hdb).
  destruct Hw; simpl; try (split; assumption).
  - split; [assumption |]. apply Forall_app. split; [assumption |].
    constructor; [| constructor].
    destruct ev; try exact I. discriminate.
  - split; [assumption |]. apply Forall_app. split; [assumption |].
    constructor; [| constructor]. simpl. lia.
  - split; [apply Hl | ]; assumption.
  - split; [apply Hf | ]; assumption.
  - split; [apply Hdb | ]; assumption.
Qed.

Lemma write_delay (t t' : thread) :
  write E t t' ->
  In (connection_delay t) delay_values
  /\ Forall sleep_in_bounds (trace t) ->
  In (connection_delay t') delay_values
  /\ Forall sleep_in_bounds (trace t').
Proof. exact (write_delay_in delay_values t t' delay_values_closed). Qed.

End Confinement.
End EffectFacts.

Module RunFacts.
Import Py Worker Terms Effects Scenarios MoreScenarios DecoderFacts
       WorkerFacts LoopFacts EffectFacts.
Local Open Scope list_scope.

Lemma attempts_of_reports (evs : list event) :
  Forall reports evs -> attempts evs = 0%nat.
Proof.
  induction 1 as [| ev evs Hev _ IH]; [reflexivity |].
  unfold attempts in *. simpl. destruct ev; simpl in *; tauto.
Qed.

Lemma disconnects_of_loop_events (evs : list event) :
  Forall loop_events evs -> disconnects evs = 0%nat.
Proof.
  induction 1 as [| ev evs Hev _ IH]; [reflexivity |].
  unfold disconnects in *. simpl. destruct ev; simpl in *; tauto.
Qed.

Lemma disconnects_app (a b : list event) :
  disconnects (a ++ b) = (disconnects a + disconnects b)%nat.
Proof. unfold disconnects. now rewrite filter_app, length_app. Qed.

Section Run.
Variable w : world.

Lemma run_unfold (f : nat) (t : thread) :
  run w f t = (run_while w f ;; run_exit w) (set_first true (set_delay 0 t)).
Proof. reflexivity. Qed.

(** What follows the loop. *)
Lemma run_exit_spec (t : thread) :
  run_exit w t
  = (Ret tt,
     let t1 := match _sock t with
               | Some _ => log_event EvSockClose t
               | None => t
               end in
     let t2 := observe (stop_signal w (polls t)) t1 in
     if _stop_requested t2 then t2 else log_event EvOnDisconnect t2).
Proof.
  unfold run_exit, bind, gets, modify, emit, modify. simpl.
  destruct (_sock t); simpl;
    destruct (_stop_requested t || stop_signal w (polls t));
    reflexivity.
Qed.

Lemma run_exit_writes_in (E : event -> Prop) :
  E EvSockClose -> E EvOnDisconnect -> confined E (run_exit w).
Proof.
  intros Hc Hd t. rewrite run_exit_spec. cbv zeta. cbn [snd].
  set (t1 := match _sock t with
             | Some _ => log_event EvSockClose t
             | None => t
             end).
  assert (H1 : writes E t t1).
  { subst t1. destruct (_sock t); [| apply ws_refl].
    apply writes_one, wr_log; [exact Hc | reflexivity]. }
  assert (H2 : writes E t (observe (stop_signal w (polls t)) t1)).
  { exact (ws_step _ _ _ _ H1 (wr_observe _ t1 _)). }
  destruct (_stop_requested (observe (stop_signal w (polls t)) t1));
    [exact H2 |].
  refine (ws_step _ _ _ _ H2 _).
  apply wr_log; [exact Hd | reflexivity].
Qed.

Lemma run_exit_writes : confined any_event (run_exit w).
Proof. exact (run_exit_writes_in any_event I I). Qed.

Lemma run_writes (f : nat) (t : thread) :
  writes any_event (set_first true (set_delay 0 t)) (snd (run w f t)).
Proof.
  rewrite run_unfold.
  apply (confined_bind any_event).
  - apply run_while_writes; intros; exact I.
  - intros _. apply run_exit_writes.
Qed.

(** X14.  The worker's flags are only ever set.  Through a whole
    [run], a stop request that was made stays made, a connection that
    was signalled stays signalled, and [_auto_reconnect] is untouched;
    and [_has_connected] is never true without [_on_connect] having
    been called. *)
Theorem worker_flags_are_only_set (f : nat) (t : thread) :
  let t' := snd (run w f t) in
  (_stop_requested t = true -> _stop_requested t' = true)
  /\ (_has_connected t = true -> _has_connected t' = true)
  /\ _auto_reconnect t' = _auto_reconnect t
  /\ ((_has_connected t = true -> In EvOnConnect (trace t)) ->
      _has_connected t' = true -> In EvOnConnect (trace t')).
Proof.
  intros t'. subst t'.
  pose proof (run_writes f t) as Hw.
  split; [| split; [| split]].
  - apply (writes_invariant any_event
             (fun x => _stop_requested t = true ->
                       _stop_requested x = true) ) with (2 := Hw).
    + intros a b Hab Hx Ht. apply (write_flags _ _ _ Hab). auto.
    + simpl. auto.
  - apply (writes_invariant any_event
             (fun x => _has_connected t = true ->
                       _has_connected x = true) ) with (2 := Hw).
    + intros a b Hab Hx Ht. apply (write_flags _ _ _ Hab). auto.
    + simpl. auto.
  - apply (writes_invariant any_event
             (fun x => _auto_reconnect x = _auto_reconnect t))
      with (2 := Hw).
    + intros a b Hab Hx.
      destruct (write_flags _ _ _ Hab) as (_ & _ & _ & _ & Ha & _).
      now rewrite Ha.
    + reflexivity.
  - intros H0.
    apply (writes_invariant any_event
             (fun x => _has_connected x = true ->
                       In EvOnConnect (trace x))) with (2 := Hw).
    + intros a b Hab Hx. apply (write_flags _ _ _ Hab). exact Hx.
    + simpl. exact H0.
Qed.

(** X15.  [_on_disconnect] is called by [run] at most once, as the
    last thing it does, and exactly when [run] comes to its end with no
    stop request made: not when the worker was retired by [stop()],
    and not while the loop is still turning. *)
Theorem disconnect_is_reported_once_unless_stopped
        (f : nat) (t : thread) :
  let r := run w f t in
  disconnects (trace (snd r))
  = (disconnects (trace t)
     + match fst r with
       | Ret _ => if _stop_requested (snd r) then 0 else 1
       | _ => 0
       end)%nat
  /\ (forall tr ev, trace (snd r) = tr ++ [ev] ->
                    In EvOnDisconnect (tr ++ [ev]) ->
                    ~ In EvOnDisconnect (trace t) ->
                    ev = EvOnDisconnect /\ ~ In EvOnDisconnect tr).
Proof.
  intros r. subst r. rewrite run_unfold.
  set (t0 := set_first true (set_delay 0 t)).
  assert (Hloop : exists evs,
             trace (snd (run_while w f t0)) = trace t ++ evs
             /\ Forall loop_events evs).
  { apply (writes_trace loop_events t0).
    apply run_while_writes; intros; try exact I.
    destruct ev; simpl in *; tauto. }
  destruct Hloop as (evs & Htr & Hev).
  assert (Hnd : forall l : list event,
             disconnects l = 0%nat -> ~ In EvOnDisconnect l).
  { intros l. unfold disconnects. induction l as [| x l IH]; simpl.
    - intros _ [].
    - destruct x; simpl; try discriminate;
        intros H [E | Hin]; try discriminate; now apply IH. }
  unfold bind.
  destruct (run_while w f t0) as [[u | e |] t1] eqn:Er; simpl in Htr |- *.
  - rewrite run_exit_spec. simpl.
    set (t2 := match _sock t1 with
               | Some _ => log_event EvSockClose t1
               | None => t1
               end).
    assert (Hc : exists c, trace t2 = (trace t ++ evs) ++ c
                           /\ disconnects c = 0%nat).
    { subst t2. destruct (_sock t1); simpl.
      - exists [EvSockClose]. rewrite Htr. split; reflexivity.
      - exists []. rewrite Htr, app_nil_r. split; reflexivity. }
    destruct Hc as (c & Hc & Hc0).
    destruct (_stop_requested t2 || stop_signal w (polls t1)) eqn:Es;
      simpl; rewrite ?Es, Hc.
    + split.
      * rewrite !disconnects_app, Hc0,
          (disconnects_of_loop_events _ Hev). lia.
      * intros tr ev Heq Hin Hnot. exfalso.
        rewrite <- Heq in Hin.
        apply in_app_or in Hin. destruct Hin as [Hin | Hin];
          [| exact (Hnd _ Hc0 Hin)].
        apply in_app_or in Hin. destruct Hin as [Hin | Hin];
          [contradiction |].
        exact (Hnd _ (disconnects_of_loop_events _ Hev) Hin).
    + split.
      * rewrite !disconnects_app, Hc0,
          (disconnects_of_loop_events _ Hev).
        change (disconnects [EvOnDisconnect]) with 1%nat. lia.
      * intros tr ev Heq Hin Hnot.
        apply app_inj_tail in Heq. destruct Heq as (<- & <-).
        split; [reflexivity |]. intros Hin'.
        apply in_app_or in Hin'. destruct Hin' as [Hin' | Hin'];
          [| exact (Hnd _ Hc0 Hin')].
        apply in_app_or in Hin'. destruct Hin' as [Hin' | Hin'];
          [contradiction |].
        exact (Hnd _ (disconnects_of_loop_events _ Hev) Hin').
  - split.
    + rewrite Htr, disconnects_app,
        (disconnects_of_loop_events _ Hev). lia.
    + intros tr ev Heq Hin Hnot. exfalso. rewrite <- Heq, Htr in Hin.
      apply in_app_or in Hin. destruct Hin as [Hin | Hin];
        [contradiction |].
      exact (Hnd _ (disconnects_of_loop_events _ Hev) Hin).
  - split.
    + rewrite Htr, disconnects_app,
        (disconnects_of_loop_events _ Hev). lia.
    + intros tr ev Heq Hin Hnot. exfalso. rewrite <- Heq, Htr in Hin.
      apply in_app_or in Hin. destruct Hin as [Hin | Hin];
        [contradiction |].
      exact (Hnd _ (disconnects_of_loop_events _ Hev) Hin).
Qed.

(** Once neither [first_connection] nor [_auto_reconnect] holds, the
    loop is over. *)
Lemma run_while_closed (f : nat) (t : thread) :
  first_connection t = false -> _auto_reconnect t = false ->
  run_while w f t = (Ret tt, t).
Proof.
  intros H1 H2. destruct f; simpl; unfold bind, run_guard;
    rewrite H1, H2; reflexivity.
Qed.

Lemma run_exit_attempts (t : thread) :
  attempts (trace (snd (run_exit w t))) = attempts (trace t).
Proof.
  rewrite run_exit_spec. simpl.
  destruct (_sock t); simpl;
    destruct (_stop_requested t || stop_signal w (polls t)); simpl;
    rewrite ?ReconnectFacts.attempts_app; simpl;
    unfold attempts; simpl; lia.
Qed.

Lemma iteration_attempts (f : nat) (t : thread) :
  let t1 := snd (iteration w f t) in
  attempts (trace t1) = S (attempts (trace t))
  /\ first_connection t1 = false
  /\ _auto_reconnect t1 = _auto_reconnect t.
Proof.
  intros t1. subst t1.
  pose proof (iteration_writes_after_open reports w (fun _ h => h) f t)
    as Hw.
  set (p := if 0 <? connection_delay t
            then log_event (EvSleep (connection_delay t))
                   (set_first false t)
            else set_first false t) in Hw.
  assert (Hp : attempts (trace (opened p)) = S (attempts (trace t))
               /\ first_connection (opened p) = false
               /\ _auto_reconnect (opened p) = _auto_reconnect t).
  { subst p. destruct (0 <? connection_delay t); simpl;
      rewrite ?ReconnectFacts.attempts_app; unfold attempts; simpl;
      repeat split; lia. }
  destruct Hp as (Pa & Pf & Pr).
  destruct (writes_trace _ _ _ Hw) as (evs & Htr & Hev).
  split; [| split].
  - rewrite Htr, ReconnectFacts.attempts_app,
      (attempts_of_reports _ Hev), Pa. lia.
  - apply (writes_invariant reports
             (fun x => first_connection x = false)) with (2 := Hw);
      [| exact Pf].
    intros a b Hab. apply (write_flags _ _ _ Hab).
  - rewrite <- Pr.
    apply (writes_invariant reports
             (fun x => _auto_reconnect x = _auto_reconnect (opened p)))
      with (2 := Hw); [| reflexivity].
    intros a b Hab Hx.
    destruct (write_flags _ _ _ Hab) as (_ & _ & _ & _ & Ha & _).
    now rewrite Ha.
Qed.

(** X16.  A worker built with [auto_reconnect=False] calls [urlopen]
    at most once in its [run], whatever the outcome of that attempt. *)
Theorem no_auto_reconnect_means_one_attempt (f : nat) (t : thread) :
  _auto_reconnect t = false ->
  (attempts (trace (snd (run w f t))) <= S (attempts (trace t)))%nat.
Proof.
  intros Ha. rewrite run_unfold.
  set (t0 := set_first true (set_delay 0 t)).
  assert (Hl : (attempts (trace (snd (run_while w f t0)))
                <= S (attempts (trace t)))%nat).
  { destruct f as [| f]; simpl; unfold bind, run_guard; simpl.
    - destruct (is_running w true (polls t)
                && negb (_stop_requested t || stop_signal w (polls t)));
        simpl; lia.
    - destruct (is_running w true (polls t)
                && negb (_stop_requested t || stop_signal w (polls t)));
        simpl; [| lia].
      set (tg := observe (stop_signal w (polls t)) t0).
      destruct (iteration_attempts f tg) as (H1 & H2 & H3).
      destruct (iteration w f tg) as [[[|] | e |] t1]; simpl in *;
        try (rewrite H1; lia).
      rewrite (run_while_closed f t1 H2); [simpl; rewrite H1; lia |].
      rewrite H3. exact Ha. }
  unfold bind.
  destruct (run_while w f t0) as [[u | e |] t1]; simpl in *;
    try exact Hl.
  rewrite run_exit_attempts. exact Hl.
Qed.

Lemma zero_in_delay_values : In 0 delay_values.
Proof. vm_compute. left. reflexivity. Qed.

(** X17.  The delay never leaves the range 0..576 and every sleep of
    [run] lasts between 1 and 576 seconds; because one counter serves
    both kinds of failure, the longest wait is 576 seconds and not
    320. *)
Theorem delays_stay_in_bounds (f : nat) (t : thread) :
  Forall sleep_in_bounds (trace t) ->
  Forall sleep_in_bounds (trace (snd (run w f t)))
  /\ 0 <= connection_delay (snd (run w f t)) <= 576.
Proof.
  intros Hs.
  assert (H : In (connection_delay (snd (run w f t))) delay_values
              /\ Forall sleep_in_bounds (trace (snd (run w f t)))).
  { apply (writes_invariant any_event
             (fun x => In (connection_delay x) delay_values
                       /\ Forall sleep_in_bounds (trace x)))
      with (2 := run_writes f t).
    - intros a b Hab. apply (write_delay _ _ _ Hab).
    - split; [apply zero_in_delay_values | exact Hs]. }
  destruct H as (Hd & Ht). split; [exact Ht |].
  destruct (in_delay_values _ Hd) as (Hr & _). exact Hr.
Qed.

(** X18.  A connection attempt that cannot reach the server
    ([URLError]) is fatal at once, whatever the delay in force: one
    error is reported and the loop is left, with no retry and with the
    delay untouched. *)
Theorem url_error_is_fatal (f : nat) (t : thread) (m : string) :
  guard_open w t ->
  urlopen w (opens t) = URLError m ->
  let t' := log_event (EvOnError (PStr ("Connection failed: " ++ m)%string))
              (opened (entered t)) in
  run_while w (S f) t = (Ret tt, t')
  /\ connection_delay t' = connection_delay t
  /\ attempts (trace t') = S (attempts (trace t))
  /\ errors (trace t')
     = errors (trace t) ++ [PStr ("Connection failed: " ++ m)%string].
Proof.
  intros G Hu t'. subst t'. split; [| split; [| split]].
  - rewrite (run_while_enters w f t G). unfold bind at 1.
    rewrite (catch_ret _ _ _ _ _
               (attempt_url_error w f (entered t) m
                  (eq_trans (f_equal (urlopen w) (opens_entered t)) Hu))).
    reflexivity.
  - unfold entered. destruct (0 <? connection_delay t); reflexivity.
  - unfold entered. destruct (0 <? connection_delay t); simpl;
      rewrite !ReconnectFacts.attempts_app; unfold attempts; simpl; lia.
  - unfold entered. destruct (0 <? connection_delay t); simpl;
      rewrite !ReconnectFacts.errors_app; simpl;
      rewrite ?app_nil_r; reflexivity.
Qed.

(** With a stop request made, the loop condition fails at once. *)
Lemma run_while_stopped (f : nat) (t : thread) :
  _stop_requested t = true ->
  exists t2,
    run_while w f t = (Ret tt, t2)
    /\ trace t2 = trace t /\ _sock t2 = _sock t
    /\ _has_connected t2 = _has_connected t
    /\ _stop_requested t2 = true
    /\ opens t2 = opens t.
Proof.
  intros Hs.
  assert (Hg : run_guard w t
               = (Ret false,
                  if first_connection t || _auto_reconnect t
                  then observe (stop_signal w (polls t)) t else t)).
  { unfold run_guard. destruct (first_connection t || _auto_reconnect t);
      [| reflexivity].
    cbv zeta. unfold observe at 1. cbn [_stop_requested].
    rewrite Hs. cbn [orb negb]. rewrite andb_false_r. reflexivity. }
  exists (if first_connection t || _auto_reconnect t
          then observe (stop_signal w (polls t)) t else t).
  split.
  - destruct f as [| f].
    + change (run_while w 0 t)
        with ((go <- run_guard w ;;
               if go : bool then diverge else ret tt) t).
      rewrite (bind_ret _ _ _ _ _ Hg). reflexivity.
    + rewrite run_while_S, (bind_ret _ _ _ _ _ Hg). reflexivity.
  - destruct (first_connection t || _auto_reconnect t); cbn;
      rewrite ?Hs; auto.
Qed.

(** X19.  Retirement by the supervisor.  When [stop()] lands right
    after the worker has connected, the worker reads nothing more: it
    leaves the streaming loop and the connection loop, closes its
    socket and ends without calling [_on_disconnect]. *)
Theorem stop_after_connect_retires_silently
        (f : nat) (t : thread) (te : option string) (raw : socket) :
  guard_open w t ->
  urlopen w (opens t) = Response 200 te raw ->
  stop_signal w (S (polls t)) = true ->
  exists t',
    (run_while w (S f) ;; run_exit w) t = (Ret tt, t')
    /\ trace t'
       = trace t ++ slept (connection_delay t)
           ++ [EvConnecting; EvOnConnect; EvSockClose]
    /\ _has_connected t' = true
    /\ _stop_requested t' = true.
Proof.
  intros G Hu Hs.
  assert (Hp : polls (streaming te raw (entered t)) = S (polls t)).
  { unfold streaming, flagged, entered.
    destruct (is_chunked te), (0 <? connection_delay t); reflexivity. }
  assert (Hst : _read_stream w f (streaming te raw (entered t))
                = (Ret tt, observe true (streaming te raw (entered t)))).
  { destruct f; simpl; unfold bind, stream_guard; rewrite Hp, Hs;
      simpl; rewrite orb_true_r, andb_false_r; reflexivity. }
  set (t1 := observe true (streaming te raw (entered t))) in *.
  assert (Hrw : exists t2,
             run_while w (S f) t = (Ret tt, t2)
             /\ trace t2 = trace t1 /\ _sock t2 = Some raw
             /\ _has_connected t2 = true /\ _stop_requested t2 = true).
  { rewrite (run_while_enters w f t G). unfold bind at 1.
    assert (Ha : attempt w f (entered t) = (Ret Next, t1)).
    { rewrite (attempt_200 w f (entered t) te raw
                 (eq_trans (f_equal (urlopen w) (opens_entered t)) Hu)).
      rewrite (bind_ret _ _ _ _ _ Hst). reflexivity. }
    rewrite (catch_ret _ _ _ _ _ Ha).
    assert (Hsr : _stop_requested t1 = true).
    { subst t1. simpl. apply orb_true_r. }
    destruct (run_while_stopped f t1 Hsr)
      as (t2 & H1 & H2 & H3 & H4 & H5 & _).
    exists t2. split; [exact H1 |]. split; [exact H2 |].
    split; [rewrite H3 | split; [rewrite H4 | exact H5]];
      subst t1; unfold streaming, flagged;
      destruct (is_chunked te); reflexivity. }
  destruct Hrw as (t2 & Hr & Htr & Hso & Hhc & Hsr).
  rewrite (bind_ret _ _ _ _ _ Hr), run_exit_spec. rewrite Hso.
  eexists. split; [reflexivity |]. cbv zeta.
  assert (Hobs : _stop_requested
                   (observe (stop_signal w (polls t2))
                      (log_event EvSockClose t2)) = true).
  { simpl. rewrite Hsr. reflexivity. }
  rewrite Hobs. simpl. rewrite Htr, Hhc, Hsr. split; [| auto].
  subst t1. unfold streaming, flagged, entered, slept.
  destruct (is_chunked te), (0 <? connection_delay t); simpl;
    rewrite <- ?app_assoc; reflexivity.
Qed.

End Run.

(** Instances. *)
Lemma worker_flags_are_only_set_witness :
  let t := snd (run stopped_after_connect 5 (__init__ true)) in
  _stop_requested t = true
  /\ _has_connected t = true
  /\ In EvOnConnect (trace t).
Proof.
  intros t.
  destruct (worker_flags_are_only_set stopped_after_connect 5
              (__init__ true)) as (_ & _ & _ & H4).
  split; [reflexivity | split; [reflexivity |]].
  apply H4; [discriminate | reflexivity].
Defined.

Lemma disconnect_is_reported_once_unless_stopped_witness :
  let r := run (steady (URLError "no route")) 5 (__init__ true) in
  disconnects (trace (snd r)) = 1%nat
  /\ exists tr, trace (snd r) = tr ++ [EvOnDisconnect]
                /\ ~ In EvOnDisconnect tr.
Proof.
  intros r.
  destruct (disconnect_is_reported_once_unless_stopped
              (steady (URLError "no route")) 5 (__init__ true))
    as (H1 & H2).
  split; [exact H1 |].
  exists [EvConnecting; EvOnError (PStr "Connection failed: no route")].
  split; [reflexivity |].
  apply (H2 [EvConnecting; EvOnError (PStr "Connection failed: no route")]
            EvOnDisconnect).
  - reflexivity.
  - simpl. auto.
  - intros [].
Defined.

Lemma no_auto_reconnect_means_one_attempt_witness :
  (attempts (trace (snd (run (steady (Response 503 None [])) 9
                          (__init__ false))))
   <= 1)%nat.
Proof.
  apply (no_auto_reconnect_means_one_attempt
           (steady (Response 503 None [])) 9 (__init__ false)).
  reflexivity.
Defined.

Lemma delays_stay_in_bounds_witness :
  Forall sleep_in_bounds
    (trace (snd (run nine_timeouts_then_503 20 (__init__ true)))).
Proof.
  apply (delays_stay_in_bounds nine_timeouts_then_503 20 (__init__ true)).
  constructor.
Defined.

(** The bound is reached: nine timeouts and then 503 answers lead to a
    wait of 576 seconds. *)
Example longest_wait_is_576 :
  In (EvSleep 576)
     (trace (snd (run nine_timeouts_then_503 20 (__init__ true)))).
Proof. vm_compute. do 44 right. left. reflexivity. Qed.

Lemma url_error_is_fatal_witness :
  run_while (steady (URLError "no route")) 1 (__init__ true)
  = (Ret tt,
     log_event (EvOnError (PStr "Connection failed: no route"))
       (opened (entered (__init__ true)))).
Proof.
  destruct (url_error_is_fatal (steady (URLError "no route")) 0
              (__init__ true) "no route") as (H & _).
  - unfold guard_open. repeat split.
  - reflexivity.
  - exact H.
Defined.

Lemma stop_after_connect_retires_silently_witness :
  exists t',
    (run_while stopped_after_connect 3 ;; run_exit stopped_after_connect)
      (__init__ true) = (Ret tt, t')
    /\ trace t' = [EvConnecting; EvOnConnect; EvSockClose].
Proof.
  destruct (stop_after_connect_retires_silently stopped_after_connect 2
              (__init__ true) None [Recv ("A" ++ nl)%string])
    as (t' & H1 & H2 & _).
  - unfold guard_open. repeat split.
  - reflexivity.
  - reflexivity.
  - exists t'. split; assumption.
Defined.

End RunFacts.
Module EdgeFacts.
Import Py Worker Terms Effects Scenarios MoreScenarios.
Import DecoderFacts WorkerFacts LoopFacts FramingFacts RunFacts.
Local Open Scope list_scope.

(** One call of [_raw_read] on a socket that stays quiet changes nothing
    but the socket. *)
Lemma raw_read_quiet (s : socket) (t : thread) :
  _sock t = Some s ->
  Forall (fun ev => quiet ev = true) s ->
  exists s',
    _raw_read t = (Ret tt, set_sock (Some s') t)
    /\ Forall (fun ev => quiet ev = true) s'.
Proof.
  intros Hs Hq. unfold _raw_read. rewrite Hs.
  destruct s as [| ev s].
  - exists []. split; [| constructor].
    destruct t; simpl in *; subst; reflexivity.
  - inversion Hq as [| ? ? Hev Hrest]; subst.
    exists s. split; [| exact Hrest].
    destruct ev as [| | data | msg]; simpl in Hev; try discriminate.
    + reflexivity.
    + destruct (0 <? len data); [discriminate | reflexivity].
Qed.

Lemma raw_read_chunk_while_quiet (length : Z) (fuel : nat) :
  forall (s : socket) (t : thread),
    _sock t = Some s ->
    Forall (fun ev => quiet ev = true) s ->
    need_more length (_buffer t) = true ->
    exists s',
      _raw_read_chunk_while fuel length t
      = (Diverge, set_sock (Some s') t).
Proof.
  induction fuel as [| f IH]; intros s t Hs Hq Hn.
  - exists s. simpl. rewrite Hn.
    destruct t; simpl in *; subst; reflexivity.
  - simpl. rewrite Hn.
    destruct (raw_read_quiet s t Hs Hq) as (s1 & Hr & Hq1).
    rewrite (bind_ret _ _ _ _ _ Hr).
    destruct (IH s1 (set_sock (Some s1) t) eq_refl Hq1 Hn) as (s2 & H2).
    exists s2. rewrite H2. reflexivity.
Qed.

(** *** [repr] of a plain string *)





Section Stream.
Variable w : world.

(** X20.  The reading loop has no way out of a silent connection.
    While the socket delivers nothing ([select] times out, or [recv]
    returns the empty string because the peer has closed) and the
    buffer holds no complete line, [_read_stream] never comes back to
    its loop condition: it evaluates it once and then reads without
    end, so a later [stop()] or a consumer that stops running is not
    noticed, and no callback is made. *)
Theorem silent_connection_is_never_left
        (s : socket) (t : thread) (fuel : nat) :
  is_running w false (polls t) = true ->
  stop_signal w (polls t) = false ->
  _stop_requested t = false ->
  _sock t = Some s ->
  Forall (fun ev => quiet ev = true) s ->
  find_char LF (_buffer t) = -1 ->
  exists s',
    _read_stream w fuel t
    = (Diverge, set_sock (Some s') (observe false t)).
Proof.
  intros H1 H2 H3 Hs Hq Hb.
  assert (Hg : stream_guard w t = (Ret true, observe false t))
    by exact (stream_guard_open w t H1 H2 H3).
  assert (Hn : need_more 0 (_buffer (observe false t)) = true).
  { unfold need_more. change (_buffer (observe false t)) with (_buffer t).
    rewrite Hb. reflexivity. }
  assert (Hsame : set_sock (Some s) (observe false t) = observe false t).
  { destruct t; simpl in *; subst; reflexivity. }
  destruct fuel as [| [| f]].
  - exists s. simpl. rewrite (bind_ret _ _ _ _ _ Hg), Hsame. reflexivity.
  - exists s. rewrite read_stream_S, (bind_ret _ _ _ _ _ Hg), Hsame.
    reflexivity.
  - destruct (raw_read_chunk_while_quiet 0 f s (observe false t)
                Hs Hq Hn) as (s' & Hd).
    exists s'. rewrite read_stream_S, (bind_ret _ _ _ _ _ Hg).
    unfold bind at 1. unfold _read_chunk. unfold bind at 1.
    change (_read_chunk_while (S f) "" (observe false t))
      with ((l <- _raw_read_chunk f 0 ;; _read_chunk_while f l)
              (observe false t)).
    unfold bind at 1. unfold _raw_read_chunk at 1. unfold bind at 1.
    rewrite Hd. reflexivity.
Qed.


(** X22.  A worker whose stop was requested before it runs connects to
    nothing and calls nothing: [run] makes no attempt, no callback and
    no sleep; it only closes the socket if one was attached. *)
Theorem stopped_worker_does_nothing (f : nat) (t : thread) :
  _stop_requested t = true ->
  exists t',
    run w f t = (Ret tt, t')
    /\ trace t'
       = trace t ++ match _sock t with
                    | Some _ => [EvSockClose]
                    | None => []
                    end
    /\ opens t' = opens t.
Proof.
  intros Hs. rewrite run_unfold.
  destruct (run_while_stopped w f (set_first true (set_delay 0 t)) Hs)
    as (t2 & Hr & Htr & Hso & _ & Hst & Hop).
  rewrite (bind_ret _ _ _ _ _ Hr), run_exit_spec.
  eexists. split; [reflexivity |]. cbv zeta.
  simpl in Htr, Hso, Hop. rewrite Hso.
  destruct (_sock t); cbn [_stop_requested observe log_event];
    rewrite Hst; cbn [orb trace opens observe log_event];
    rewrite Htr, Hop, ?app_nil_r; split; reflexivity.
Qed.

End Stream.

(** Instances. *)
Lemma silent_connection_is_never_left_witness :
  exists s',
    _read_stream peer_closes_mid_line 7
      (set_buffer "half" (set_sock (Some [Recv ""]) (__init__ true)))
    = (Diverge,
       set_sock (Some s')
         (observe false
            (set_buffer "half"
               (set_sock (Some [Recv ""]) (__init__ true))))).
Proof.
  apply (silent_connection_is_never_left peer_closes_mid_line
           [Recv ""]
           (set_buffer "half" (set_sock (Some [Recv ""]) (__init__ true)))
           7).
  - reflexivity.
  - reflexivity.
  - reflexivity.
  - reflexivity.
  - repeat constructor.
  - reflexivity.
Defined.


(** A size line with a quote in it is shown between double quotes. *)
Example bad_size_with_a_quote :
  fst (_read_chunk 1
         (set_chunked true
            (set_buffer ("a'b" ++ String LF "rest")%string
               (__init__ true))))
  = Raise (StdException
             ("invalid literal for int() with base 16: "
                ++ String DQ ("a'b" ++ String DQ ""))%string).
Proof. vm_compute. reflexivity. Qed.

Lemma stopped_worker_does_nothing_witness :
  exists t',
    run (steady (Response 200 None [])) 5
      (observe true (__init__ true)) = (Ret tt, t')
    /\ trace t' = [] /\ opens t' = 0%nat.
Proof.
  destruct (stopped_worker_does_nothing (steady (Response 200 None [])) 5
              (observe true (__init__ true)) eq_refl) as (t' & H1 & H2 & H3).
  exists t'. split; [exact H1 | split; [exact H2 | exact H3]].
Defined.

End EdgeFacts.
Module CleanFacts.
Import Py Worker Terms Effects Scenarios MoreScenarios.
Import DecoderFacts WorkerFacts LoopFacts EffectFacts RunFacts.
Local Open Scope list_scope.

Lemma cr_free_empty : cr_free "".
Proof. intros []. Qed.

Lemma cr_free_cons (a : ascii) (s : string) :
  cr_free (String a s) <-> a <> CR /\ cr_free s.
Proof.
  unfold cr_free. simpl. split.
  - intros H. split; intros H'; apply H; [left; congruence | right; exact H'].
  - intros (H1 & H2) [E | H']; [congruence | exact (H2 H')].
Qed.

Lemma cr_free_app (a b : string) :
  cr_free a -> cr_free b -> cr_free (a ++ b)%string.
Proof.
  induction a as [| c a IH]; simpl; intros Ha Hb; [exact Hb |].
  apply cr_free_cons in Ha. destruct Ha as (H1 & H2).
  apply cr_free_cons. split; [exact H1 | exact (IH H2 Hb)].
Qed.

Lemma cr_free_strip (s : string) : cr_free (strip_cr s).
Proof.
  induction s as [| c s IH]; simpl; [exact cr_free_empty |].
  destruct (Ascii.eqb_spec c CR) as [E | N]; [exact IH |].
  apply cr_free_cons. split; assumption.
Qed.

Lemma cr_free_take (n : nat) :
  forall s, cr_free s -> cr_free (take n s).
Proof.
  induction n as [| n IH]; intros [| c s] H; simpl;
    try exact cr_free_empty.
  apply cr_free_cons in H. destruct H as (H1 & H2).
  apply cr_free_cons. split; [exact H1 | exact (IH s H2)].
Qed.

Lemma cr_free_drop (n : nat) :
  forall s, cr_free s -> cr_free (drop n s).
Proof.
  induction n as [| n IH]; intros [| c s] H; simpl;
    try exact H; try exact cr_free_empty.
  apply cr_free_cons in H. destruct H as (_ & H2). exact (IH s H2).
Qed.

Lemma cr_free_slice (s : string) (lo hi : Z) :
  cr_free s -> cr_free (slice s lo hi).
Proof. intros H. unfold slice. apply cr_free_take, cr_free_drop, H. Qed.

Lemma cr_free_slice_from (s : string) (lo : Z) :
  cr_free s -> cr_free (slice_from s lo).
Proof. intros H. unfold slice_from. apply cr_free_drop, H. Qed.

(** The single writes keep the buffer free of carriage returns. *)
Lemma write_cr_free (E : event -> Prop) (t t' : thread) :
  write E t t' -> cr_free (_buffer t) -> cr_free (_buffer t').
Proof.
  destruct 1; simpl; intros Hb; try exact Hb.
  - apply cr_free_app; [exact Hb | apply cr_free_strip].
  - apply cr_free_slice_from, Hb.
Qed.

Lemma writes_cr_free (E : event -> Prop) (t t' : thread) :
  writes E t t' -> cr_free (_buffer t) -> cr_free (_buffer t').
Proof.
  apply (writes_invariant E (fun x => cr_free (_buffer x))).
  intros a b Hab. exact (write_cr_free E a b Hab).
Qed.

(** What the decoder returns is cut out of the buffer. *)
Lemma raw_read_chunk_cr_free (n : Z) (fuel : nat) (t t' : thread)
      (l : string) :
  cr_free (_buffer t) ->
  _raw_read_chunk fuel n t = (Ret l, t') -> cr_free l.
Proof.
  intros H. unfold _raw_read_chunk, bind.
  pose proof (writes_cr_free any_event _ _
                (confined_raw_read_chunk_while any_event fuel n t) H)
    as H1.
  destruct (_raw_read_chunk_while fuel n t) as [[u | e |] t1];
    simpl in *; try discriminate.
  intros E. inversion E; subst. apply cr_free_slice, H1.
Qed.

Lemma read_chunk_while_cr_free (fuel : nat) :
  forall (l0 l : string) (t t' : thread),
    cr_free l0 -> cr_free (_buffer t) ->
    _read_chunk_while fuel l0 t = (Ret l, t') -> cr_free l.
Proof.
  induction fuel as [| f IH]; intros l0 l t t' Hl H; simpl;
    destruct (len l0 =? 0); simpl;
    try (intros E; inversion E; subst; exact Hl);
    try discriminate.
  unfold bind.
  pose proof (writes_cr_free any_event _ _
                (confined_raw_read_chunk any_event f 0 t) H) as H1.
  pose proof (raw_read_chunk_cr_free 0 f t) as H2.
  destruct (_raw_read_chunk f 0 t) as [[l1 | e |] t1]; simpl in *;
    try discriminate.
  apply (IH l1 l t1 t'); [exact (H2 t1 l1 H eq_refl) | exact H1].
Qed.

Lemma read_chunk_cr_free (fuel : nat) (t t' : thread) (l : string) :
  cr_free (_buffer t) ->
  _read_chunk fuel t = (Ret l, t') -> cr_free l.
Proof.
  intros H. unfold _read_chunk, bind.
  pose proof (writes_cr_free any_event _ _
                (confined_read_chunk_while any_event fuel "" t) H) as H1.
  destruct (_read_chunk_while fuel "" t) as [[l1 | e |] t1] eqn:Ew;
    simpl in H1; try discriminate.
  pose proof (read_chunk_while_cr_free fuel "" l1 t t1 cr_free_empty H Ew)
    as H2.
  unfold gets. destruct (_chunked t1); simpl.
  - destruct (int16 l1) as [n |]; simpl; [| discriminate].
    apply raw_read_chunk_cr_free, H1.
  - intros E. inversion E; subst. exact H2.
Qed.

Section Run.
Variable w : world.

Lemma run_writes_clean (f : nat) (t : thread) :
  cr_free (_buffer t) ->
  writes frame_cr_free (set_first true (set_delay 0 t))
    (snd (run w f t)).
Proof.
  intros Hb. rewrite run_unfold.
  set (t0 := set_first true (set_delay 0 t)).
  assert (W1 : writes frame_cr_free t0 (snd (run_while w f t0))).
  { apply (guarded_run_while frame_cr_free w
             (fun x => cr_free (_buffer x))).
    - intros a b Hab. exact (write_cr_free _ a b Hab).
    - intros ev Hev. destruct ev; simpl in *; tauto.
    - intros f0 x l x' Hx Hr. exact (read_chunk_cr_free f0 x x' l Hx Hr).
    - exact I.
    - intros d. exact I.
    - exact Hb. }
  unfold bind.
  destruct (run_while w f t0) as [[u | e |] t1]; simpl in *;
    try exact W1.
  exact (writes_trans _ _ _ _ W1
           (run_exit_writes_in w frame_cr_free I I t1)).
Qed.

(** X23.  Carriage returns never reach the consumer.  Received bytes
    enter the buffer without their carriage returns and nothing else
    is ever put into it: through a whole [run], reconnects included,
    the buffer holds none, and neither does any frame handed to the
    data callback. *)
Theorem carriage_returns_never_reach_the_consumer
        (f : nat) (t : thread) :
  cr_free (_buffer t) ->
  cr_free (_buffer (snd (run w f t)))
  /\ exists evs,
      trace (snd (run w f t)) = trace t ++ evs
      /\ forall frame, In (EvOnData frame) evs -> cr_free frame.
Proof.
  intros Hb. pose proof (run_writes_clean f t Hb) as W. split.
  - exact (writes_cr_free _ _ _ W Hb).
  - destruct (writes_trace _ _ _ W) as (evs & Htr & Hev).
    exists evs. split; [exact Htr |].
    intros frame Hin. rewrite Forall_forall in Hev.
    exact (Hev _ Hin).
Qed.

End Run.

Lemma carriage_returns_never_reach_the_consumer_witness :
  let w := steady (Response 200 (Some "chunked") [Recv hello_chunked]) in
  cr_free (_buffer (snd (run w 9 (__init__ true))))
  /\ exists evs,
      trace (snd (run w 9 (__init__ true))) = trace (__init__ true) ++ evs
      /\ forall frame, In (EvOnData frame) evs -> cr_free frame.
Proof.
  intros w.
  apply (carriage_returns_never_reach_the_consumer w 9 (__init__ true)).
  intros [].
Defined.

End CleanFacts.
